(** * media-manager: classification, season merge and catalog upsert

    A shallow embedding of the classifier package (ClassifyAndMove,
    DetermineCategory, MoveDirectory, HasNewSeasons,
    DetectMissingSeasonsAndEpisodes) and of the database package
    (InsertOrUpdateMediaRecord, InsertMissingSeason, InsertMissingEpisode,
    GetMediaRecords, GetMissingSeasons) of media-manager.

    Conventions of the embedding.
    - A Go [string] is a sequence of bytes: Rocq's [string].  Literals that
      hold Chinese text are the UTF-8 bytes of the source file.
    - A Go [error] result is a value of [Result]; [nil] is [Ok].
    - Go's [int] is modelled by [Z]; the one place where the code does
      arithmetic on a stored integer (the version increment) wraps at 64
      bits.
    - Functions of the Go standard library whose behaviour depends on the
      Unicode tables ([strings.ToLower], the regexp class [\p{Han}]) and
      [encoding/xml] are parameters of the development; an ASCII instance is
      given for evaluation on concrete inputs. *)

From Stdlib Require Import String Ascii List ZArith Lia Bool Arith.
From Stdlib Require Import DecimalString DecimalNat Sorted FinFun.
Import ListNotations.
Open Scope string_scope.

Set Implicit Arguments.

(** ** Results and errors *)

(** The error numbers of package os that the classifier can meet. *)
Inductive Errno : Type :=
| ENOENT | ENOTDIR | EEXIST | EISDIR | EINVAL | EXDEV | EBUSY | ENOTEMPTY.

(** The errors built by [fmt.Errorf] in the classifier, and the errors of
    the packages os, tmdb and database/sql that it passes on. *)
Inductive GoError : Type :=
| ErrParseNFO            (* 分类时解析NFO文件失败 *)
| ErrReadDir             (* 读取目录失败 *)
| ErrNoCountry           (* 没有有效的国家信息 *)
| ErrDetermineCategory   (* 确定分类失败 *)
| ErrMkdirTarget         (* 创建目标目录失败 *)
| ErrReadSourceDir       (* 读取源目录失败 *)
| ErrReadTargetDir       (* 读取目标目录失败 *)
| ErrMoveMedia           (* 移动影片失败 *)
| ErrSourceMissing       (* 源目录不存在 *)
| ErrTotalSeasons        (* 获取剧集总季数失败 *)
| ErrExistingSeasons     (* 获取已存在季数失败 *)
| ErrOs (e : Errno)      (* a *PathError or *LinkError of package os *)
| ErrTMDB                (* an error of package tmdb *)
| ErrScanNull            (* sql: converting NULL to a Go value *)
| ErrDepth.              (* the recursion bound of the model was reached *)

Inductive Result (A : Type) : Type :=
| Ok (a : A)
| Err (e : GoError).
Arguments Ok {A} a.
Arguments Err {A} e.

(** ** Package strings *)

Module Strings.

(** [strings.HasPrefix s prefix] *)
Fixpoint HasPrefix (s prefix : string) : bool :=
  match prefix, s with
  | EmptyString, _ => true
  | String _ _, EmptyString => false
  | String p prefix', String c s' => Ascii.eqb p c && HasPrefix s' prefix'
  end.

(** [strings.Contains s substr]: [substr] occurs in [s] as a run of bytes. *)
Fixpoint Contains (s substr : string) : bool :=
  HasPrefix s substr ||
  match s with
  | EmptyString => false
  | String _ s' => Contains s' substr
  end.

(** [strings.HasSuffix s suffix] *)
Definition HasSuffix (s suffix : string) : bool :=
  let n := String.length s in
  let m := String.length suffix in
  (m <=? n)%nat && String.eqb (substring (n - m) m s) suffix.

(** [strings.Join elems sep] *)
Fixpoint Join (elems : list string) (sep : string) : string :=
  match elems with
  | [] => ""
  | [e] => e
  | e :: rest => e ++ sep ++ Join rest sep
  end.

(** The byte-wise lower-casing of the letters A to Z.  On a string all of
    whose bytes are ASCII this is [strings.ToLower]; so it is on valid UTF-8
    whose other characters have no lower-case form, such as Han characters. *)
Definition lowerByte (c : ascii) : ascii :=
  let n := nat_of_ascii c in
  if ((65 <=? n) && (n <=? 90))%nat then ascii_of_nat (n + 32) else c.

Fixpoint ToLowerASCII (s : string) : string :=
  match s with
  | EmptyString => EmptyString
  | String c s' => String (lowerByte c) (ToLowerASCII s')
  end.

End Strings.

(** ** The locale classifier *)

(** Category定义分类常量 *)
Definition CategoryCnMovie   : string := "CnMovie".
Definition CategoryCnShow    : string := "CnShow".
Definition CategoryEnMovie   : string := "EnMovie".
Definition CategoryEnShow    : string := "EnShow".
Definition CategoryJpKrShow  : string := "Jp&KrShow".
Definition CategoryJpKrMovie : string := "Jp&KrMovie".
Definition CategoryDmMovie   : string := "DmMovie".
Definition CategoryDmShow    : string := "DmShow".
Definition CategoryJlShow    : string := "JlShow".
Definition CategoryXSShow    : string := "XSShow".

Section Classify.

(** [strings.ToLower] *)
Variable ToLower : string -> string.

(** The test of the first loop of DetermineCategory. *)
Definition isDocumentaryGenre (genre : string) : bool :=
  Strings.Contains (ToLower genre) "纪录片" ||
  Strings.Contains (ToLower genre) "documentary".

Definition varietyKeywords : list string :=
  [ "综艺节目"; "variety";
    "真人秀"; "reality";
    "真人节目"; "reality show";
    "脱口秀"; "talk show";
    "游戏节目"; "game-show";
    "竞赛节目"; "competition";
    "选秀节目"; "talent show" ].

(** The test of the second loop. *)
Definition isVarietyGenre (genre : string) : bool :=
  let genreLower := ToLower genre in
  existsb (fun keyword => Strings.Contains genreLower keyword) varietyKeywords.

(** The test of the third loop. *)
Definition isAnimeGenre (genre : string) : bool :=
  Strings.Contains (ToLower genre) "动漫" ||
  Strings.Contains (ToLower genre) "动画" ||
  Strings.Contains (ToLower genre) "animation".

(** 检查是否为日本或韩国 *)
Definition isJpKrCountry (country : string) : bool :=
  let countryLower := ToLower country in
  Strings.Contains countryLower "日本" ||
  Strings.Contains countryLower "日本国" ||
  Strings.Contains countryLower "japan" ||
  Strings.Contains countryLower "韩国" ||
  Strings.Contains countryLower "大韩民国" ||
  Strings.Contains countryLower "korea" ||
  Strings.Contains countryLower "south korea".

(** 检查是否为国内（中国大陆、香港、台湾） *)
Definition isCnCountry (country : string) : bool :=
  let countryLower := ToLower country in
  Strings.Contains countryLower "中国大陆" ||
  Strings.Contains countryLower "中国香港" ||
  Strings.Contains countryLower "香港特别行政区" ||
  Strings.Contains countryLower "中国台湾" ||
  Strings.Contains countryLower "台湾地区" ||
  Strings.Contains countryLower "香港" ||
  Strings.Contains countryLower "台湾" ||
  Strings.Contains countryLower "中国" ||
  Strings.Contains countryLower "中华人民共和国" ||
  Strings.Contains countryLower "china" ||
  Strings.Contains countryLower "hong kong" ||
  Strings.Contains countryLower "taiwan".

(** DetermineCategory根据国家/地区、类型和 genres 确定分类.  The three genre
    loops return at the first genre that passes their test; the body of the
    loop over [countries] returns on every path, so only its first iteration
    ever runs. *)
Definition DetermineCategory (countries : list string) (isTVShow : bool)
    (genres : list string) : Result string :=
  if existsb isDocumentaryGenre genres then Ok CategoryJlShow
  else if existsb isVarietyGenre genres then Ok CategoryXSShow
  else if existsb isAnimeGenre genres then
    (if isTVShow then Ok CategoryDmShow else Ok CategoryDmMovie)
  else
    match countries with
    | country :: _ =>
        if isJpKrCountry country then
          (if isTVShow then Ok CategoryJpKrShow else Ok CategoryJpKrMovie)
        else if isCnCountry country then
          (if isTVShow then Ok CategoryCnShow else Ok CategoryCnMovie)
        else
          (if isTVShow then Ok CategoryEnShow else Ok CategoryEnMovie)
    | [] => Err ErrNoCountry
    end.

(** No genre passes the documentary, variety or anime test. *)
Definition noGenreOverride (genres : list string) : Prop :=
  existsb isDocumentaryGenre genres = false /\
  existsb isVarietyGenre genres = false /\
  existsb isAnimeGenre genres = false.

End Classify.

(** ** Season markers in directory names *)

Module Regexp.

(** [\d] of Go's regexp: the ASCII digits. *)
Definition isDigit (c : ascii) : bool :=
  let n := nat_of_ascii c in ((48 <=? n) && (n <=? 57))%nat.

(** [\s] of Go's regexp: tab, newline, form feed, carriage return, space. *)
Definition isSpace (c : ascii) : bool :=
  let n := nat_of_ascii c in
  ((n =? 9) || (n =? 10) || (n =? 12) || (n =? 13) || (n =? 32))%nat.

(** A literal ASCII letter under [(?i)]: the letter in either case. *)
Definition eatLetter (lower : ascii) (s : string) : option string :=
  match s with
  | String c rest =>
      if Ascii.eqb (Strings.lowerByte c) lower then Some rest else None
  | EmptyString => None
  end.

(** The letter s under [(?i)]: s, S and, by Unicode simple case folding,
    the long s U+017F (bytes C5 BF). *)
Definition eatS (s : string) : option string :=
  match eatLetter "s" s with
  | Some rest => Some rest
  | None =>
      match s with
      | String c1 (String c2 rest) =>
          if ((nat_of_ascii c1 =? 197) && (nat_of_ascii c2 =? 191))%nat
          then Some rest else None
      | _ => None
      end
  end.

(** A literal run of bytes (used for the Han characters of the patterns,
    which have no case variants). *)
Fixpoint eatLiteral (lit s : string) : option string :=
  match lit, s with
  | EmptyString, _ => Some s
  | String l lit', String c s' =>
      if Ascii.eqb l c then eatLiteral lit' s' else None
  | String _ _, EmptyString => None
  end.

(** [\s*], greedy. *)
Fixpoint skipSpaces (s : string) : string :=
  match s with
  | String c rest => if isSpace c then skipSpaces rest else s
  | EmptyString => s
  end.

(** [(\d+)], greedy: the digits matched and what follows them. *)
Fixpoint spanDigits (s : string) : string * string :=
  match s with
  | String c rest =>
      if isDigit c then
        let (ds, tl) := spanDigits rest in (String c ds, tl)
      else (EmptyString, s)
  | EmptyString => (EmptyString, EmptyString)
  end.

Definition digits1 (s : string) : option (string * string) :=
  match spanDigits s with
  | (EmptyString, _) => None
  | (ds, tl) => Some (ds, tl)
  end.

Definition bind {A B} (o : option A) (f : A -> option B) : option B :=
  match o with Some a => f a | None => None end.

(** [season\s*(\d+)] anchored at the start of [s]; the capture. *)
Definition matchSeasonAt (s : string) : option string :=
  bind (eatS s) (fun s =>
  bind (eatLetter "e" s) (fun s =>
  bind (eatLetter "a" s) (fun s =>
  bind (eatS s) (fun s =>
  bind (eatLetter "o" s) (fun s =>
  bind (eatLetter "n" s) (fun s =>
  bind (digits1 (skipSpaces s)) (fun m => Some (fst m)))))))).

(** [第(\d+)季] anchored at the start of [s]. *)
Definition matchDiJiAt (s : string) : option string :=
  bind (eatLiteral "第" s) (fun s =>
  bind (digits1 s) (fun m =>
  bind (eatLiteral "季" (snd m)) (fun _ => Some (fst m)))).

(** [S(\d+)] anchored at the start of [s]. *)
Definition matchSAt (s : string) : option string :=
  bind (eatS s) (fun s =>
  bind (digits1 s) (fun m => Some (fst m))).

(** [FindStringSubmatch]: the leftmost position at which the pattern
    matches; the result is the text of capture group 1. *)
Fixpoint findSubmatch (matchAt : string -> option string) (s : string)
  : option string :=
  match matchAt s with
  | Some capture => Some capture
  | None =>
      match s with
      | String _ rest => findSubmatch matchAt rest
      | EmptyString => None
      end
  end.

End Regexp.

Module Strconv.

(** The value of a run of decimal digits. *)
Fixpoint digitsValue (acc : Z) (s : string) : Z :=
  match s with
  | String c rest => digitsValue (10 * acc + Z.of_nat (nat_of_ascii c - 48)) rest
  | EmptyString => acc
  end.

Definition maxInt : Z := 9223372036854775807.

(** [strconv.Atoi] on a non-empty run of digits: the value, or a range
    error when it does not fit a 64-bit int. *)
Definition Atoi (s : string) : option Z :=
  let n := digitsValue 0 s in
  if (n <=? maxInt)%Z then Some n else None.

End Strconv.

(** [regexPatterns] of GetSeasonNumberFromDirName, in order. *)
Definition regexPatterns : list (string -> option string) :=
  [ Regexp.matchSeasonAt;   (* (?i)season\s*(\d+) *)
    Regexp.matchDiJiAt;     (* (?i)第(\d+)季 *)
    Regexp.matchSAt ].      (* (?i)S(\d+) *)

(** The loop over the patterns: the first pattern that matches and whose
    capture converts gives the season number; a pattern that matches with a
    capture out of range is passed over. *)
Fixpoint seasonFromPatterns (patterns : list (string -> option string))
    (dirName : string) : Z :=
  match patterns with
  | [] => 0
  | pattern :: rest =>
      match Regexp.findSubmatch pattern dirName with
      | Some capture =>
          match Strconv.Atoi capture with
          | Some n => n
          | None => seasonFromPatterns rest dirName
          end
      | None => seasonFromPatterns rest dirName
      end
  end%Z.

(** GetSeasonNumberFromDirName 从目录名中提取季数 *)
Definition GetSeasonNumberFromDirName (dirName : string) : Z :=
  seasonFromPatterns regexPatterns dirName.

(** The loops [for _, s := range seasons { if s == n { found = true } }]. *)
Definition containsSeason (seasons : list Z) (n : Z) : bool :=
  existsb (fun s => Z.eqb s n) seasons.


(** ** The file system

    A directory tree; a path is the list of the names from the root, the
    empty path being the root itself (the "." of a relative path), so
    [filepath.Dir] is [removelast] and [filepath.Base] is [last], which
    names the empty path by the empty string.  Permissions, links and open
    files are not part of the model: an operation fails only for the shape
    of the tree, and a rename also when the two paths lie on different
    devices. *)

#[warnings="-register-all"]
Inductive Node : Type :=
| File (data : string)
| Dir (entries : list (string * Node)).

Definition Path := list string.

(** [filepath.Join dir name]: the result is cleaned, so the name of the
    empty path adds nothing to [dir]. *)
Definition Join (dir : Path) (name : string) : Path :=
  if String.eqb name "" then dir else (dir ++ [name])%list.
Definition DirOf (p : Path) : Path := removelast p.
Definition Base (p : Path) : string := last p "".

Definition isDirNode (n : Node) : bool :=
  match n with Dir _ => true | File _ => false end.

(** [os.IsNotExist] *)
Definition IsNotExist (e : GoError) : bool :=
  match e with ErrOs ENOENT => true | _ => false end.

Fixpoint lookupEntry (name : string) (entries : list (string * Node))
  : option Node :=
  match entries with
  | [] => None
  | (n, child) :: rest =>
      if String.eqb n name then Some child else lookupEntry name rest
  end.

Fixpoint setEntry (name : string) (node : Node)
    (entries : list (string * Node)) : list (string * Node) :=
  match entries with
  | [] => [(name, node)]
  | (n, child) :: rest =>
      if String.eqb n name then (name, node) :: rest
      else (n, child) :: setEntry name node rest
  end.

Fixpoint removeEntry (name : string) (entries : list (string * Node))
  : list (string * Node) :=
  match entries with
  | [] => []
  | (n, child) :: rest =>
      if String.eqb n name then removeEntry name rest
      else (n, child) :: removeEntry name rest
  end.

(** [os.Stat]: the node at [p], ENOENT when a name is missing, ENOTDIR when
    the path runs through a file. *)
Fixpoint Stat (fs : Node) (p : Path) : Result Node :=
  match p with
  | [] => Ok fs
  | name :: rest =>
      match fs with
      | File _ => Err (ErrOs ENOTDIR)
      | Dir entries =>
          match lookupEntry name entries with
          | Some child => Stat child rest
          | None => Err (ErrOs ENOENT)
          end
      end
  end.

(** Rewrite the entries of the directory at [p]. *)
Fixpoint withDir (p : Path)
    (f : list (string * Node) -> list (string * Node)) (fs : Node)
  : Result Node :=
  match fs with
  | File _ => Err (ErrOs ENOTDIR)
  | Dir entries =>
      match p with
      | [] => Ok (Dir (f entries))
      | name :: rest =>
          match lookupEntry name entries with
          | None => Err (ErrOs ENOENT)
          | Some child =>
              match withDir rest f child with
              | Ok child' => Ok (Dir (setEntry name child' entries))
              | Err e => Err e
              end
          end
      end
  end.

(** Unlink the entry at [p]; plant [node] at [p]. *)
Definition unlinkAt (p : Path) (fs : Node) : Result Node :=
  withDir (DirOf p) (removeEntry (Base p)) fs.

Definition plantAt (p : Path) (node : Node) (fs : Node) : Result Node :=
  withDir (DirOf p) (setEntry (Base p) node) fs.

(** The slow path of [os.MkdirAll]: make the missing directories along [p]. *)
Fixpoint mkdirAlong (fs : Node) (p : Path) : Result Node :=
  match fs with
  | File _ => Err (ErrOs ENOTDIR)
  | Dir entries =>
      match p with
      | [] => Ok fs
      | name :: rest =>
          let child :=
            match lookupEntry name entries with
            | Some c => c
            | None => Dir []
            end in
          match mkdirAlong child rest with
          | Ok child' => Ok (Dir (setEntry name child' entries))
          | Err e => Err e
          end
      end
  end.

(** [os.MkdirAll]: nothing to do for a directory that exists. *)
Definition MkdirAll (fs : Node) (p : Path) : Result Node :=
  match Stat fs p with
  | Ok (Dir _) => Ok fs
  | Ok (File _) => Err (ErrOs ENOTDIR)
  | Err _ => mkdirAlong fs p
  end.

(** [os.RemoveAll]: the subtree at [p] goes; a path that does not exist is
    not an error. *)
Definition RemoveAll (fs : Node) (p : Path) : Result Node :=
  match p with
  | [] => Err (ErrOs EBUSY)
  | _ =>
      match unlinkAt p fs with
      | Ok fs' => Ok fs'
      | Err e => if IsNotExist e then Ok fs else Err e
      end
  end.

(** Names in the order of [os.ReadDir]: sorted by file name. *)
Fixpoint insertByName (e : string * bool) (l : list (string * bool))
  : list (string * bool) :=
  match l with
  | [] => [e]
  | x :: rest =>
      if String.leb (fst e) (fst x) then e :: l
      else x :: insertByName e rest
  end.

Definition sortByName (l : list (string * bool)) : list (string * bool) :=
  fold_right insertByName [] l.

(** [os.ReadDir]: name and [IsDir] of every entry. *)
Definition ReadDir (fs : Node) (p : Path) : Result (list (string * bool)) :=
  match Stat fs p with
  | Ok (Dir entries) =>
      Ok (sortByName (map (fun e => (fst e, isDirNode (snd e))) entries))
  | Ok (File _) => Err (ErrOs ENOTDIR)
  | Err e => Err e
  end.

Definition path_eqb (p q : Path) : bool :=
  if list_eq_dec string_dec p q then true else false.

(** [p] is a proper ancestor of [q]. *)
Fixpoint isAncestor (p q : Path) : bool :=
  match p, q with
  | [], _ :: _ => true
  | a :: p', b :: q' => String.eqb a b && isAncestor p' q'
  | _, [] => false
  end.

(** [copyFile]: [os.Open src], [os.Create dst] (which empties a file that
    is there), [io.Copy]; file modes are not modelled. *)
Definition copyFile (fs : Node) (src dst : Path) : Result unit * Node :=
  match Stat fs src with
  | Err e => (Err e, fs)
  | Ok srcNode =>
      match dst, Stat fs dst with
      | [], _ => (Err (ErrOs EISDIR), fs)
      | _, Ok (Dir _) => (Err (ErrOs EISDIR), fs)
      | _, _ =>
          match plantAt dst (File "") fs with
          | Err e => (Err e, fs)
          | Ok fs1 =>
              match srcNode with
              | Dir _ => (Err (ErrOs EISDIR), fs1)
              | File data =>
                  match plantAt dst (File data) fs1 with
                  | Ok fs2 => (Ok tt, fs2)
                  | Err e => (Err e, fs1)
                  end
              end
          end
      end
  end.

Section Devices.

(** Whether a rename from the first path to the second would cross a
    device boundary. *)
Variable xdev : Path -> Path -> bool.

(** The system call rename(2). *)
Definition sysRename (fs : Node) (src dst : Path) : Result Node :=
  match src, dst with
  | [], _ | _, [] => Err (ErrOs EBUSY)
  | _, _ =>
      match Stat fs (DirOf src), Stat fs (DirOf dst) with
      | Err e, _ => Err e
      | Ok (File _), _ => Err (ErrOs ENOTDIR)
      | Ok (Dir _), Err e => Err e
      | Ok (Dir _), Ok (File _) => Err (ErrOs ENOTDIR)
      | Ok (Dir _), Ok (Dir _) =>
          if xdev src dst then Err (ErrOs EXDEV) else
          match Stat fs src with
          | Err e => Err e
          | Ok node =>
              if path_eqb src dst then Ok fs
              else if isAncestor src dst then Err (ErrOs EINVAL)
              else
                match node, Stat fs dst with
                | Dir _, Ok (File _) => Err (ErrOs ENOTDIR)
                | File _, Ok (Dir _) => Err (ErrOs EISDIR)
                | Dir _, Ok (Dir (_ :: _)) => Err (ErrOs ENOTEMPTY)
                | _, _ =>
                    match unlinkAt src fs with
                    | Err e => Err e
                    | Ok fs1 => plantAt dst node fs1
                    end
                end
          end
      end
  end.

(** [os.Rename]: a destination that is a directory is refused before the
    system call is made, with the error of the source when that cannot be
    examined and with EEXIST otherwise ([newname == oldname ||
    !SameFile(fi, ofi)]: two paths of the tree are the same file only when
    they are the same path). *)
Definition Rename (fs : Node) (src dst : Path) : Result Node :=
  match Stat fs dst with
  | Ok (Dir _) =>
      match Stat fs src with
      | Err e => Err e
      | Ok _ => Err (ErrOs EEXIST)
      end
  | _ => sysRename fs src dst
  end.

(** The height of a tree. *)
Fixpoint height (n : Node) : nat :=
  match n with
  | File _ => 0
  | Dir entries =>
      S (fold_right (fun e m => Nat.max (height (snd e)) m) 0 entries)
  end.

(** The loop of the copy mode of MoveDirectory over the entries of the
    source: a subdirectory is moved by [move], a file is copied. *)
Fixpoint copyEntries (move : Node -> Path -> Path -> Result unit * Node)
    (src dst : Path) (entries : list (string * bool)) (fs : Node)
  : Result unit * Node :=
  match entries with
  | [] => (Ok tt, fs)
  | (name, isDir) :: rest =>
      let srcPath := Join src name in
      let dstPath := Join dst name in
      let step :=
        if isDir then move fs srcPath dstPath
        else copyFile fs srcPath dstPath in
      match step with
      | (Ok _, fs') => copyEntries move src dst rest fs'
      | (Err e, fs') => (Err e, fs')
      end
  end.

(** MoveDirectory处理目录移动，支持跨设备移动, with a bound on the depth of the
    recursion: [depth] calls may be nested. *)
Fixpoint MoveDirectoryRec (depth : nat) (fs : Node) (src dst : Path)
  : Result unit * Node :=
  match depth with
  | O => (Err ErrDepth, fs)
  | S depth' =>
      match Rename fs src dst with
      | Ok fs' => (Ok tt, fs')
      | Err e =>
          if negb (IsNotExist e) then
            (* 跨设备移动，使用复制模式 *)
            match MkdirAll fs dst with
            | Err e1 => (Err e1, fs)
            | Ok fs1 =>
                match ReadDir fs1 src with
                | Err e2 => (Err e2, fs1)
                | Ok entries =>
                    match copyEntries (MoveDirectoryRec depth') src dst
                                      entries fs1 with
                    | (Err e3, fs2) => (Err e3, fs2)
                    | (Ok _, fs2) =>
                        match RemoveAll fs2 src with
                        | Ok fs3 => (Ok tt, fs3)
                        | Err e4 => (Err e4, fs2)
                        end
                    end
                end
            end
          else (Err ErrSourceMissing, fs)
      end
  end.

(** MoveDirectory: a call on a tree of height h nests at most h + 1 calls
    when the destination lies outside the source, and that is the bound
    given.  (With a destination inside the source the Go function does not
    return; the model answers ErrDepth.) *)
Definition MoveDirectory (fs : Node) (src dst : Path) : Result unit * Node :=
  let depth :=
    match Stat fs src with
    | Ok node => S (height node)
    | Err _ => 1
    end in
  MoveDirectoryRec depth fs src dst.

End Devices.

(** ** The catalog store

    The three tables of the SQLite database.  A table is the list of its
    rows in rowid order, with the counter of its AUTOINCREMENT key.  A
    SELECT without ORDER BY is read in rowid order, so [QueryRow] yields the
    first row of the list that satisfies the WHERE clause.  Statements run
    against the store do not fail for reasons outside the data (I/O, locks);
    the errors modelled are those of [Scan] meeting NULL.  Times are numbers
    (seconds, say); paths are stored as paths. *)

(** MediaRecord 表示媒体记录的结构 *)
Record MediaRecord : Type := {
  ID            : Z;
  FileName      : string;
  Title         : string;
  OriginalTitle : string;
  Year          : string;
  Country       : string;
  Genres        : string;
  Actors        : string;
  Category      : string;
  SourcePath    : Path;
  TargetPath    : Path;
  ProcessedAt   : Z;
  UpdatedAt     : Z;
  Runtime       : string;
  Plot          : string;
  IMDbID        : string;
  TMDbID        : string;
  Season        : string;
  Episode       : string;
  Director      : string;
  Writer        : string;
  Rating        : string;
  Resolution    : string;
  Version       : Z;
  IsComplete    : bool
}.

(** A row of media_records.  Every column but the key may hold NULL: the
    columns added by ALTER TABLE are NULL in the rows written before. *)
Record MediaRow : Type := {
  id             : Z;
  file_name      : option string;
  title          : option string;
  original_title : option string;
  year           : option string;
  country        : option string;
  genres         : option string;
  actors         : option string;
  category       : option string;
  source_path    : option Path;
  target_path    : option Path;
  processed_at   : option Z;
  updated_at     : option Z;
  runtime        : option string;
  plot           : option string;
  imdb_id        : option string;
  tmdb_id        : option string;
  season         : option string;
  episode        : option string;
  director       : option string;
  writer         : option string;
  rating         : option string;
  resolution     : option string;
  version        : option Z;
  is_complete    : option bool
}.

(** MissingSeason 表示缺失的季记录; also the shape of a row of missing_seasons. *)
Record MissingSeason : Type := {
  sID            : Z;
  sMediaID       : Z;
  sTitle         : string;
  sOriginalTitle : string;
  sTMDbID        : string;
  sSeason        : Z;
  sDetectedAt    : Z;
  sUpdatedAt     : Z;
  sStatus        : string
}.

(** MissingEpisode 表示缺失的剧集记录; also the shape of a row of
    missing_episodes. *)
Record MissingEpisode : Type := {
  eID            : Z;
  eMediaID       : Z;
  eTitle         : string;
  eOriginalTitle : string;
  eTMDbID        : string;
  eSeason        : Z;
  eEpisode       : Z;
  eDetectedAt    : Z;
  eUpdatedAt     : Z;
  eStatus        : string
}.

Record DB : Type := {
  media_records    : list MediaRow;
  media_seq        : Z;
  missing_seasons  : list MissingSeason;
  seasons_seq      : Z;
  missing_episodes : list MissingEpisode;
  episodes_seq     : Z
}.

Definition emptyDB : DB :=
  {| media_records := []; media_seq := 0;
     missing_seasons := []; seasons_seq := 0;
     missing_episodes := []; episodes_seq := 0 |}.

(** The key an AUTOINCREMENT table gives its next row: one more than the
    largest key it ever held. *)
Definition nextKey (seq : Z) (keys : list Z) : Z :=
  (fold_right Z.max seq keys + 1)%Z.

(** Go's [int] addition. *)
Definition wrapInt (z : Z) : Z :=
  ((z + 9223372036854775808) mod 18446744073709551616 - 9223372036854775808)%Z.

(** [column = ?] on a TEXT column: false on NULL, else equality of bytes. *)
Definition sqlEq (column : option string) (arg : string) : bool :=
  match column with
  | Some v => String.eqb v arg
  | None => false
  end.

(** [category LIKE '%Show']: LIKE ignores the case of ASCII letters. *)
Definition likeShow (category : string) : bool :=
  Strings.HasSuffix (Strings.ToLowerASCII category) "show".

(** The WHERE clause of the movie branch:
    title = ? AND year = ? AND category NOT LIKE '%Show' *)
Definition selectsMovie (record : MediaRecord) (row : MediaRow) : bool :=
  sqlEq (title row) (Title record) &&
  sqlEq (year row) (Year record) &&
  match category row with
  | Some c => negb (likeShow c)
  | None => false
  end.

(** The WHERE clause of the series branch:
    title = ? AND year = ? AND season = ? AND category LIKE '%Show' *)
Definition selectsShow (record : MediaRecord) (row : MediaRow) : bool :=
  sqlEq (title row) (Title record) &&
  sqlEq (year row) (Year record) &&
  sqlEq (season row) (Season record) &&
  match category row with
  | Some c => likeShow c
  | None => false
  end.

(** The SELECT of InsertOrUpdateMediaRecord. *)
Definition lookupMediaRow (record : MediaRecord) (db : DB) : option MediaRow :=
  if String.eqb (Season record) ""
  then find (selectsMovie record) (media_records db)
  else find (selectsShow record) (media_records db).

(** The row written by the INSERT of InsertOrUpdateMediaRecord. *)
Definition insertedRow (newID now : Z) (record : MediaRecord) : MediaRow :=
  let version := if (Version record >? 0)%Z then Version record else 1%Z in
  let isComplete := if IsComplete record then IsComplete record else false in
  {| id := newID;
     file_name := Some (FileName record);
     title := Some (Title record);
     original_title := Some (OriginalTitle record);
     year := Some (Year record);
     country := Some (Country record);
     genres := Some (Genres record);
     actors := Some (Actors record);
     category := Some (Category record);
     source_path := Some (SourcePath record);
     target_path := Some (TargetPath record);
     processed_at := Some now;
     updated_at := Some now;
     runtime := Some (Runtime record);
     plot := Some (Plot record);
     imdb_id := Some (IMDbID record);
     tmdb_id := Some (TMDbID record);
     season := Some (Season record);
     episode := Some (Episode record);
     director := Some (Director record);
     writer := Some (Writer record);
     rating := Some (Rating record);
     resolution := Some (Resolution record);
     version := Some version;
     is_complete := Some isComplete |}.

(** The effect of the UPDATE of InsertOrUpdateMediaRecord on a row it
    addresses: title, year, season and processed_at stay. *)
Definition updatedRow (now existingVersion : Z) (record : MediaRecord)
    (row : MediaRow) : MediaRow :=
  {| id := id row;
     file_name := Some (FileName record);
     title := title row;
     original_title := Some (OriginalTitle record);
     year := year row;
     country := Some (Country record);
     genres := Some (Genres record);
     actors := Some (Actors record);
     category := Some (Category record);
     source_path := Some (SourcePath record);
     target_path := Some (TargetPath record);
     processed_at := processed_at row;
     updated_at := Some now;
     runtime := Some (Runtime record);
     plot := Some (Plot record);
     imdb_id := Some (IMDbID record);
     tmdb_id := Some (TMDbID record);
     season := season row;
     episode := Some (Episode record);
     director := Some (Director record);
     writer := Some (Writer record);
     rating := Some (Rating record);
     resolution := Some (Resolution record);
     version := Some (wrapInt (existingVersion + 1));
     is_complete := Some (IsComplete record) |}.

Definition setMediaRecords (rows : list MediaRow) (seq : Z) (db : DB) : DB :=
  {| media_records := rows; media_seq := seq;
     missing_seasons := missing_seasons db; seasons_seq := seasons_seq db;
     missing_episodes := missing_episodes db; episodes_seq := episodes_seq db |}.

(** InsertOrUpdateMediaRecord 插入或更新媒体记录; [now] is the value of
    [time.Now()] in the branch taken. *)
Definition InsertOrUpdateMediaRecord (now : Z) (record : MediaRecord) (db : DB)
  : Result unit * DB :=
  match lookupMediaRow record db with
  | None =>
      (* sql.ErrNoRows: 记录不存在，执行插入 *)
      let newID := nextKey (media_seq db) (map id (media_records db)) in
      (Ok tt,
       setMediaRecords (media_records db ++ [insertedRow newID now record])%list
                       newID db)
  | Some existing =>
      match version existing with
      | None => (Err ErrScanNull, db)
      | Some existingVersion =>
          (* 记录存在，执行更新 ... WHERE id = ? *)
          let existingID := id existing in
          (Ok tt,
           setMediaRecords
             (map (fun row =>
                     if (id row =? existingID)%Z
                     then updatedRow now existingVersion record row
                     else row)
                  (media_records db))
             (media_seq db) db)
      end
  end.

(** The body of the [rows.Next()] loop of GetMediaRecords: the row is
    scanned into pointers, except id and processed_at, and NULL becomes the
    zero value, the current time (updated_at), 1 (version) or false. *)
Definition scanMediaRow (now : Z) (row : MediaRow) : Result MediaRecord :=
  match processed_at row with
  | None => Err ErrScanNull
  | Some processedAt =>
      Ok {| ID := id row;
            FileName := match file_name row with Some v => v | None => "" end;
            Title := match title row with Some v => v | None => "" end;
            OriginalTitle := match original_title row with Some v => v | None => "" end;
            Year := match year row with Some v => v | None => "" end;
            Country := match country row with Some v => v | None => "" end;
            Genres := match genres row with Some v => v | None => "" end;
            Actors := match actors row with Some v => v | None => "" end;
            Category := match category row with Some v => v | None => "" end;
            SourcePath := match source_path row with Some v => v | None => [] end;
            TargetPath := match target_path row with Some v => v | None => [] end;
            ProcessedAt := processedAt;
            UpdatedAt := match updated_at row with Some t => t | None => now end;
            Runtime := match runtime row with Some v => v | None => "" end;
            Plot := match plot row with Some v => v | None => "" end;
            IMDbID := match imdb_id row with Some v => v | None => "" end;
            TMDbID := match tmdb_id row with Some v => v | None => "" end;
            Season := match season row with Some v => v | None => "" end;
            Episode := match episode row with Some v => v | None => "" end;
            Director := match director row with Some v => v | None => "" end;
            Writer := match writer row with Some v => v | None => "" end;
            Rating := match rating row with Some v => v | None => "" end;
            Resolution := match resolution row with Some v => v | None => "" end;
            Version := match version row with Some v => v | None => 1%Z end;
            IsComplete := match is_complete row with Some v => v | None => false end |}
  end.

(** InsertMissingSeason 插入缺失季记录: the row is written only when the SELECT
    for a row of the same title, tmdb_id and season with status 'missing'
    comes back empty.  [now1] and [now2] are the two readings of the clock
    in the INSERT. *)
Definition selectsMissingSeason (record row : MissingSeason) : bool :=
  String.eqb (sTitle row) (sTitle record) &&
  String.eqb (sTMDbID row) (sTMDbID record) &&
  (sSeason row =? sSeason record)%Z &&
  String.eqb (sStatus row) "missing".

Definition InsertMissingSeason (now1 now2 : Z) (record : MissingSeason)
    (db : DB) : Result unit * DB :=
  match find (selectsMissingSeason record) (missing_seasons db) with
  | None =>
      let newID := nextKey (seasons_seq db) (map sID (missing_seasons db)) in
      (Ok tt,
       {| media_records := media_records db; media_seq := media_seq db;
          missing_seasons :=
            (missing_seasons db ++
             [{| sID := newID; sMediaID := sMediaID record;
                 sTitle := sTitle record;
                 sOriginalTitle := sOriginalTitle record;
                 sTMDbID := sTMDbID record; sSeason := sSeason record;
                 sDetectedAt := now1; sUpdatedAt := now2;
                 sStatus := "missing" |}])%list;
          seasons_seq := newID;
          missing_episodes := missing_episodes db;
          episodes_seq := episodes_seq db |})
  | Some _ => (Ok tt, db)
  end.

(** InsertMissingEpisode 插入缺失剧集记录 *)
Definition selectsMissingEpisode (record row : MissingEpisode) : bool :=
  String.eqb (eTitle row) (eTitle record) &&
  String.eqb (eTMDbID row) (eTMDbID record) &&
  (eSeason row =? eSeason record)%Z &&
  (eEpisode row =? eEpisode record)%Z &&
  String.eqb (eStatus row) "missing".

Definition InsertMissingEpisode (now1 now2 : Z) (record : MissingEpisode)
    (db : DB) : Result unit * DB :=
  match find (selectsMissingEpisode record) (missing_episodes db) with
  | None =>
      let newID := nextKey (episodes_seq db) (map eID (missing_episodes db)) in
      (Ok tt,
       {| media_records := media_records db; media_seq := media_seq db;
          missing_seasons := missing_seasons db;
          seasons_seq := seasons_seq db;
          missing_episodes :=
            (missing_episodes db ++
             [{| eID := newID; eMediaID := eMediaID record;
                 eTitle := eTitle record;
                 eOriginalTitle := eOriginalTitle record;
                 eTMDbID := eTMDbID record; eSeason := eSeason record;
                 eEpisode := eEpisode record;
                 eDetectedAt := now1; eUpdatedAt := now2;
                 eStatus := "missing" |}])%list;
          episodes_seq := newID |})
  | Some _ => (Ok tt, db)
  end.

(** The rows a query with [WHERE status = 'missing'] sees. *)
Definition missingSeasonRows (db : DB) : list MissingSeason :=
  filter (fun row => String.eqb (sStatus row) "missing") (missing_seasons db).

Definition missingEpisodeRows (db : DB) : list MissingEpisode :=
  filter (fun row => String.eqb (eStatus row) "missing") (missing_episodes db).

(** ** Metadata files and the environment of a run *)

(** Actor表示演员信息 *)
Record Actor : Type := { Name : string; Role : string }.

(** NFO表示NFO文件的结构; [nXMLName] is the local name of the root tag. *)
Record NFO : Type := {
  nXMLName       : string;
  nTitle         : string;
  nOriginalTitle : string;
  nYear          : string;
  nCountry       : list string;
  nGenres        : list string;
  nActors        : list Actor;
  nRuntime       : string;
  nPlot          : string;
  nIMDbID        : string;
  nTMDbID        : string;
  nSeason        : string;
  nEpisode       : string;
  nDirector      : string;
  nWriter        : string;
  nRating        : string
}.

(** IsTVShow判断是否为电视剧（根据XML根标签） *)
Definition IsTVShow (n : NFO) : bool := String.eqb (nXMLName n) "tvshow".

(** The fields of Config that the classifier reads. *)
Record Config : Type := {
  CloudDir   : Path;
  TMDBApiKey : string
}.

(** The filter of the query functions: the keys of the Go map that hold a
    value of the expected type. *)
Record Filter : Type := {
  fTitle      : option string;
  fIsComplete : option bool;
  fCategory   : option string;
  fTMDbID     : option string;
  fSeason     : option Z
}.

Definition noFilter : Filter :=
  {| fTitle := None; fIsComplete := None; fCategory := None;
     fTMDbID := None; fSeason := None |}.

(** What a run takes from outside the program.  The readings of the clock
    and the answers of the Metadata Service are indexed by a logical time,
    which advances past every point at which the program may observe the
    outside, so that two calls may get different answers. *)
Record Env : Type := {
  ToLower  : string -> string;              (* strings.ToLower *)
  MatchHan : string -> bool;                (* regexp [\p{Han}], MatchString *)
  xmlDecode : string -> Result NFO;         (* the decoding in ParseNFO *)
  xdev : Path -> Path -> bool;              (* rename would cross devices *)
  sqlLike : string -> string -> bool;       (* SQLite: text LIKE pattern *)
  Now : nat -> Z;                           (* time.Now *)
  GetProductionCountries : nat -> string -> bool -> Result (list string);
  GetTVShowSeasons : nat -> string -> Result Z;
  cfg : Config                              (* config.LoadConfig *)
}.

(** The messages of package logging, by the call that writes them. *)
Inductive LogMsg : Type :=
| LogMultipleNFO (nfoCount : Z)
| LogUnresolved
| LogTMDBCountriesFailed
| LogTMDBCountries (countries : list string)
| LogNoCountry
| LogProjectDir
| LogTitleNotChinese (title : string)
| LogGenreNotChinese (genre : string)
| LogExistingRecordFailed
| LogHasNewSeasonsFailed
| LogMergeNewSeasons (seasonsToAdd : list Z)
| LogMoveDirFailed
| LogMoveFileFailed
| LogMerged (name : string)
| LogMoveSeasonFailed
| LogSeasonMerged (seasonNum : Z)
| LogSeasonExists (seasonNum : Z)
| LogEntryExists (name : string)
| LogRemoveSourceFailed
| LogSourceRemoved
| LogMergeDone
| LogNoNewSeasons
| LogTargetExists
| LogMoved
| LogRecordFailed
| LogDetectFailed (e : GoError)
| LogReportFailed
| LogMissingSeasonFailed
| LogCompletenessFailed
| LogReportUnavailable
| LogReport (totalSeasons : Z) (existingSeasons : list Z)
            (isComplete : bool) (missingSeasons : list Z).

(** The state a run works on: the directory tree, the store, the log
    written so far and the logical time. *)
Record State : Type := {
  fs    : Node;
  db    : DB;
  log   : list LogMsg;
  world : nat
}.

Definition logf (m : LogMsg) (st : State) : State :=
  {| fs := fs st; db := db st; log := (log st ++ [m])%list; world := world st |}.

Definition setFS (fs' : Node) (st : State) : State :=
  {| fs := fs'; db := db st; log := log st; world := world st |}.

Definition setDB (db' : DB) (st : State) : State :=
  {| fs := fs st; db := db'; log := log st; world := world st |}.

Definition tick (st : State) : State :=
  {| fs := fs st; db := db st; log := log st; world := S (world st) |}.

(** The assignment [mediaRecord.IsComplete = isComplete]. *)
Definition setIsComplete (isComplete : bool) (r : MediaRecord) : MediaRecord :=
  {| ID := ID r;
     FileName := FileName r;
     Title := Title r;
     OriginalTitle := OriginalTitle r;
     Year := Year r;
     Country := Country r;
     Genres := Genres r;
     Actors := Actors r;
     Category := Category r;
     SourcePath := SourcePath r;
     TargetPath := TargetPath r;
     ProcessedAt := ProcessedAt r;
     UpdatedAt := UpdatedAt r;
     Runtime := Runtime r;
     Plot := Plot r;
     IMDbID := IMDbID r;
     TMDbID := TMDbID r;
     Season := Season r;
     Episode := Episode r;
     Director := Director r;
     Writer := Writer r;
     Rating := Rating r;
     Resolution := Resolution r;
     Version := Version r;
     IsComplete := isComplete |}.

(** ** Resolution tags in file names *)

Module Resolution.

Import Regexp.

(** The letter k under [(?i)]: k, K and the Kelvin sign U+212A
    (bytes E2 84 AA). *)
Definition eatK (s : string) : option string :=
  match eatLetter "k" s with
  | Some rest => Some rest
  | None =>
      match s with
      | String c1 (String c2 (String c3 rest)) =>
          if ((nat_of_ascii c1 =? 226) && (nat_of_ascii c2 =? 132) &&
              (nat_of_ascii c3 =? 170))%nat
          then Some rest else None
      | _ => None
      end
  end.

(** Exactly [n] digits. *)
Fixpoint eatDigits (n : nat) (s : string) : option string :=
  match n with
  | O => Some s
  | S n' =>
      match s with
      | String c rest => if isDigit c then eatDigits n' rest else None
      | EmptyString => None
      end
  end.

(** The text between the start of [s] and the start of its suffix [rest]. *)
Definition consumed (s rest : string) : string :=
  substring 0 (String.length s - String.length rest) s.

(** [(\d{3,4}x)] at the start of [s], for the letter matcher [eatX]: four
    digits are tried before three. *)
Definition matchDigitsLetterAt (eatX : string -> option string) (s : string)
  : option string :=
  match bind (eatDigits 4 s) eatX with
  | Some rest => Some (consumed s rest)
  | None =>
      match bind (eatDigits 3 s) eatX with
      | Some rest => Some (consumed s rest)
      | None => None
      end
  end.

(** [(4k|8k)] at the start of [s]. *)
Definition matchKAt (s : string) : option string :=
  match bind (eatLiteral "4" s) eatK with
  | Some rest => Some (consumed s rest)
  | None =>
      match bind (eatLiteral "8" s) eatK with
      | Some rest => Some (consumed s rest)
      | None => None
      end
  end.

(** [strings.ToUpper] on a capture of these patterns: digits, ASCII letters
    and the Kelvin sign, which is its own upper case. *)
Definition upperByte (c : ascii) : ascii :=
  let n := nat_of_ascii c in
  if ((97 <=? n) && (n <=? 122))%nat then ascii_of_nat (n - 32) else c.

Fixpoint ToUpperASCII (s : string) : string :=
  match s with
  | EmptyString => EmptyString
  | String c s' => String (upperByte c) (ToUpperASCII s')
  end.

End Resolution.

(** extractResolutionFromFileName 从文件名中提取分辨率信息 *)
Definition resolutionPatterns : list (string -> option string) :=
  [ Resolution.matchDigitsLetterAt (Regexp.eatLetter "p");  (* (?i)(\d{3,4}p) *)
    Resolution.matchDigitsLetterAt (Regexp.eatLetter "i");  (* (?i)(\d{3,4}i) *)
    Resolution.matchKAt ].                                  (* (?i)(4k|8k) *)

Fixpoint resolutionFromPatterns (patterns : list (string -> option string))
    (fileName : string) : string :=
  match patterns with
  | [] => ""
  | pattern :: rest =>
      match Regexp.findSubmatch pattern fileName with
      | Some capture => Resolution.ToUpperASCII capture
      | None => resolutionFromPatterns rest fileName
      end
  end.

Definition extractResolutionFromFileName (fileName : string) : string :=
  resolutionFromPatterns resolutionPatterns fileName.

(** [filepath.Ext] of a file name: the suffix from its last dot on. *)
Fixpoint Ext (name : string) : string :=
  match name with
  | EmptyString => ""
  | String c rest =>
      match Ext rest with
      | EmptyString => if Ascii.eqb c "." then name else ""
      | ext => ext
      end
  end.

(** formatActors格式化演员列表为字符串 *)
Definition formatActors (actors : list Actor) : string :=
  Strings.Join (map Name actors) ", ".

(** ** Seasons on disk *)

(** The loop shared by GetExistingSeasons and GetNewSeasons: the season
    numbers of the subdirectories whose name carries one. *)
Fixpoint seasonsOfEntries (entries : list (string * bool)) : list Z :=
  match entries with
  | [] => []
  | (name, isDir) :: rest =>
      if isDir then
        let seasonNumber := GetSeasonNumberFromDirName name in
        if (seasonNumber >? 0)%Z then seasonNumber :: seasonsOfEntries rest
        else seasonsOfEntries rest
      else seasonsOfEntries rest
  end.

(** GetExistingSeasons 获取目标目录中已存在的季数 *)
Definition GetExistingSeasons (fs : Node) (targetMediaPath : Path)
  : Result (list Z) :=
  let notExist :=
    match Stat fs targetMediaPath with
    | Err e => IsNotExist e
    | Ok _ => false
    end in
  if notExist then Ok []
  else
    match ReadDir fs targetMediaPath with
    | Err _ => Err ErrReadTargetDir
    | Ok entries => Ok (seasonsOfEntries entries)
    end.

(** GetNewSeasons 获取源目录中包含的季数 *)
Definition GetNewSeasons (fs : Node) (mediaDir : Path) : Result (list Z) :=
  match ReadDir fs mediaDir with
  | Err _ => Err ErrReadSourceDir
  | Ok entries =>
      let newSeasons := seasonsOfEntries entries in
      match newSeasons with
      | [] =>
          (* 如果源目录下没有季数子目录，检查当前目录的季数 *)
          let seasonNumber := GetSeasonNumberFromDirName (Base mediaDir) in
          if (seasonNumber >? 0)%Z then Ok [seasonNumber] else Ok []
      | _ => Ok newSeasons
      end
  end.

(** HasNewSeasons 检查源目录中是否包含目标目录中不存在的季数 *)
Definition HasNewSeasons (fs : Node) (mediaDir targetMediaPath : Path)
  : Result (bool * list Z) :=
  match GetExistingSeasons fs targetMediaPath with
  | Err e => Err e
  | Ok existingSeasons =>
      match GetNewSeasons fs mediaDir with
      | Err e => Err e
      | Ok newSeasons =>
          let seasonsToAdd :=
            filter (fun newSeason =>
                      negb (containsSeason existingSeasons newSeason))
                   newSeasons in
          Ok (negb (Nat.eqb (List.length seasonsToAdd) 0), seasonsToAdd)
      end
  end.

(** The numbers 1, 2, ..., n of [for i := 1; i <= n; i++]. *)
Definition seasonRange (n : Z) : list Z :=
  map Z.of_nat (seq 1 (Z.to_nat n)).

(** isProjectDirectory检查目录是否为项目目录 *)
Definition projectFiles : list string :=
  [ "go.mod"; "main.go"; "go.sum";
    "CMakeLists.txt"; "Makefile";
    "package.json";
    "requirements.txt";
    "README.md"; "README.txt";
    ".git" ].

Definition isProjectDirectory (fs : Node) (dirPath : Path) : bool :=
  existsb (fun file =>
             match Stat fs (Join dirPath file) with
             | Ok _ => true
             | Err _ => false
             end)
          projectFiles.

(** ** The classifier *)

Section Program.

Variable env : Env.

(** IsSimplifiedChinese检查字符串是否包含简体中文: at least one Han character. *)
Definition IsSimplifiedChinese (s : string) : bool := MatchHan env s.

(** ParseNFO解析指定路径的NFO文件 *)
Definition ParseNFO (fs : Node) (filePath : Path) : Result NFO :=
  match Stat fs filePath with
  | Ok (File data) => xmlDecode env data
  | Ok (Dir _) => Err (ErrOs EISDIR)
  | Err e => Err e
  end.

(** isNFOResolved 检查NFO文件是否包含足够信息（是否已正确刮削） *)
Definition isNFOResolved (nfo : NFO) : bool :=
  if String.eqb (nTitle nfo) "" then false
  else if negb (Nat.eqb (List.length (nGenres nfo)) 0) ||
          negb (Nat.eqb (List.length (nCountry nfo)) 0) ||
          negb (String.eqb (nIMDbID nfo) "") ||
          negb (String.eqb (nTMDbID nfo) "") ||
          negb (String.eqb (nPlot nfo) "") ||
          negb (Nat.eqb (List.length (nActors nfo)) 0)
  then true
  else if IsSimplifiedChinese (nTitle nfo) && negb (String.eqb (nYear nfo) "")
  then true
  else false.

(** The WHERE clause that GetMediaRecords builds from its filter. *)
Definition mediaRowPasses (filter : Filter) (row : MediaRow) : bool :=
  match fTitle filter with
  | Some t =>
      if String.eqb t "" then true
      else match title row with
           | Some v => sqlLike env v ("%" ++ t ++ "%")
           | None => false
           end
  | None => true
  end &&
  match fIsComplete filter with
  | Some isComplete =>
      match is_complete row with
      | Some v => Bool.eqb v isComplete
      | None => false
      end
  | None => true
  end &&
  match fCategory filter with
  | Some c =>
      if String.eqb c "" then true
      else match category row with
           | Some v => sqlLike env v ("%" ++ c ++ "%")
           | None => false
           end
  | None => true
  end.

(** The [rows.Next()] loop of GetMediaRecords; [w] is the logical time, and
    a row whose updated_at is NULL reads the clock. *)
Fixpoint scanMediaRows (w : nat) (rows : list MediaRow)
  : Result (list MediaRecord) * nat :=
  match rows with
  | [] => (Ok [], w)
  | row :: rest =>
      match scanMediaRow (Now env w) row with
      | Err e => (Err e, w)
      | Ok record =>
          let w1 := match updated_at row with Some _ => w | None => S w end in
          match scanMediaRows w1 rest with
          | (Ok records, w2) => (Ok (record :: records), w2)
          | (Err e, w2) => (Err e, w2)
          end
      end
  end.

(** GetMediaRecords 获取媒体记录列表 *)
Definition GetMediaRecords (w : nat) (filter : Filter) (d : DB)
  : Result (list MediaRecord) * nat :=
  scanMediaRows w (List.filter (mediaRowPasses filter) (media_records d)).

(** getExistingTVShowRecord 根据标题和年份获取现有电视剧记录 *)
Definition getExistingTVShowRecord (title year : string) (st : State)
  : Result (option MediaRecord) * State :=
  match GetMediaRecords (world st) noFilter (db st) with
  | (Err e, w) =>
      (Err e, {| fs := fs st; db := db st; log := log st; world := w |})
  | (Ok mediaRecords, w) =>
      (Ok (find (fun record =>
                   Strings.Contains (Category record) "Show" &&
                   String.eqb (Title record) title &&
                   String.eqb (Year record) year)
                mediaRecords),
       {| fs := fs st; db := db st; log := log st; world := w |})
  end.

(** checkSeasonCompleteness 检查剧集季数是否完整: complete, the missing seasons
    and the total. *)
Definition checkSeasonCompleteness (tmdbID : string)
    (existingSeasons : list Z) (st : State)
  : Result (bool * list Z * Z) * State :=
  match GetTVShowSeasons env (world st) tmdbID with
  | Err e => (Err e, tick st)
  | Ok totalSeasons =>
      let missingSeasons :=
        filter (fun i => negb (containsSeason existingSeasons i))
               (seasonRange totalSeasons) in
      (Ok (Nat.eqb (List.length missingSeasons) 0, missingSeasons, totalSeasons),
       tick st)
  end.

(** ReportSeasonStatus 报告剧集季数状态 *)
Definition ReportSeasonStatus (title tmdbID : string) (targetMediaPath : Path)
    (st : State) : Result unit * State :=
  match GetExistingSeasons (fs st) targetMediaPath with
  | Err e => (Err e, st)
  | Ok existingSeasons =>
      match checkSeasonCompleteness tmdbID existingSeasons st with
      | (Err _, st1) => (Ok tt, logf LogReportUnavailable st1)
      | (Ok (isComplete, missingSeasons, totalSeasons), st1) =>
          (Ok tt,
           logf (LogReport totalSeasons existingSeasons isComplete
                           missingSeasons) st1)
      end
  end.

(** The record [&database.MissingSeason{...}] built for season [i]. *)
Definition missingSeasonOf (mediaRecord : MediaRecord) (i : Z) : MissingSeason :=
  {| sID := 0; sMediaID := ID mediaRecord; sTitle := Title mediaRecord;
     sOriginalTitle := OriginalTitle mediaRecord;
     sTMDbID := TMDbID mediaRecord; sSeason := i;
     sDetectedAt := 0; sUpdatedAt := 0; sStatus := "" |}.

(** The body of the loop [for i := 1; i <= totalSeasons; i++] of
    DetectMissingSeasonsAndEpisodes. *)
Definition recordIfMissing (mediaRecord : MediaRecord)
    (existingSeasons : list Z) (i : Z) (st : State) : State :=
  if containsSeason existingSeasons i then st
  else
    let missingSeason := missingSeasonOf mediaRecord i in
    let now1 := Now env (world st) in
    let now2 := Now env (S (world st)) in
    match InsertMissingSeason now1 now2 missingSeason (db st) with
    | (Ok _, db') => setDB db' (tick (tick st))
    | (Err _, db') => logf LogMissingSeasonFailed (setDB db' (tick (tick st)))
    end.

(** DetectMissingSeasonsAndEpisodes 检测缺失的季和剧集（公共函数）.  The record is
    passed by pointer and its IsComplete is assigned, so the record comes
    back with the result. *)
Definition DetectMissingSeasonsAndEpisodes (mediaRecord : MediaRecord)
    (st : State) : Result unit * MediaRecord * State :=
  if String.eqb (TMDbID mediaRecord) "" then (Ok tt, mediaRecord, st)
  else
    match GetTVShowSeasons env (world st) (TMDbID mediaRecord) with
    | Err _ => (Err ErrTotalSeasons, mediaRecord, tick st)
    | Ok totalSeasons =>
        let st1 := tick st in
        match GetExistingSeasons (fs st1) (TargetPath mediaRecord) with
        | Err _ => (Err ErrExistingSeasons, mediaRecord, st1)
        | Ok existingSeasons =>
            let st2 :=
              fold_left (fun st i => recordIfMissing mediaRecord existingSeasons i st)
                        (seasonRange totalSeasons) st1 in
            let isComplete :=
              (Z.of_nat (List.length existingSeasons) =? totalSeasons)%Z in
            let mediaRecord' := setIsComplete isComplete mediaRecord in
            match InsertOrUpdateMediaRecord (Now env (world st2)) mediaRecord'
                                            (db st2) with
            | (Ok _, db') => (Ok tt, mediaRecord', setDB db' (tick st2))
            | (Err _, db') =>
                (Ok tt, mediaRecord',
                 logf LogCompletenessFailed (setDB db' (tick st2)))
            end
        end
    end.

(** The body of the loop over the entries of the source directory in the
    merge branch of ClassifyAndMove. *)
Definition mergeEntry (mediaDir targetMediaPath : Path)
    (entry : string * bool) (st : State) : State :=
  let (name, isDir) := entry in
  let srcPath := Join mediaDir name in
  let dstPath := Join targetMediaPath name in
  let dstNotExist :=
    match Stat (fs st) dstPath with
    | Err e => IsNotExist e
    | Ok _ => false
    end in
  if dstNotExist then
    (* 目标路径不存在，直接移动 *)
    if isDir then
      match MoveDirectory (xdev env) (fs st) srcPath dstPath with
      | (Err _, fs') => logf LogMoveDirFailed (setFS fs' st)
      | (Ok _, fs') => logf (LogMerged name) (setFS fs' st)
      end
    else
      match Rename (xdev env) (fs st) srcPath dstPath with
      | Err _ => logf LogMoveFileFailed st
      | Ok fs' => logf (LogMerged name) (setFS fs' st)
      end
  else
    (* 检查是否为季数目录，且季数不在现有目录中 *)
    let seasonNum := GetSeasonNumberFromDirName name in
    if (seasonNum >? 0)%Z then
      let existingSeasons :=
        match GetExistingSeasons (fs st) targetMediaPath with
        | Ok seasons => seasons
        | Err _ => []
        end in
      if negb (containsSeason existingSeasons seasonNum) then
        match MoveDirectory (xdev env) (fs st) srcPath dstPath with
        | (Err _, fs') => logf LogMoveSeasonFailed (setFS fs' st)
        | (Ok _, fs') => logf (LogSeasonMerged seasonNum) (setFS fs' st)
        end
      else logf (LogSeasonExists seasonNum) st
    else logf (LogEntryExists name) st.

(** Lines 231 to 292: the merge of the source into a destination that has
    the series already. *)
Definition mergeIntoTarget (mediaDir targetMediaPath : Path)
    (seasonsToAdd : list Z) (st : State) : Result unit * State :=
  let st1 := logf (LogMergeNewSeasons seasonsToAdd) st in
  match ReadDir (fs st1) mediaDir with
  | Err _ => (Err ErrReadSourceDir, st1)
  | Ok entries =>
      let st2 :=
        fold_left (fun st entry => mergeEntry mediaDir targetMediaPath entry st)
                  entries st1 in
      (* 删除源目录（如果为空） *)
      let st3 :=
        match RemoveAll (fs st2) mediaDir with
        | Err _ => logf LogRemoveSourceFailed st2
        | Ok fs' => logf LogSourceRemoved (setFS fs' st2)
        end in
      (Ok tt, logf LogMergeDone st3)
  end.

(** Lines 312 to 331: the catalog record is written, then completeness is
    detected and reported for a series with a TMDb id. *)
Definition recordAndDetect (nfo : NFO) (isTVShow : bool)
    (targetMediaPath : Path) (mediaRecord : MediaRecord) (st : State)
  : Result unit * State :=
  let st1 :=
    match InsertOrUpdateMediaRecord (Now env (world st)) mediaRecord (db st) with
    | (Ok _, db') => setDB db' (tick st)
    | (Err _, db') => logf LogRecordFailed (setDB db' (tick st))
    end in
  let st2 :=
    if isTVShow && negb (String.eqb (nTMDbID nfo) "") then
      match DetectMissingSeasonsAndEpisodes mediaRecord st1 with
      | (Ok _, _, st') => st'
      | (Err e, _, st') => logf (LogDetectFailed e) st'
      end
    else st1 in
  let st3 :=
    if isTVShow && negb (String.eqb (nTMDbID nfo) "") then
      match ReportSeasonStatus (nTitle nfo) (nTMDbID nfo) targetMediaPath st2 with
      | (Ok _, st') => st'
      | (Err _, st') => logf LogReportFailed st'
      end
    else st2 in
  (Ok tt, st3).

(** Lines 97 to 111: the countries of the NFO file, or those of TMDB when
    the file has a TMDb id, an API key is configured and the lookup
    succeeds. *)
Definition resolveCountries (nfo : NFO) (isTVShow : bool) (st : State)
  : list string * State :=
  if negb (String.eqb (nTMDbID nfo) "") then
    if negb (String.eqb (TMDBApiKey (cfg env)) "") then
      match GetProductionCountries env (world st) (nTMDbID nfo) isTVShow with
      | Err _ => (nCountry nfo, logf LogTMDBCountriesFailed (tick st))
      | Ok tmdbCountries =>
          (tmdbCountries, logf (LogTMDBCountries tmdbCountries) (tick st))
      end
    else (nCountry nfo, st)
  else (nCountry nfo, st).

(** The number of entries of the media directory that are files with the
    extension .nfo, in any case. *)
Definition countNFO (entries : list (string * bool)) : Z :=
  Z.of_nat
    (List.length
       (filter (fun entry =>
                  negb (snd entry) &&
                  String.eqb (ToLower env (Ext (fst entry))) ".nfo")
               entries)).

(** Lines 158 to 214: the record to write.  A series takes over the stored
    record of its title and year when there is one; [now] is the reading of
    the clock for a new record. *)
Definition newMediaRecord (nfoPath : Path) (nfo : NFO)
    (countries : list string) (category : string)
    (mediaDir targetMediaPath : Path) (resolution : string) (now : Z)
  : MediaRecord :=
  {| ID := 0%Z;
     FileName := Base nfoPath;
     Title := nTitle nfo;
     OriginalTitle := nOriginalTitle nfo;
     Year := nYear nfo;
     Country := Strings.Join countries ", ";
     Genres := Strings.Join (nGenres nfo) ", ";
     Actors := formatActors (nActors nfo);
     Category := category;
     SourcePath := mediaDir;
     TargetPath := targetMediaPath;
     ProcessedAt := now;
     UpdatedAt := 0%Z;
     Runtime := nRuntime nfo;
     Plot := nPlot nfo;
     IMDbID := nIMDbID nfo;
     TMDbID := nTMDbID nfo;
     Season := nSeason nfo;
     Episode := nEpisode nfo;
     Director := nDirector nfo;
     Writer := nWriter nfo;
     Rating := nRating nfo;
     Resolution := resolution;
     Version := 0%Z;
     IsComplete := false |}.

Definition refreshedMediaRecord (nfoPath : Path) (nfo : NFO)
    (countries : list string) (category : string)
    (targetMediaPath : Path) (resolution : string) (old : MediaRecord)
  : MediaRecord :=
  {| ID := ID old;
     FileName := Base nfoPath;
     Title := Title old;
     OriginalTitle := nOriginalTitle nfo;
     Year := nYear nfo;
     Country := Strings.Join countries ", ";
     Genres := Strings.Join (nGenres nfo) ", ";
     Actors := formatActors (nActors nfo);
     Category := category;
     SourcePath := SourcePath old;
     TargetPath := targetMediaPath;
     ProcessedAt := ProcessedAt old;
     UpdatedAt := UpdatedAt old;
     Runtime := nRuntime nfo;
     Plot := nPlot nfo;
     IMDbID := nIMDbID nfo;
     TMDbID := nTMDbID nfo;
     Season := Season old;
     Episode := Episode old;
     Director := nDirector nfo;
     Writer := nWriter nfo;
     Rating := nRating nfo;
     Resolution := resolution;
     Version := Version old;
     IsComplete := IsComplete old |}.

Definition prepareMediaRecord (nfoPath : Path) (nfo : NFO) (isTVShow : bool)
    (countries : list string) (category : string)
    (mediaDir targetMediaPath : Path) (st : State) : MediaRecord * State :=
  let resolution := extractResolutionFromFileName (Base nfoPath) in
  let (existing, st1) :=
    if isTVShow then
      match getExistingTVShowRecord (nTitle nfo) (nYear nfo) st with
      | (Err _, st') => (None, logf LogExistingRecordFailed st')
      | (Ok found, st') => (found, st')
      end
    else (None, st) in
  match existing with
  | None =>
      (newMediaRecord nfoPath nfo countries category mediaDir targetMediaPath
                      resolution (Now env (world st1)),
       tick st1)
  | Some old =>
      (refreshedMediaRecord nfoPath nfo countries category targetMediaPath
                            resolution old,
       st1)
  end.

(** Lines 144 to 331: the destination is made sure of, the record prepared,
    the directory moved or merged, and the result recorded. *)
Definition placeMedia (nfoPath : Path) (nfo : NFO) (isTVShow : bool)
    (countries : list string) (category : string) (st : State)
  : Result unit * State :=
  let mediaDir := DirOf nfoPath in
  let mediaName := Base mediaDir in
  let targetDir := Join (CloudDir (cfg env)) category in
  match MkdirAll (fs st) targetDir with
  | Err _ => (Err ErrMkdirTarget, st)
  | Ok fs1 =>
      let st1 := setFS fs1 st in
      let targetMediaPath := Join targetDir mediaName in
      let (mediaRecord, st2) :=
        prepareMediaRecord nfoPath nfo isTVShow countries category mediaDir
                           targetMediaPath st1 in
      match Stat (fs st2) targetMediaPath with
      | Ok _ =>
          (* 目标目录已存在同名文件夹 *)
          if isTVShow then
            match HasNewSeasons (fs st2) mediaDir targetMediaPath with
            | Err _ => (Ok tt, logf LogHasNewSeasonsFailed st2)
            | Ok (hasNew, seasonsToAdd) =>
                if hasNew then
                  match mergeIntoTarget mediaDir targetMediaPath seasonsToAdd
                                        st2 with
                  | (Err e, st3) => (Err e, st3)
                  | (Ok _, st3) =>
                      recordAndDetect nfo isTVShow targetMediaPath mediaRecord
                                      st3
                  end
                else (Ok tt, logf LogNoNewSeasons st2)
            end
          else (Ok tt, logf LogTargetExists st2)
      | Err _ =>
          (* 目标目录不存在，直接移动整个文件夹 *)
          match MoveDirectory (xdev env) (fs st2) mediaDir targetMediaPath with
          | (Err _, fs') => (Err ErrMoveMedia, setFS fs' st2)
          | (Ok _, fs') =>
              recordAndDetect nfo isTVShow targetMediaPath mediaRecord
                              (logf LogMoved (setFS fs' st2))
          end
      end
  end.

(** Lines 113 to 331: what ClassifyAndMove does once the countries are
    settled. *)
Definition classifyResolved (nfoPath : Path) (nfo : NFO) (isTVShow : bool)
    (countries : list string) (st : State) : Result unit * State :=
  let mediaDir := DirOf nfoPath in
  (* 检查国家信息是否为空，如果为空则跳过移动 *)
  match countries with
  | [] => (Ok tt, logf LogNoCountry st)
  | _ =>
      match DetermineCategory (ToLower env) countries isTVShow (nGenres nfo) with
      | Err _ => (Err ErrDetermineCategory, st)
      | Ok category =>
          if isProjectDirectory (fs st) mediaDir then
            (Ok tt, logf LogProjectDir st)
          else if negb (IsSimplifiedChinese (nTitle nfo)) then
            (Ok tt, logf (LogTitleNotChinese (nTitle nfo)) st)
          else
            match find (fun genre => negb (IsSimplifiedChinese genre))
                       (nGenres nfo) with
            | Some genre => (Ok tt, logf (LogGenreNotChinese genre) st)
            | None => placeMedia nfoPath nfo isTVShow countries category st
            end
      end
  end.

(** ClassifyAndMove根据国家/地区和类型分类并移动影片 *)
Definition ClassifyAndMove (nfoPath : Path) (st : State)
  : Result unit * State :=
  match ParseNFO (fs st) nfoPath with
  | Err _ => (Err ErrParseNFO, st)
  | Ok nfo =>
      let mediaDir := DirOf nfoPath in
      match ReadDir (fs st) mediaDir with
      | Err _ => (Err ErrReadDir, st)
      | Ok entries =>
          let nfoCount := countNFO entries in
          if (nfoCount >? 1)%Z then (Ok tt, logf (LogMultipleNFO nfoCount) st)
          else if negb (isNFOResolved nfo) then (Ok tt, logf LogUnresolved st)
          else
            let isTVShow := IsTVShow nfo in
            let (countries, st1) := resolveCountries nfo isTVShow st in
            classifyResolved nfoPath nfo isTVShow countries st1
      end
  end.

End Program.

(** ** An environment for evaluation *)

Module Unicode.

(** The code point of a three-byte or four-byte UTF-8 sequence at the start
    of [s], when the bytes that follow the lead byte are continuation
    bytes. *)
Definition isCont (c : ascii) : bool :=
  let n := nat_of_ascii c in ((128 <=? n) && (n <=? 191))%nat.

Definition decodeAt (s : string) : option Z :=
  match s with
  | String b0 (String b1 (String b2 rest)) =>
      let n0 := Z.of_nat (nat_of_ascii b0) in
      let n1 := Z.of_nat (nat_of_ascii b1) in
      let n2 := Z.of_nat (nat_of_ascii b2) in
      if ((224 <=? n0) && (n0 <=? 239))%Z && isCont b1 && isCont b2 then
        Some ((n0 - 224) * 4096 + (n1 - 128) * 64 + (n2 - 128))%Z
      else if ((240 <=? n0) && (n0 <=? 247))%Z && isCont b1 && isCont b2 then
        match rest with
        | String b3 _ =>
            let n3 := Z.of_nat (nat_of_ascii b3) in
            if isCont b3 then
              Some ((n0 - 240) * 262144 + (n1 - 128) * 4096 +
                    (n2 - 128) * 64 + (n3 - 128))%Z
            else None
        | EmptyString => None
        end
      else None
  | _ => None
  end.

Definition between (lo hi r : Z) : bool := ((lo <=? r) && (r <=? hi))%Z.

(** The ranges of the script Han in the table of Go's package unicode
    (Unicode 15). *)
Definition isHan (r : Z) : bool :=
  between 11904 11929 r || between 11931 12019 r || between 12032 12245 r ||
  (r =? 12293)%Z || (r =? 12295)%Z ||
  between 12321 12329 r || between 12344 12347 r ||
  between 13312 19903 r || between 19968 40959 r ||
  between 63744 64109 r || between 64112 64217 r ||
  between 94178 94179 r || between 94192 94193 r ||
  between 131072 173791 r || between 173824 177977 r ||
  between 177984 178205 r || between 178208 183969 r ||
  between 183984 191456 r || between 194560 195101 r ||
  between 196608 201546 r || between 201552 205743 r.

(** Some character of [s] is a Han character. *)
Fixpoint hasHan (s : string) : bool :=
  match decodeAt s with
  | Some r => isHan r
  | None => false
  end ||
  match s with
  | String _ rest => hasHan rest
  | EmptyString => false
  end.

End Unicode.

(** An environment whose strings hold ASCII and Han text: lower-casing is
    that of ASCII, LIKE is never asked, and the rest is given. *)
Definition evalEnv (decode : string -> Result NFO) (crossDevice : bool)
    (clock : nat -> Z)
    (countries : nat -> string -> bool -> Result (list string))
    (seasons : nat -> string -> Result Z) (config : Config) : Env :=
  {| ToLower := Strings.ToLowerASCII;
     MatchHan := Unicode.hasHan;
     xmlDecode := decode;
     xdev := fun _ _ => crossDevice;
     sqlLike := fun _ _ => false;
     Now := clock;
     GetProductionCountries := countries;
     GetTVShowSeasons := seasons;
     cfg := config |}.

(** ** Relations used to state the properties *)

(** Two records agree on every field other than ID, the two timestamps and
    the version. *)
Definition sameContent (a b : MediaRecord) : Prop :=
  FileName a = FileName b /\
  Title a = Title b /\
  OriginalTitle a = OriginalTitle b /\
  Year a = Year b /\
  Country a = Country b /\
  Genres a = Genres b /\
  Actors a = Actors b /\
  Category a = Category b /\
  SourcePath a = SourcePath b /\
  TargetPath a = TargetPath b /\
  Runtime a = Runtime b /\
  Plot a = Plot b /\
  IMDbID a = IMDbID b /\
  TMDbID a = TMDbID b /\
  Season a = Season b /\
  Episode a = Episode b /\
  Director a = Director b /\
  Writer a = Writer b /\
  Rating a = Rating b /\
  Resolution a = Resolution b /\
  IsComplete a = IsComplete b.

(** The natural key of a record among the records read from the store. *)
Definition sameKey (record candidate : MediaRecord) : bool :=
  String.eqb (Title candidate) (Title record) &&
  String.eqb (Year candidate) (Year record) &&
  String.eqb (Season candidate) (Season record).

(** The natural key of a missing season, and the keys of the rows that are
    'missing'. *)
Definition seasonKey (row : MissingSeason) : string * string * Z :=
  (sTitle row, sTMDbID row, sSeason row).

Definition episodeKey (row : MissingEpisode) : string * string * Z * Z :=
  (eTitle row, eTMDbID row, eSeason row, eEpisode row).

(** At most one row with status 'missing' for each natural key. *)
Definition uniqueMissing (d : DB) : Prop :=
  NoDup (map seasonKey (missingSeasonRows d)) /\
  NoDup (map episodeKey (missingEpisodeRows d)).

(** The keyword sets of the locale rule, and what it is for an entry of
    the countries to match one: the entry, in lower case, contains one of
    its keywords. *)
Definition japanKoreaKeywords : list string :=
  ["日本"; "日本国"; "japan"; "韩国"; "大韩民国"; "korea"; "south korea"].

Definition chinaKeywords : list string :=
  ["中国大陆"; "中国香港"; "香港特别行政区"; "中国台湾"; "台湾地区"; "香港";
   "台湾"; "中国"; "中华人民共和国"; "china"; "hong kong"; "taiwan"].

Definition matchesKeyword (ToLower : string -> string)
    (keywords : list string) (country : string) : bool :=
  existsb (fun keyword => Strings.Contains (ToLower country) keyword) keywords.

(** A record of the given content, for evaluation. *)
Definition sampleRecord (title year season category : string)
    (processedAt : Z) : MediaRecord :=
  {| ID := 0; FileName := "movie.nfo"; Title := title; OriginalTitle := "";
     Year := year; Country := ""; Genres := ""; Actors := "";
     Category := category; SourcePath := ["Temp"; title];
     TargetPath := ["Cloud"; category; title];
     ProcessedAt := processedAt; UpdatedAt := 0; Runtime := ""; Plot := "";
     IMDbID := ""; TMDbID := ""; Season := season; Episode := "";
     Director := ""; Writer := ""; Rating := ""; Resolution := "";
     Version := 0; IsComplete := false |}.

(** A series on disk under Cloud/CnShow with the seasons 1 and 3, its
    record, and an environment in which the Metadata Service counts three
    seasons. *)
Definition sampleSeriesRecord : MediaRecord :=
  {| ID := 0; FileName := "tvshow.nfo"; Title := "繁花"; OriginalTitle := "";
     Year := "2023"; Country := "中国大陆"; Genres := "剧情"; Actors := "";
     Category := CategoryCnShow; SourcePath := ["Temp"; "繁花"];
     TargetPath := ["Cloud"; "CnShow"; "繁花"];
     ProcessedAt := 0; UpdatedAt := 0; Runtime := ""; Plot := "";
     IMDbID := ""; TMDbID := "200001"; Season := "1"; Episode := "";
     Director := ""; Writer := ""; Rating := ""; Resolution := "";
     Version := 0; IsComplete := false |}.

Definition sampleSeriesTree : Node :=
  Dir [("Cloud",
        Dir [("CnShow",
              Dir [("繁花",
                    Dir [("Season 1", Dir [("E01.mkv", File "a")]);
                         ("Season 3", Dir [("E01.mkv", File "c")]);
                         ("tvshow.nfo", File "series")])])])].

Definition threeSeasonsEnv : Env :=
  evalEnv (fun _ => Err ErrParseNFO) false (fun w => Z.of_nat w)
          (fun _ _ _ => Err ErrTMDB) (fun _ _ => Ok 3%Z)
          {| CloudDir := ["Cloud"]; TMDBApiKey := "" |}.

Definition sampleSeriesState : State :=
  {| fs := sampleSeriesTree; db := emptyDB; log := []; world := 0 |}.

(** Metadata files for evaluation: the decoder knows these contents. *)
Definition sampleNFO (root title : string) (countries genres : list string)
    (tmdbID season : string) : NFO :=
  {| nXMLName := root; nTitle := title; nOriginalTitle := ""; nYear := "2023";
     nCountry := countries; nGenres := genres; nActors := [];
     nRuntime := ""; nPlot := ""; nIMDbID := ""; nTMDbID := tmdbID;
     nSeason := season; nEpisode := ""; nDirector := ""; nWriter := "";
     nRating := "" |}.

Definition sampleDecode (data : string) : Result NFO :=
  if String.eqb data "inception" then
    Ok (sampleNFO "movie" "Inception" ["美国"] ["科幻"] "" "")
  else if String.eqb data "fanhua" then
    Ok (sampleNFO "tvshow" "繁花" ["中国大陆"] ["剧情"] "200001" "")
  else if String.eqb data "earth" then
    Ok (sampleNFO "movie" "地球脉动" [] ["纪录片"] "" "")
  else Err ErrParseNFO.

Definition sampleConfig : Config :=
  {| CloudDir := ["Cloud"]; TMDBApiKey := "key" |}.

(** The Metadata Service is down. *)
Definition offlineEnv : Env :=
  evalEnv sampleDecode false (fun w => Z.of_nat w)
          (fun _ _ _ => Err ErrTMDB) (fun _ _ => Err ErrTMDB) sampleConfig.

Definition stateOf (tree : Node) : State :=
  {| fs := tree; db := emptyDB; log := []; world := 0 |}.

(** Temp holds a film with an English title, a series and a documentary
    whose file names no country. *)
Definition sampleTempTree : Node :=
  Dir [("Temp",
        Dir [("Inception", Dir [("movie.nfo", File "inception");
                                ("movie.mkv", File "video")]);
             ("繁花", Dir [("tvshow.nfo", File "fanhua");
                           ("Season 1", Dir [("E01.mkv", File "a")])]);
             ("地球脉动", Dir [("movie.nfo", File "earth")])]);
       ("Cloud", Dir [])].

(** The errors a run of ClassifyAndMove can return. *)
Definition runErrors : list GoError :=
  [ErrParseNFO; ErrReadDir; ErrDetermineCategory; ErrMkdirTarget;
   ErrReadSourceDir; ErrMoveMedia].

(** The series with all its three seasons in place, known to the catalog
    from a file without a season tag. *)
Definition seasonlessSeriesRecord : MediaRecord :=
  {| ID := 0; FileName := "tvshow.nfo"; Title := "繁花"; OriginalTitle := "";
     Year := "2023"; Country := "中国大陆"; Genres := "剧情"; Actors := "";
     Category := CategoryCnShow; SourcePath := ["Temp"; "繁花"];
     TargetPath := ["Cloud"; "CnShow"; "繁花"];
     ProcessedAt := 0; UpdatedAt := 0; Runtime := ""; Plot := "";
     IMDbID := ""; TMDbID := "200001"; Season := ""; Episode := "";
     Director := ""; Writer := ""; Rating := ""; Resolution := "";
     Version := 0; IsComplete := false |}.

Definition completeSeriesTree : Node :=
  Dir [("Cloud",
        Dir [("CnShow",
              Dir [("繁花",
                    Dir [("Season 1", Dir [("E01.mkv", File "a")]);
                         ("Season 2", Dir [("E01.mkv", File "b")]);
                         ("Season 3", Dir [("E01.mkv", File "c")]);
                         ("tvshow.nfo", File "fanhua")])])])].

(** The Metadata Service answers: mainland China, three seasons. *)
Definition onlineEnv (crossDevice : bool) : Env :=
  evalEnv sampleDecode crossDevice (fun w => Z.of_nat w)
          (fun _ _ _ => Ok ["中国大陆"]) (fun _ _ => Ok 3%Z) sampleConfig.

(** A second delivery of the series: Temp holds the seasons 1 and 2, the
    first with a file of its own, and the destination holds season 1. *)
Definition secondDeliveryTree : Node :=
  Dir [("Cloud",
        Dir [("CnShow",
              Dir [("繁花",
                    Dir [("Season 1", Dir [("E01.mkv", File "old")]);
                         ("tvshow.nfo", File "fanhua")])])]);
       ("Temp",
        Dir [("繁花",
              Dir [("Season 1", Dir [("E01.mkv", File "new");
                                     ("E02.mkv", File "only here")]);
                   ("Season 2", Dir [("E01.mkv", File "s2e1")]);
                   ("tvshow.nfo", File "fanhua")])])].

(** The files of a tree, each with its path and content. *)
Fixpoint filesOf (prefix : Path) (n : Node) : list (Path * string) :=
  match n with
  | File data => [(prefix, data)]
  | Dir entries =>
      flat_map (fun e => filesOf (prefix ++ [fst e])%list (snd e)) entries
  end.

(** A second delivery onto a destination that keeps its episodes in the
    series directory itself. *)
Definition flatDeliveryTree : Node :=
  Dir [("Cloud",
        Dir [("CnShow",
              Dir [("繁花",
                    Dir [("S01E01.mkv", File "old");
                         ("tvshow.nfo", File "fanhua")])])]);
       ("Temp",
        Dir [("繁花",
              Dir [("S01E01.mkv", File "new");
                   ("Season 2", Dir [("E01.mkv", File "s2e1")]);
                   ("tvshow.nfo", File "fanhua")])])].

(** Neither path is a prefix of the other. *)
Fixpoint disjointPaths (p q : Path) : bool :=
  match p, q with
  | a :: p', b :: q' => if String.eqb a b then disjointPaths p' q' else true
  | _, _ => false
  end.

(** The names are in the order of [os.ReadDir], none twice: each comes
    before all that follow it. *)
Fixpoint sortedNames (names : list string) : bool :=
  match names with
  | a :: rest => forallb (String.ltb a) rest && sortedNames rest
  | [] => true
  end.

(** Every directory of the tree lists its entries in that order, and no
    entry has the empty name. *)
Fixpoint canonical (n : Node) : bool :=
  match n with
  | File _ => true
  | Dir entries =>
      sortedNames (map fst entries) &&
      forallb (fun e => negb (String.eqb (fst e) "") && canonical (snd e))
              entries
  end.

(** The tree with the entries of the directory at [p] replaced. *)
Fixpoint setDir (p : Path) (es : list (string * Node)) (fs : Node) : Node :=
  match fs with
  | File _ => fs
  | Dir entries =>
      match p with
      | [] => Dir es
      | name :: rest =>
          match lookupEntry name entries with
          | Some child => Dir (setEntry name (setDir rest es child) entries)
          | None => fs
          end
      end
  end.

(** The entries of a directory that are files. *)
Definition keepFiles (entries : list (string * Node)) : list (string * Node) :=
  filter (fun e => negb (isDirNode (snd e))) entries.

(** What [os.ReadDir] reports of an entry. *)
Definition dirEntry (e : string * Node) : string * bool :=
  (fst e, isDirNode (snd e)).

(** ** The merge of a series *)

Section MergeDefs.
Variable env : Env.

(** Whether the merge loop moves an entry of the source [M] to the
    destination [T], whose entries are [eT], when the entries of the same
    name are passed over: the name is free at the destination, and the
    entry is a directory, or a file that can be renamed. *)
Definition movedInMerge (M T : Path) (eT : list (string * Node))
    (e : string * Node) : bool :=
  match lookupEntry (fst e) eT with
  | Some _ => false
  | None =>
      isDirNode (snd e) ||
      negb (xdev env (M ++ [fst e])%list (T ++ [fst e])%list)
  end.

End MergeDefs.

(** The entries whose name carries a season number are directories. *)
Definition seasonsAreDirectories (entries : list (string * Node)) : bool :=
  forallb (fun e => negb (GetSeasonNumberFromDirName (fst e) >? 0)%Z ||
                    isDirNode (snd e))
          entries.

(** A delivery that brings nothing new: the destination has the only
    season of the source. *)
Definition repeatDeliveryTree : Node :=
  Dir [("Cloud",
        Dir [("CnShow",
              Dir [("繁花",
                    Dir [("Season 1", Dir [("E01.mkv", File "old")]);
                         ("tvshow.nfo", File "fanhua")])])]);
       ("Temp",
        Dir [("繁花",
              Dir [("Season 1", Dir [("E01.mkv", File "new")]);
                   ("tvshow.nfo", File "fanhua")])])].

(** ** Further relations and samples *)

(** A second delivery to a destination that holds season 1 and nothing
    else. *)
Definition bareDestinationTree : Node :=
  Dir [("Cloud",
        Dir [("CnShow",
              Dir [("繁花",
                    Dir [("Season 1", Dir [("E01.mkv", File "old")])])])]);
       ("Temp",
        Dir [("繁花",
              Dir [("Season 1", Dir [("E01.mkv", File "new")]);
                   ("Season 2", Dir [("E01.mkv", File "s2e1")]);
                   ("tvshow.nfo", File "fanhua")])])].

(** Strings of decimal digits only, strings without one, and strings that
    begin with one. *)
Fixpoint allDigits (s : string) : bool :=
  match s with
  | EmptyString => true
  | String c rest => Regexp.isDigit c && allDigits rest
  end.

Fixpoint noDigits (s : string) : bool :=
  match s with
  | EmptyString => true
  | String c rest => negb (Regexp.isDigit c) && noDigits rest
  end.

Definition startsWithDigit (s : string) : bool :=
  match s with
  | String c _ => Regexp.isDigit c
  | EmptyString => false
  end.

(** The decimal numeral of a number, as [strconv.Itoa] writes it. *)
Definition decimal (n : nat) : string :=
  NilEmpty.string_of_uint (Nat.to_uint n).

(** What identifies a stored row and never changes: the key, the title,
    the year, the season and the time of the first processing. *)
Definition rowIdentity (row : MediaRow)
  : Z * option string * option string * option string * option Z :=
  (id row, title row, year row, season row, processed_at row).

(** A row as [insertedRow] writes it, with the columns version and
    is_complete NULL. *)
Definition rowWithoutFlags (newID now : Z) (record : MediaRecord) : MediaRow :=
  let row := insertedRow newID now record in
  {| id := id row;
     file_name := file_name row;
     title := title row;
     original_title := original_title row;
     year := year row;
     country := country row;
     genres := genres row;
     actors := actors row;
     category := category row;
     source_path := source_path row;
     target_path := target_path row;
     processed_at := processed_at row;
     updated_at := updated_at row;
     runtime := runtime row;
     plot := plot row;
     imdb_id := imdb_id row;
     tmdb_id := tmdb_id row;
     season := season row;
     episode := episode row;
     director := director row;
     writer := writer row;
     rating := rating row;
     resolution := resolution row;
     version := None;
     is_complete := None |}.

(** A store with a complete series, a row without flags and a film. *)
Definition sampleCatalog : DB :=
  setMediaRecords
    [ insertedRow 1 5 (setIsComplete true sampleSeriesRecord);
      rowWithoutFlags 2 6 (sampleRecord "无间道" "2002" "" CategoryCnMovie 0);
      insertedRow 3 7 (sampleRecord "盗梦空间" "2010" "" CategoryEnMovie 0) ]
    3 emptyDB.

(** Temp holds the series beside the sources of a program, and the series
    with a second metadata file. *)
Definition projectTree : Node :=
  Dir [("Temp",
        Dir [("繁花", Dir [("tvshow.nfo", File "fanhua");
                           ("main.go", File "package main");
                           ("Season 1", Dir [("E01.mkv", File "a")])])]);
       ("Cloud", Dir [])].

Definition twoFilesTree : Node :=
  Dir [("Temp",
        Dir [("繁花", Dir [("tvshow.nfo", File "fanhua");
                           ("Movie.NFO", File "inception");
                           ("Season 1", Dir [("E01.mkv", File "a")])])]);
       ("Cloud", Dir [])].

(** The Metadata Service knows the title and names no country. *)
Definition noCountryEnv : Env :=
  evalEnv sampleDecode false (fun w => Z.of_nat w)
          (fun _ _ _ => Ok []) (fun _ _ => Ok 3%Z) sampleConfig.

Section Listing.

Variable env : Env.

(** The WHERE clause that GetMissingSeasons builds from its filter. *)
Definition missingSeasonPasses (filter : Filter) (row : MissingSeason) : bool :=
  String.eqb (sStatus row) "missing" &&
  match fTitle filter with
  | Some t =>
      if String.eqb t "" then true
      else sqlLike env (sTitle row) ("%" ++ t ++ "%")
  | None => true
  end &&
  match fTMDbID filter with
  | Some i => if String.eqb i "" then true else String.eqb (sTMDbID row) i
  | None => true
  end.

(** GetMissingSeasons 获取所有缺失的季记录 *)
Definition GetMissingSeasons (filter : Filter) (d : DB)
  : Result (list MissingSeason) :=
  Ok (List.filter (missingSeasonPasses filter) (missing_seasons d)).

End Listing.

(** The filter [{"tmdb_id": tmdbID}]. *)
Definition byTMDbID (tmdbID : string) : Filter :=
  {| fTitle := None; fIsComplete := None; fCategory := None;
     fTMDbID := Some tmdbID; fSeason := None |}.

(** The store [d'] extends the store [d]: the rows of the catalog are
    those of [d] with their identity, followed by new ones; the missing
    seasons are those of [d] followed by new ones; the missing episodes are
    the same; and distinct keys among the missing rows stay distinct. *)
Definition extendsStore (d d' : DB) : Prop :=
  (exists added,
      map rowIdentity (media_records d') =
      (map rowIdentity (media_records d) ++ added)%list) /\
  (exists added, missing_seasons d' = (missing_seasons d ++ added)%list) /\
  missing_episodes d' = missing_episodes d /\
  (uniqueMissing d -> uniqueMissing d').

(** The first delivery of the series, listed as [os.ReadDir] lists it, to
    a library that is still empty. *)
Definition firstDeliveryTree : Node :=
  Dir [("Temp",
        Dir [("繁花", Dir [("Season 1", Dir [("E01.mkv", File "a")]);
                           ("tvshow.nfo", File "fanhua")])]);
       ("Cloud", Dir [])].


(** * Properties *)

Unset Implicit Arguments.

(** ** Evaluation on sample inputs *)

Example season_names :
  map GetSeasonNumberFromDirName
      ["Season 1"; "season02"; "第3季"; "Show.S04E01.mkv"; "tvshow.nfo";
       "Season 99999999999999999999"; "Specials"; "Season X S5"]
  = [1; 2; 3; 4; 0; 0; 0; 5]%Z.
Proof. vm_compute. reflexivity. Qed.

Example resolution_names :
  map extractResolutionFromFileName
      ["Movie.1080p.mkv"; "a.12345P.nfo"; "show 720i"; "film.4k.nfo"; "tvshow.nfo"]
  = ["1080P"; "2345P"; "720I"; "4K"; ""].
Proof. vm_compute. reflexivity. Qed.

Example ext_names :
  map Ext ["tvshow.nfo"; "a.b.NFO"; "noext"; ".git"] = [".nfo"; ".NFO"; ""; ".git"].
Proof. vm_compute. reflexivity. Qed.

Example han_titles :
  map Unicode.hasHan ["无间道"; "月の子"; "Inception"; "の"; ""] =
  [true; true; false; false; false].
Proof. vm_compute. reflexivity. Qed.

(** The scenarios of the specification: a Hong Kong film is a domestic
    film, and a series of Japan and China, Japan first, is a Japanese or
    Korean series. *)
Example scenario_infernal_affairs :
  DetermineCategory Strings.ToLowerASCII ["中国香港"] false ["犯罪"; "剧情"]
  = Ok CategoryCnMovie.
Proof. vm_compute. reflexivity. Qed.

Example scenario_japan_first :
  DetermineCategory Strings.ToLowerASCII ["日本"; "中国"] true []
  = Ok CategoryJpKrShow.
Proof. vm_compute. reflexivity. Qed.

(** ** The locale classifier *)

Section ClassifyFacts.

Variable ToLower : string -> string.

Lemma DetermineCategory_no_override countries isTVShow genres :
  noGenreOverride ToLower genres ->
  DetermineCategory ToLower countries isTVShow genres =
  DetermineCategory ToLower countries isTVShow [].
Proof.
  intros (Hd & Hv & Ha). unfold DetermineCategory.
  rewrite Hd, Hv, Ha. reflexivity.
Qed.

(** With a country to look at, DetermineCategory has a category. *)
Lemma DetermineCategory_nonempty_ok country rest isTVShow genres :
  exists category,
    DetermineCategory ToLower (country :: rest) isTVShow genres = Ok category.
Proof.
  unfold DetermineCategory.
  repeat match goal with
         | |- context [if ?b then _ else _] => destruct b
         end; eexists; reflexivity.
Qed.

(** A documentary genre decides the category whatever the countries are. *)
Lemma DetermineCategory_documentary countries isTVShow genres :
  existsb (isDocumentaryGenre ToLower) genres = true ->
  DetermineCategory ToLower countries isTVShow genres = Ok CategoryJlShow.
Proof.
  intros H. unfold DetermineCategory. rewrite H. reflexivity.
Qed.

Lemma DetermineCategory_empty_countries isTVShow genres :
  noGenreOverride ToLower genres ->
  DetermineCategory ToLower [] isTVShow genres = Err ErrNoCountry.
Proof.
  intros H. rewrite (DetermineCategory_no_override [] isTVShow genres H).
  reflexivity.
Qed.

End ClassifyFacts.

Lemma isJpKrCountry_keywords (ToLower : string -> string) country :
  isJpKrCountry ToLower country =
  matchesKeyword ToLower japanKoreaKeywords country.
Proof.
  unfold isJpKrCountry, matchesKeyword, japanKoreaKeywords. simpl.
  rewrite orb_false_r, <- !orb_assoc. reflexivity.
Qed.

Lemma isCnCountry_keywords (ToLower : string -> string) country :
  isCnCountry ToLower country = matchesKeyword ToLower chinaKeywords country.
Proof.
  unfold isCnCountry, matchesKeyword, chinaKeywords. simpl.
  rewrite orb_false_r, <- !orb_assoc. reflexivity.
Qed.

(** C1, as amended.  When no genre is a documentary, variety or anime
    genre, the
    category of a non-empty list of countries is decided by its first entry
    alone, whatever follows it: a first entry that matches a keyword of
    Japan and Korea gives Jp&KrShow or Jp&KrMovie; one that matches none of
    them and matches a keyword of China, Hong Kong and Taiwan gives CnShow
    or CnMovie; any other gives EnShow or EnMovie.  Germany before Japan is
    EnShow, not Jp&KrShow. *)
Theorem DetermineCategory_first_country_decides :
  (forall (ToLower : string -> string) (first : string)
          (rest : list string) (isTVShow : bool) (genres : list string),
      noGenreOverride ToLower genres ->
      DetermineCategory ToLower (first :: rest) isTVShow genres =
      Ok (if matchesKeyword ToLower japanKoreaKeywords first then
            (if isTVShow then CategoryJpKrShow else CategoryJpKrMovie)
          else if matchesKeyword ToLower chinaKeywords first then
            (if isTVShow then CategoryCnShow else CategoryCnMovie)
          else
            (if isTVShow then CategoryEnShow else CategoryEnMovie))) /\
  DetermineCategory Strings.ToLowerASCII ["Germany"; "Japan"] true [] =
  Ok CategoryEnShow /\
  DetermineCategory Strings.ToLowerASCII ["Germany"; "Japan"] true [] <>
  Ok CategoryJpKrShow.
Proof.
  split.
  - intros ToLower first rest isTVShow genres H.
    rewrite (DetermineCategory_no_override _ _ isTVShow _ H).
    rewrite <- isJpKrCountry_keywords, <- isCnCountry_keywords.
    unfold DetermineCategory; simpl.
    destruct (isJpKrCountry ToLower first), (isCnCountry ToLower first),
      isTVShow; reflexivity.
  - split; [vm_compute; reflexivity | vm_compute; discriminate].
Qed.

(** The series of Japan and China, Japan first, among dramas. *)
Lemma DetermineCategory_first_country_decides_witness :
  noGenreOverride Strings.ToLowerASCII ["剧情"] /\
  DetermineCategory Strings.ToLowerASCII ["日本"; "中国"] true ["剧情"] =
  Ok CategoryJpKrShow.
Proof.
  assert (H : noGenreOverride Strings.ToLowerASCII ["剧情"])
    by (repeat split; vm_compute; reflexivity).
  split; [exact H |].
  exact (proj1 DetermineCategory_first_country_decides
               Strings.ToLowerASCII "日本" ["中国"] true ["剧情"] H).
Defined.

(** An entry that names China and Japan matches a keyword of China, Hong
    Kong and Taiwan, and is a series of Japan and Korea: the keywords of
    Japan and Korea are tried first. *)
Lemma entry_of_china_and_japan_is_japan_korea :
  matchesKeyword Strings.ToLowerASCII chinaKeywords "中国大陆/日本" = true /\
  noGenreOverride Strings.ToLowerASCII [] /\
  DetermineCategory Strings.ToLowerASCII ["中国大陆/日本"] true [] =
  Ok CategoryJpKrShow /\
  DetermineCategory Strings.ToLowerASCII ["中国大陆/日本"] true [] <>
  Ok CategoryCnShow.
Proof.
  split; [vm_compute; reflexivity |].
  split; [repeat split |].
  split; [vm_compute; reflexivity | vm_compute; discriminate].
Qed.

(** ** The catalog store *)

Lemma find_app_none {A} (f : A -> bool) (l1 l2 : list A) :
  find f l1 = None -> find f (l1 ++ l2) = find f l2.
Proof.
  induction l1 as [|x l1 IH]; simpl; [reflexivity |].
  destruct (f x); [discriminate | exact IH].
Qed.

Lemma find_app_some {A} (f : A -> bool) (l1 l2 : list A) x :
  find f l1 = Some x -> find f (l1 ++ l2) = Some x.
Proof.
  induction l1 as [|y l1 IH]; simpl; [discriminate |].
  destruct (f y); [trivial | exact IH].
Qed.

Lemma find_existsb {A} (f : A -> bool) (l : list A) :
  existsb f l = true <-> exists x, find f l = Some x.
Proof.
  induction l as [|y l IH]; simpl.
  - split; [discriminate | intros [x H]; discriminate].
  - destruct (f y); simpl.
    + split; [intros _; eexists; reflexivity | reflexivity].
    + exact IH.
Qed.

Lemma find_none_existsb {A} (f : A -> bool) (l : list A) :
  existsb f l = false <-> find f l = None.
Proof.
  induction l as [|y l IH]; simpl; [tauto |].
  destruct (f y); simpl; [split; discriminate | exact IH].
Qed.

(** The upsert leaves the two tables of missing items alone. *)
Lemma InsertOrUpdateMediaRecord_missing now record d :
  missing_seasons (snd (InsertOrUpdateMediaRecord now record d)) =
  missing_seasons d /\
  missing_episodes (snd (InsertOrUpdateMediaRecord now record d)) =
  missing_episodes d.
Proof.
  unfold InsertOrUpdateMediaRecord.
  destruct (lookupMediaRow record d) as [row|]; simpl; [|auto].
  destruct (version row); simpl; auto.
Qed.

(** An update keeps the number of rows and adds one to the version of the
    row it found. *)
Lemma InsertOrUpdateMediaRecord_update now record d existing v :
  lookupMediaRow record d = Some existing ->
  version existing = Some v ->
  exists d',
    InsertOrUpdateMediaRecord now record d = (Ok tt, d') /\
    List.length (media_records d') = List.length (media_records d) /\
    map id (media_records d') = map id (media_records d) /\
    (forall row, In row (media_records d) -> id row = id existing ->
       In (updatedRow now v record row) (media_records d')) /\
    version (updatedRow now v record existing) = Some (wrapInt (v + 1)).
Proof.
  intros Hl Hv. unfold InsertOrUpdateMediaRecord. rewrite Hl, Hv.
  eexists; split; [reflexivity |]. simpl.
  split; [apply length_map |].
  split.
  - rewrite map_map. apply map_ext. intros row.
    destruct (id row =? id existing)%Z; reflexivity.
  - split; [|reflexivity].
    intros row Hin Hid. apply in_map_iff. exists row. split; [|exact Hin].
    rewrite Hid, Z.eqb_refl. reflexivity.
Qed.

Lemma wrapInt_small v :
  (-9223372036854775808 <= v < 9223372036854775807)%Z ->
  wrapInt (v + 1) = (v + 1)%Z.
Proof.
  intros H. unfold wrapInt. rewrite Z.mod_small; lia.
Qed.

(** An insert appends one row, under a new key. *)
Lemma InsertOrUpdateMediaRecord_insert now record d :
  lookupMediaRow record d = None ->
  InsertOrUpdateMediaRecord now record d =
  (Ok tt,
   setMediaRecords
     (media_records d ++
      [insertedRow (nextKey (media_seq d) (map id (media_records d))) now record])
     (nextKey (media_seq d) (map id (media_records d))) d).
Proof.
  intros Hl. unfold InsertOrUpdateMediaRecord. rewrite Hl. reflexivity.
Qed.

(** C2, at the failing input.  A documentary film has no season and the
    category JlShow.  Upserted twice into an empty store, it is stored
    twice: the SELECT of the branch for records without a season asks for a
    category NOT LIKE '%Show', which the row written by the first call does
    not meet, so the second call inserts again, at version 1.  The same
    happens to a series whose NFO file gives no season. *)
Theorem upsert_twice_stores_two_rows :
  let film := sampleRecord "地球脉动" "2006" "" CategoryJlShow 0 in
  let series := sampleRecord "繁花" "2023" "" CategoryCnShow 0 in
  let twice record :=
    snd (InsertOrUpdateMediaRecord 20 record
           (snd (InsertOrUpdateMediaRecord 10 record emptyDB))) in
  map (fun row => (id row, title row, year row, season row, version row))
      (media_records (twice film)) =
  [ (1, Some "地球脉动", Some "2006", Some "", Some 1);
    (2, Some "地球脉动", Some "2006", Some "", Some 1) ]%Z /\
  map (fun row => (id row, title row, year row, season row, version row))
      (media_records (twice series)) =
  [ (1, Some "繁花", Some "2023", Some "", Some 1);
    (2, Some "繁花", Some "2023", Some "", Some 1) ]%Z.
Proof. split; vm_compute; reflexivity. Qed.

(** Where the lookup does find the row, the two calls behave as C2 says: a
    film in a category that does not end in Show goes from version N to
    N + 2 in its one row. *)
Example upsert_twice_film :
  let film := sampleRecord "无间道" "2002" "" CategoryCnMovie 0 in
  let d0 := snd (InsertOrUpdateMediaRecord 5 film emptyDB) in
  let d2 := snd (InsertOrUpdateMediaRecord 20 film
                   (snd (InsertOrUpdateMediaRecord 10 film d0))) in
  map (fun row => (id row, version row)) (media_records d0) = [(1, Some 1)]%Z /\
  map (fun row => (id row, version row)) (media_records d2) = [(1, Some 3)]%Z.
Proof. split; vm_compute; reflexivity. Qed.

Lemma find_split {A} (f : A -> bool) (l : list A) x :
  find f l = Some x ->
  exists l1 l2, l = (l1 ++ x :: l2)%list /\ f x = true /\
                forall y, In y l1 -> f y = false.
Proof.
  induction l as [|a l IH]; simpl; [discriminate |].
  destruct (f a) eqn:Ha.
  - intros [= <-]. exists [], l. simpl. tauto.
  - intros H. destruct (IH H) as (l1 & l2 & -> & Hx & Hl1).
    exists (a :: l1), l2. simpl. split; [reflexivity |]. split; [exact Hx |].
    intros y [<- | Hy]; auto.
Qed.

Lemma find_at {A} (f : A -> bool) (l1 l2 : list A) x :
  f x = true -> (forall y, In y l1 -> f y = false) ->
  find f (l1 ++ x :: l2) = Some x.
Proof.
  intros Hx Hl1. rewrite find_app_none.
  - simpl. rewrite Hx. reflexivity.
  - apply find_none_existsb. apply not_true_is_false. intros H.
    apply existsb_exists in H. destruct H as (y & Hy & Hf).
    rewrite (Hl1 y Hy) in Hf. discriminate.
Qed.

(** The season and the category of a record agree: without a season the
    category does not end in Show, with a season it does. *)
Definition seasonMatchesCategory (record : MediaRecord) : Prop :=
  if String.eqb (Season record) "" then likeShow (Category record) = false
  else likeShow (Category record) = true.

(** The row found for a record is found again after it has been updated,
    when season and category of the record agree. *)
Lemma lookupMediaRow_after_update now record d existing v :
  NoDup (map id (media_records d)) ->
  seasonMatchesCategory record ->
  lookupMediaRow record d = Some existing ->
  lookupMediaRow record
    (setMediaRecords
       (map (fun row => if (id row =? id existing)%Z
                        then updatedRow now v record row else row)
            (media_records d))
       (media_seq d) d) =
  Some (updatedRow now v record existing).
Proof.
  intros Hnd Hsc Hl. unfold lookupMediaRow, seasonMatchesCategory in *.
  simpl.
  set (upd := fun row => if (id row =? id existing)%Z
                         then updatedRow now v record row else row).
  assert (Hgen : forall f,
             find f (media_records d) = Some existing ->
             f (updatedRow now v record existing) = true ->
             find f (map upd (media_records d)) =
             Some (updatedRow now v record existing)).
  { intros f Hf Hupd. destruct (find_split _ _ _ Hf) as (l1 & l2 & Heq & Hx & Hl1).
    rewrite Heq in *. rewrite map_app. simpl.
    assert (Hsame : map upd l1 = l1).
    { rewrite <- (map_id l1) at 2. apply map_ext_in. intros y Hy.
      unfold upd. destruct (id y =? id existing)%Z eqn:E; [|reflexivity].
      apply Z.eqb_eq in E. exfalso.
      rewrite map_app in Hnd. simpl in Hnd.
      apply NoDup_remove_2 in Hnd. apply Hnd. apply in_or_app. left.
      rewrite <- E. apply in_map. exact Hy. }
    rewrite Hsame. unfold upd at 1. rewrite Z.eqb_refl.
    apply find_at; assumption. }
  destruct (String.eqb (Season record) "") eqn:Es.
  - apply Hgen; [exact Hl |].
    apply find_some in Hl. destruct Hl as [_ Hl].
    unfold selectsMovie in *. simpl.
    apply andb_true_iff in Hl. destruct Hl as [Hl _]. rewrite Hl. simpl.
    rewrite Hsc. reflexivity.
  - apply Hgen; [exact Hl |].
    apply find_some in Hl. destruct Hl as [_ Hl].
    unfold selectsShow in *. simpl.
    apply andb_true_iff in Hl. destruct Hl as [Hl _]. rewrite Hl. simpl.
    rewrite Hsc. reflexivity.
Qed.

(** X12.  Two upserts in a row of a record that the lookup finds, with
    season and
    category in agreement: one row as before, two versions on. *)
Lemma upsert_twice_found now1 now2 record d existing N :
  NoDup (map id (media_records d)) ->
  seasonMatchesCategory record ->
  lookupMediaRow record d = Some existing ->
  version existing = Some N ->
  (-9223372036854775808 <= N < 9223372036854775806)%Z ->
  exists d1 d2 stored,
    InsertOrUpdateMediaRecord now1 record d = (Ok tt, d1) /\
    InsertOrUpdateMediaRecord now2 record d1 = (Ok tt, d2) /\
    map id (media_records d2) = map id (media_records d) /\
    lookupMediaRow record d2 = Some stored /\
    id stored = id existing /\
    version stored = Some (N + 2)%Z.
Proof.
  intros Hnd Hsc Hl Hv HN.
  unfold InsertOrUpdateMediaRecord at 1. rewrite Hl, Hv.
  eexists. 
  pose proof (lookupMediaRow_after_update now1 record d existing N Hnd Hsc Hl) as Hl1.
  set (d1 := setMediaRecords _ _ d) in *.
  assert (Hid1 : map id (media_records d1) = map id (media_records d)).
  { unfold d1. simpl. rewrite map_map. apply map_ext. intros row.
    destruct (id row =? id existing)%Z; reflexivity. }
  assert (Hnd1 : NoDup (map id (media_records d1))) by (rewrite Hid1; exact Hnd).
  pose proof (lookupMediaRow_after_update now2 record d1 _ (wrapInt (N + 1)) Hnd1 Hsc Hl1)
    as Hl2.
  unfold InsertOrUpdateMediaRecord. rewrite Hl1. simpl version.
  eexists. eexists. split; [reflexivity |]. split; [reflexivity |].
  split.
  - simpl. rewrite map_map. unfold d1. simpl. rewrite map_map.
    apply map_ext. intros row.
    destruct (id row =? id existing)%Z eqn:E; simpl.
    + rewrite E. reflexivity.
    + rewrite E. reflexivity.
  - split; [exact Hl2 |]. split; [reflexivity |].
    simpl. rewrite (wrapInt_small N) by lia.
    rewrite wrapInt_small by lia. f_equal. lia.
Qed.

(** *** Reading the store back *)

Section ReadBack.

Variable env : Env.

Lemma mediaRowPasses_noFilter row : mediaRowPasses env noFilter row = true.
Proof. reflexivity. Qed.

Lemma filter_noFilter rows :
  List.filter (mediaRowPasses env noFilter) rows = rows.
Proof.
  induction rows as [|row rows IH]; simpl; [reflexivity |].
  rewrite IH. reflexivity.
Qed.

Lemma scanMediaRows_app w rows1 rows2 records1 w1 :
  scanMediaRows env w rows1 = (Ok records1, w1) ->
  scanMediaRows env w (rows1 ++ rows2) =
  match scanMediaRows env w1 rows2 with
  | (Ok records2, w2) => (Ok (records1 ++ records2)%list, w2)
  | (Err e, w2) => (Err e, w2)
  end.
Proof.
  revert w records1 w1.
  induction rows1 as [|row rows1 IH]; intros w records1 w1; simpl.
  - intros [= <- <-]. destruct (scanMediaRows env w rows2) as [[r|e] w2];
      reflexivity.
  - destruct (scanMediaRow (Now env w) row) as [record|e]; [|discriminate].
    destruct (scanMediaRows env _ rows1) as [[records|e] w'] eqn:E;
      [|discriminate].
    intros [= <- <-]. rewrite (IH _ _ _ E).
    destruct (scanMediaRows env w' rows2) as [[r|e] w2]; reflexivity.
Qed.

End ReadBack.

(** C8, as amended.  A record for which the lookup of the upsert finds no
    row is inserted, and reading the store back gives the records that were
    there followed by the stored record.  The stored record has the content
    of the record inserted; its ID is the new key, its processed and
    updated timestamps are both the time of the insert, and its version is
    that of the record if positive and 1 otherwise.  It is the record found
    by title, year and season when no record read before has them. *)
Theorem insert_then_read_back :
  forall (env : Env) (now : Z) (record : MediaRecord) (d : DB) (w w' : nat)
         (before : list MediaRecord),
    lookupMediaRow record d = None ->
    GetMediaRecords env w noFilter d = (Ok before, w') ->
    exists d' stored,
      InsertOrUpdateMediaRecord now record d = (Ok tt, d') /\
      GetMediaRecords env w noFilter d' = (Ok (before ++ [stored])%list, w') /\
      sameContent stored record /\
      ID stored = nextKey (media_seq d) (map id (media_records d)) /\
      ProcessedAt stored = now /\
      UpdatedAt stored = now /\
      Version stored = (if (Version record >? 0)%Z then Version record else 1%Z) /\
      (existsb (sameKey record) before = false ->
       find (sameKey record) (before ++ [stored]) = Some stored).
Proof.
  intros env now record d w w' before Hl Hread.
  rewrite (InsertOrUpdateMediaRecord_insert now record d Hl).
  unfold GetMediaRecords in *. rewrite filter_noFilter in *. simpl.
  eexists. eexists. split; [reflexivity |].
  rewrite filter_noFilter. unfold setMediaRecords at 1. cbn [media_records].
  rewrite (scanMediaRows_app env _ _ _ _ _ Hread). simpl.
  split; [reflexivity |].
  split; [unfold sameContent; simpl; destruct (IsComplete record);
          repeat split |].
  repeat (split; [reflexivity |]).
  intros Hnone. rewrite find_app_none.
  - simpl. unfold sameKey; simpl. rewrite !String.eqb_refl. reflexivity.
  - apply find_none_existsb. exact Hnone.
Qed.

Lemma insert_then_read_back_witness :
  let film := sampleRecord "无间道" "2002" "" CategoryCnMovie 5 in
  exists d' stored,
    InsertOrUpdateMediaRecord 9 film emptyDB = (Ok tt, d') /\
    GetMediaRecords (evalEnv (fun _ => Err ErrParseNFO) false (fun _ => 0%Z)
                       (fun _ _ _ => Err ErrTMDB) (fun _ _ => Err ErrTMDB)
                       {| CloudDir := ["Cloud"]; TMDBApiKey := "" |})
                    0 noFilter d' = (Ok [stored], 0) /\
    sameContent stored film /\ ID stored = 1%Z /\ ProcessedAt stored = 9%Z.
Proof.
  intros film.
  destruct (insert_then_read_back
              (evalEnv (fun _ => Err ErrParseNFO) false (fun _ => 0%Z)
                       (fun _ _ _ => Err ErrTMDB) (fun _ _ => Err ErrTMDB)
                       {| CloudDir := ["Cloud"]; TMDBApiKey := "" |})
              9 film emptyDB 0 0 [] eq_refl eq_refl)
    as (d' & stored & H1 & H2 & H3 & H4 & H5 & _).
  exists d', stored.
  split; [exact H1 |]. split; [exact H2 |]. split; [exact H3 |].
  split; [exact H4 | exact H5].
Defined.

(** C8, as stated, fails on the processed timestamp: the INSERT writes the
    time of the call into processed_at, not the ProcessedAt of the record.
    A record processed at time 5 and inserted at time 9 reads back as
    processed at time 9. *)
Lemma read_back_changes_processed_at :
  let film := sampleRecord "无间道" "2002" "" CategoryCnMovie 5 in
  let env := evalEnv (fun _ => Err ErrParseNFO) false (fun _ => 0%Z)
                     (fun _ _ _ => Err ErrTMDB) (fun _ _ => Err ErrTMDB)
                     {| CloudDir := ["Cloud"]; TMDBApiKey := "" |} in
  exists stored,
    fst (GetMediaRecords env 0 noFilter
           (snd (InsertOrUpdateMediaRecord 9 film emptyDB))) = Ok [stored] /\
    sameKey film stored = true /\
    ProcessedAt film = 5%Z /\
    ProcessedAt stored = 9%Z /\
    ProcessedAt stored <> ProcessedAt film.
Proof.
  intros film env. eexists. split; [vm_compute; reflexivity |].
  repeat split; try reflexivity. vm_compute. discriminate.
Qed.

(** ** Missing seasons and episodes *)

Lemma NoDup_snoc {A} (l : list A) (x : A) :
  NoDup l -> ~ In x l -> NoDup (l ++ [x]).
Proof.
  intros Hl Hx. induction Hl as [|y l Hy Hl IH]; simpl.
  - constructor; [intros [] | constructor].
  - constructor.
    + intros Hin. apply in_app_or in Hin. destruct Hin as [Hin | [-> | []]].
      * exact (Hy Hin).
      * apply Hx. left. reflexivity.
    + apply IH. intros Hin. apply Hx. right. exact Hin.
Qed.

Lemma filter_snoc {A} (f : A -> bool) (l : list A) (x : A) :
  f x = true -> filter f (l ++ [x]) = (filter f l ++ [x])%list.
Proof.
  intros Hx. rewrite filter_app. simpl. rewrite Hx. reflexivity.
Qed.

(** A 'missing' row with the key of the record is what the SELECT of
    InsertMissingSeason finds. *)
Lemma seasonKey_selected record rows :
  In (seasonKey record)
     (map seasonKey (filter (fun row => String.eqb (sStatus row) "missing") rows)) ->
  existsb (selectsMissingSeason record) rows = true.
Proof.
  intros Hin. apply in_map_iff in Hin. destruct Hin as (row & Hk & Hrow).
  apply filter_In in Hrow. destruct Hrow as [Hrow Hs].
  apply existsb_exists. exists row. split; [exact Hrow |].
  unfold seasonKey in Hk. injection Hk as Ht Hi Hn.
  unfold selectsMissingSeason. rewrite Ht, Hi, Hn, Hs.
  rewrite !String.eqb_refl, Z.eqb_refl. reflexivity.
Qed.

Lemma episodeKey_selected record rows :
  In (episodeKey record)
     (map episodeKey (filter (fun row => String.eqb (eStatus row) "missing") rows)) ->
  existsb (selectsMissingEpisode record) rows = true.
Proof.
  intros Hin. apply in_map_iff in Hin. destruct Hin as (row & Hk & Hrow).
  apply filter_In in Hrow. destruct Hrow as [Hrow Hs].
  apply existsb_exists. exists row. split; [exact Hrow |].
  unfold episodeKey in Hk. injection Hk as Ht Hi Hn He.
  unfold selectsMissingEpisode. rewrite Ht, Hi, Hn, He, Hs.
  rewrite !String.eqb_refl, !Z.eqb_refl. reflexivity.
Qed.

(** The insert is a no-op on a key that has a 'missing' row. *)
Lemma InsertMissingSeason_present now1 now2 record d :
  existsb (selectsMissingSeason record) (missing_seasons d) = true ->
  InsertMissingSeason now1 now2 record d = (Ok tt, d).
Proof.
  intros H. apply find_existsb in H. destruct H as [row H].
  unfold InsertMissingSeason. rewrite H. reflexivity.
Qed.

Lemma InsertMissingEpisode_present now1 now2 record d :
  existsb (selectsMissingEpisode record) (missing_episodes d) = true ->
  InsertMissingEpisode now1 now2 record d = (Ok tt, d).
Proof.
  intros H. apply find_existsb in H. destruct H as [row H].
  unfold InsertMissingEpisode. rewrite H. reflexivity.
Qed.

(** The inserts keep the keys of the 'missing' rows distinct. *)
Lemma InsertMissingSeason_unique now1 now2 record d :
  uniqueMissing d ->
  uniqueMissing (snd (InsertMissingSeason now1 now2 record d)).
Proof.
  intros [Hs He]. unfold InsertMissingSeason.
  destruct (find (selectsMissingSeason record) (missing_seasons d)) eqn:Hf;
    simpl; [split; assumption |].
  split; [|exact He].
  unfold missingSeasonRows in *. simpl.
  rewrite filter_snoc by reflexivity. rewrite map_app. simpl.
  apply NoDup_snoc; [exact Hs |].
  intros Hin. apply find_none_existsb in Hf.
  change (sTitle record, sTMDbID record, sSeason record)
    with (seasonKey record) in Hin.
  rewrite (seasonKey_selected record _ Hin) in Hf. discriminate.
Qed.

Lemma InsertMissingEpisode_unique now1 now2 record d :
  uniqueMissing d ->
  uniqueMissing (snd (InsertMissingEpisode now1 now2 record d)).
Proof.
  intros [Hs He]. unfold InsertMissingEpisode.
  destruct (find (selectsMissingEpisode record) (missing_episodes d)) eqn:Hf;
    simpl; [split; assumption |].
  split; [exact Hs |].
  unfold missingEpisodeRows in *. simpl.
  rewrite filter_snoc by reflexivity. rewrite map_app. simpl.
  apply NoDup_snoc; [exact He |].
  intros Hin. apply find_none_existsb in Hf.
  change (eTitle record, eTMDbID record, eSeason record, eEpisode record)
    with (episodeKey record) in Hin.
  rewrite (episodeKey_selected record _ Hin) in Hf. discriminate.
Qed.

(** After the insert the key has a 'missing' row, and every row that was
    there is there. *)
Lemma InsertMissingSeason_selected now1 now2 record d :
  existsb (selectsMissingSeason record)
          (missing_seasons (snd (InsertMissingSeason now1 now2 record d))) = true.
Proof.
  unfold InsertMissingSeason.
  destruct (find (selectsMissingSeason record) (missing_seasons d)) eqn:Hf;
    simpl.
  - apply find_existsb. eexists; exact Hf.
  - rewrite existsb_app. simpl. unfold selectsMissingSeason at 2. simpl.
    rewrite !String.eqb_refl, Z.eqb_refl. simpl. apply orb_true_r.
Qed.

Lemma InsertMissingSeason_keeps now1 now2 record d f :
  existsb f (missing_seasons d) = true ->
  existsb f (missing_seasons (snd (InsertMissingSeason now1 now2 record d))) = true.
Proof.
  intros H. unfold InsertMissingSeason.
  destruct (find (selectsMissingSeason record) (missing_seasons d)); simpl;
    [exact H |].
  rewrite existsb_app, H. reflexivity.
Qed.

Section Detection.

Variable env : Env.

Lemma recordIfMissing_fs mr existing i st :
  fs (recordIfMissing env mr existing i st) = fs st.
Proof.
  unfold recordIfMissing. destruct (containsSeason existing i); [reflexivity |].
  destruct (InsertMissingSeason _ _ _ _) as [[u|e] d']; reflexivity.
Qed.

Lemma recordIfMissing_db mr existing i st :
  db (recordIfMissing env mr existing i st) =
  if containsSeason existing i then db st
  else snd (InsertMissingSeason (Now env (world st)) (Now env (S (world st)))
              (missingSeasonOf mr i) (db st)).
Proof.
  unfold recordIfMissing. destruct (containsSeason existing i); [reflexivity |].
  destruct (InsertMissingSeason _ _ _ _) as [[u|e] d']; reflexivity.
Qed.

Lemma recordIfMissing_media mr existing i st :
  media_records (db (recordIfMissing env mr existing i st)) =
  media_records (db st) /\
  media_seq (db (recordIfMissing env mr existing i st)) = media_seq (db st) /\
  missing_episodes (db (recordIfMissing env mr existing i st)) =
  missing_episodes (db st).
Proof.
  rewrite recordIfMissing_db. destruct (containsSeason existing i); [auto |].
  unfold InsertMissingSeason.
  destruct (find _ (missing_seasons (db st))); simpl; auto.
Qed.

Lemma recordIfMissing_keeps mr existing i st f :
  existsb f (missing_seasons (db st)) = true ->
  existsb f (missing_seasons (db (recordIfMissing env mr existing i st))) = true.
Proof.
  intros H. rewrite recordIfMissing_db.
  destruct (containsSeason existing i); [exact H |].
  apply InsertMissingSeason_keeps. exact H.
Qed.

Lemma fold_recordIfMissing_fs mr existing l st :
  fs (fold_left (fun st i => recordIfMissing env mr existing i st) l st) = fs st.
Proof.
  revert st. induction l as [|i l IH]; intros st; simpl; [reflexivity |].
  rewrite IH. apply recordIfMissing_fs.
Qed.

Lemma fold_recordIfMissing_media mr existing l st :
  media_records
    (db (fold_left (fun st i => recordIfMissing env mr existing i st) l st)) =
  media_records (db st) /\
  missing_episodes
    (db (fold_left (fun st i => recordIfMissing env mr existing i st) l st)) =
  missing_episodes (db st).
Proof.
  revert st. induction l as [|i l IH]; intros st; simpl; [auto |].
  destruct (IH (recordIfMissing env mr existing i st)) as [H1 H2].
  destruct (recordIfMissing_media mr existing i st) as (H3 & _ & H4).
  rewrite H1, H2, H3, H4. auto.
Qed.

Lemma fold_recordIfMissing_keeps mr existing l st f :
  existsb f (missing_seasons (db st)) = true ->
  existsb f
    (missing_seasons
       (db (fold_left (fun st i => recordIfMissing env mr existing i st) l st)))
  = true.
Proof.
  revert st. induction l as [|i l IH]; intros st H; simpl; [exact H |].
  apply IH. apply recordIfMissing_keeps. exact H.
Qed.

(** After the loop every season of the range that is not on disk has its
    'missing' row. *)
Lemma fold_recordIfMissing_ensures mr existing l st i :
  In i l -> containsSeason existing i = false ->
  existsb (selectsMissingSeason (missingSeasonOf mr i))
    (missing_seasons
       (db (fold_left (fun st i => recordIfMissing env mr existing i st) l st)))
  = true.
Proof.
  revert st. induction l as [|j l IH]; intros st Hin Hc; simpl; [destruct Hin |].
  destruct Hin as [-> | Hin]; [|apply IH; assumption].
  apply fold_recordIfMissing_keeps.
  rewrite recordIfMissing_db, Hc. apply InsertMissingSeason_selected.
Qed.

(** A loop over seasons that all have their row changes no table. *)
Lemma fold_recordIfMissing_noop mr existing l st :
  (forall i, In i l -> containsSeason existing i = false ->
     existsb (selectsMissingSeason (missingSeasonOf mr i))
             (missing_seasons (db st)) = true) ->
  db (fold_left (fun st i => recordIfMissing env mr existing i st) l st) = db st.
Proof.
  revert st. induction l as [|i l IH]; intros st H; simpl; [reflexivity |].
  assert (Hstep : db (recordIfMissing env mr existing i st) = db st).
  { rewrite recordIfMissing_db.
    destruct (containsSeason existing i) eqn:Hc; [reflexivity |].
    rewrite InsertMissingSeason_present; [reflexivity |].
    apply H; [left; reflexivity | exact Hc]. }
  rewrite IH; [exact Hstep |].
  intros j Hj Hc. rewrite Hstep. apply H; [right; exact Hj | exact Hc].
Qed.

End Detection.

Lemma missingSeasonOf_setIsComplete b mr i :
  missingSeasonOf (setIsComplete b mr) i = missingSeasonOf mr i.
Proof. reflexivity. Qed.

(** Detection does not touch the directory tree. *)
Lemma DetectMissingSeasonsAndEpisodes_fs env mediaRecord st :
  fs (snd (DetectMissingSeasonsAndEpisodes env mediaRecord st)) = fs st.
Proof.
  unfold DetectMissingSeasonsAndEpisodes.
  destruct (String.eqb (TMDbID mediaRecord) ""); [reflexivity |].
  destruct (GetTVShowSeasons env (world st) (TMDbID mediaRecord)) as [total|e];
    [|reflexivity].
  destruct (GetExistingSeasons (fs (tick st)) (TargetPath mediaRecord))
    as [existing|e]; [|reflexivity].
  destruct (InsertOrUpdateMediaRecord _ _ _) as [[u|e] d']; simpl;
    apply (fold_recordIfMissing_fs env mediaRecord existing _ (tick st)).
Qed.

(** A second detection, on a store left by a first one that succeeded, with
    the same seasons on disk and the same answer of the Metadata Service,
    leaves the tables of missing items as they are and computes the same
    completeness flag. *)
Lemma detect_again env mediaRecord st r1 st1 stB :
  DetectMissingSeasonsAndEpisodes env mediaRecord st = (Ok tt, r1, st1) ->
  db stB = db st1 ->
  GetExistingSeasons (fs stB) (TargetPath mediaRecord) =
  GetExistingSeasons (fs st) (TargetPath mediaRecord) ->
  GetTVShowSeasons env (world stB) (TMDbID mediaRecord) =
  GetTVShowSeasons env (world st) (TMDbID mediaRecord) ->
  exists r2 st2,
    DetectMissingSeasonsAndEpisodes env r1 stB = (Ok tt, r2, st2) /\
    missing_seasons (db st2) = missing_seasons (db st1) /\
    missing_episodes (db st2) = missing_episodes (db st1) /\
    IsComplete r2 = IsComplete r1 /\
    fs st2 = fs stB.
Proof.
  intros Hrun Hdb Hdisk Hsvc.
  unfold DetectMissingSeasonsAndEpisodes in Hrun.
  destruct (String.eqb (TMDbID mediaRecord) "") eqn:Eid.
  - injection Hrun as <- <-.
    unfold DetectMissingSeasonsAndEpisodes. rewrite Eid.
    exists mediaRecord, stB. rewrite Hdb. auto.
  - destruct (GetTVShowSeasons env (world st) (TMDbID mediaRecord))
      as [total|e] eqn:Esvc; [|discriminate].
    change (fs (tick st)) with (fs st) in Hrun.
    destruct (GetExistingSeasons (fs st) (TargetPath mediaRecord))
      as [existing|e] eqn:Edisk; [|discriminate].
    set (loop1 := fold_left
                    (fun st i => recordIfMissing env mediaRecord existing i st)
                    (seasonRange total) (tick st)) in *.
    set (flag := (Z.of_nat (List.length existing) =? total)%Z) in *.
    assert (Hst1 : r1 = setIsComplete flag mediaRecord /\
                   missing_seasons (db st1) = missing_seasons (db loop1) /\
                   missing_episodes (db st1) = missing_episodes (db loop1)).
    { pose proof (InsertOrUpdateMediaRecord_missing
                    (Now env (world loop1)) (setIsComplete flag mediaRecord)
                    (db loop1)) as [Hs He].
      destruct (InsertOrUpdateMediaRecord (Now env (world loop1))
                  (setIsComplete flag mediaRecord) (db loop1)) as [[u|e] d'];
        injection Hrun as <- <-; simpl in *; auto. }
    destruct Hst1 as (-> & Hs1 & He1).
    unfold DetectMissingSeasonsAndEpisodes.
    change (TMDbID (setIsComplete flag mediaRecord)) with (TMDbID mediaRecord).
    change (TargetPath (setIsComplete flag mediaRecord))
      with (TargetPath mediaRecord).
    rewrite Eid, Hsvc.
    change (fs (tick stB)) with (fs stB). rewrite Hdisk.
    set (loop2 := fold_left
                    (fun st i => recordIfMissing env
                                   (setIsComplete flag mediaRecord) existing i st)
                    (seasonRange total) (tick stB)).
    assert (Hloop2 : db loop2 = db st1).
    { unfold loop2. rewrite fold_recordIfMissing_noop.
      - exact Hdb.
      - intros i Hi Hc. rewrite missingSeasonOf_setIsComplete.
        change (db (tick stB)) with (db stB). rewrite Hdb, Hs1.
        apply fold_recordIfMissing_ensures; assumption. }
    pose proof (InsertOrUpdateMediaRecord_missing
                  (Now env (world loop2))
                  (setIsComplete flag (setIsComplete flag mediaRecord))
                  (db loop2)) as [Hs He].
    assert (Hfs : fs loop2 = fs stB)
      by apply (fold_recordIfMissing_fs env _ existing _ (tick stB)).
    fold flag.
    destruct (InsertOrUpdateMediaRecord (Now env (world loop2))
                (setIsComplete flag (setIsComplete flag mediaRecord))
                (db loop2)) as [[u|e] d'];
      eexists; eexists; (split; [reflexivity |]); simpl in *;
      rewrite Hs, He, Hloop2; auto.
Qed.

(** C6.  The inserts of missing seasons and of missing episodes keep the
    keys of the rows with status 'missing' distinct; an insert on a key that
    has such a row changes nothing; and a detection that follows a
    successful one, with the same seasons on disk and the same count from
    the Metadata Service, leaves the same rows and the same completeness
    flag. *)
Theorem missing_rows_unique_and_stable :
  (forall now1 now2 record d,
      uniqueMissing d ->
      uniqueMissing (snd (InsertMissingSeason now1 now2 record d))) /\
  (forall now1 now2 record d,
      uniqueMissing d ->
      uniqueMissing (snd (InsertMissingEpisode now1 now2 record d))) /\
  (forall now1 now2 record d,
      existsb (selectsMissingSeason record) (missing_seasons d) = true ->
      InsertMissingSeason now1 now2 record d = (Ok tt, d)) /\
  (forall now1 now2 record d,
      existsb (selectsMissingEpisode record) (missing_episodes d) = true ->
      InsertMissingEpisode now1 now2 record d = (Ok tt, d)) /\
  (forall env mediaRecord st r1 st1 stB,
      DetectMissingSeasonsAndEpisodes env mediaRecord st = (Ok tt, r1, st1) ->
      db stB = db st1 ->
      GetExistingSeasons (fs stB) (TargetPath mediaRecord) =
      GetExistingSeasons (fs st) (TargetPath mediaRecord) ->
      GetTVShowSeasons env (world stB) (TMDbID mediaRecord) =
      GetTVShowSeasons env (world st) (TMDbID mediaRecord) ->
      exists r2 st2,
        DetectMissingSeasonsAndEpisodes env r1 stB = (Ok tt, r2, st2) /\
        missingSeasonRows (db st2) = missingSeasonRows (db st1) /\
        missingEpisodeRows (db st2) = missingEpisodeRows (db st1) /\
        IsComplete r2 = IsComplete r1).
Proof.
  split; [exact InsertMissingSeason_unique |].
  split; [exact InsertMissingEpisode_unique |].
  split; [exact InsertMissingSeason_present |].
  split; [exact InsertMissingEpisode_present |].
  intros env mediaRecord st r1 st1 stB H1 H2 H3 H4.
  destruct (detect_again env mediaRecord st r1 st1 stB H1 H2 H3 H4)
    as (r2 & st2 & Hrun & Hs & He & Hc & _).
  exists r2, st2. unfold missingSeasonRows, missingEpisodeRows.
  rewrite Hs, He. auto.
Qed.

(** The sample series lacks season 2 of three: the first detection writes
    one row, the second none. *)
Lemma missing_rows_unique_and_stable_witness :
  let run1 := DetectMissingSeasonsAndEpisodes threeSeasonsEnv
                sampleSeriesRecord sampleSeriesState in
  uniqueMissing (db (snd run1)) /\
  map seasonKey (missingSeasonRows (db (snd run1))) = [("繁花", "200001", 2%Z)] /\
  exists r2 st2,
    DetectMissingSeasonsAndEpisodes threeSeasonsEnv (snd (fst run1)) (snd run1)
    = (Ok tt, r2, st2) /\
    missingSeasonRows (db st2) = missingSeasonRows (db (snd run1)) /\
    missingEpisodeRows (db st2) = missingEpisodeRows (db (snd run1)) /\
    IsComplete r2 = IsComplete (snd (fst run1)).
Proof.
  intros run1.
  split.
  - split; vm_compute; repeat constructor; simpl; tauto.
  - split; [vm_compute; reflexivity |].
    apply (proj2 (proj2 (proj2 (proj2 missing_rows_unique_and_stable)))
             threeSeasonsEnv sampleSeriesRecord sampleSeriesState
             (snd (fst run1)) (snd run1) (snd run1)).
    + vm_compute. reflexivity.
    + reflexivity.
    + vm_compute. reflexivity.
    + vm_compute. reflexivity.
Defined.

(** ** Paths and lookups *)

Open Scope list_scope.

Lemma Stat_app fs p q :
  Stat fs (p ++ q) =
  match Stat fs p with
  | Ok node => Stat node q
  | Err e => Err e
  end.
Proof.
  revert fs. induction p as [|name p IH]; intros fs; simpl; [reflexivity |].
  destruct fs as [data|entries]; [reflexivity |].
  destruct (lookupEntry name entries); [apply IH | reflexivity].
Qed.

Lemma path_split (p : Path) : p <> [] -> p = DirOf p ++ [Base p].
Proof. intros H. apply app_removelast_last. exact H. Qed.

(** What lies at a path with a name lies in a directory. *)
Lemma Stat_parent fs p node :
  p <> [] -> Stat fs p = Ok node ->
  exists entries, Stat fs (DirOf p) = Ok (Dir entries) /\
                  lookupEntry (Base p) entries = Some node.
Proof.
  intros Hp H. rewrite (path_split p Hp) in H.
  rewrite Stat_app in H.
  destruct (Stat fs (DirOf p)) as [parent|e]; [|discriminate].
  simpl in H. destruct parent as [data|entries]; [discriminate |].
  exists entries. split; [reflexivity |].
  destruct (lookupEntry (Base p) entries); [|discriminate].
  congruence.
Qed.

Lemma ReadDir_of_dir fs p entries :
  Stat fs p = Ok (Dir entries) ->
  ReadDir fs p =
  Ok (sortByName (map (fun e => (fst e, isDirNode (snd e))) entries)).
Proof. intros H. unfold ReadDir. rewrite H. reflexivity. Qed.

(** ** A run of ClassifyAndMove *)

Section Run.

Variable env : Env.

Lemma ParseNFO_ReadDir fs nfoPath nfo :
  nfoPath <> [] -> ParseNFO env fs nfoPath = Ok nfo ->
  exists entries, ReadDir fs (DirOf nfoPath) = Ok entries.
Proof.
  intros Hp H. unfold ParseNFO in H.
  destruct (Stat fs nfoPath) as [node|e] eqn:Hs; [|discriminate].
  destruct (Stat_parent fs nfoPath node Hp Hs) as (entries & Hd & _).
  eexists. apply ReadDir_of_dir. exact Hd.
Qed.

(** The lookup of the countries changes neither tree nor store. *)
Lemma resolveCountries_state nfo isTVShow st :
  fs (snd (resolveCountries env nfo isTVShow st)) = fs st /\
  db (snd (resolveCountries env nfo isTVShow st)) = db st.
Proof.
  unfold resolveCountries.
  destruct (negb (String.eqb (nTMDbID nfo) "")); [|auto].
  destruct (negb (String.eqb (TMDBApiKey (cfg env)) "")); [|auto].
  destruct (GetProductionCountries env (world st) (nTMDbID nfo) isTVShow);
    auto.
Qed.

(** A title or a genre without a Han character ends the run before the
    destination is touched. *)
Lemma classifyResolved_not_chinese nfoPath nfo isTVShow countries st :
  (IsSimplifiedChinese env (nTitle nfo) = false \/
   exists genre, In genre (nGenres nfo) /\
                 IsSimplifiedChinese env genre = false) ->
  exists st',
    classifyResolved env nfoPath nfo isTVShow countries st = (Ok tt, st') /\
    fs st' = fs st /\ db st' = db st.
Proof.
  intros H. unfold classifyResolved.
  destruct countries as [|country rest]; [eexists; simpl; auto |].
  destruct (DetermineCategory_nonempty_ok (ToLower env) country rest isTVShow
              (nGenres nfo)) as [category ->].
  destruct (isProjectDirectory (fs st) (DirOf nfoPath));
    [eexists; simpl; auto |].
  destruct (IsSimplifiedChinese env (nTitle nfo)) eqn:Ht; simpl;
    [|eexists; simpl; auto].
  destruct H as [H | (genre & Hin & Hg)]; [discriminate |].
  destruct (find (fun genre => negb (IsSimplifiedChinese env genre))
                 (nGenres nfo)) as [g|] eqn:Hf; [eexists; simpl; auto |].
  exfalso. apply find_none_existsb in Hf.
  assert (Ht' : existsb (fun genre => negb (IsSimplifiedChinese env genre))
                        (nGenres nfo) = true).
  { apply existsb_exists. exists genre. rewrite Hg. auto. }
  rewrite Ht' in Hf. discriminate.
Qed.

(** No countries: the run ends with a warning. *)
Lemma classifyResolved_no_country nfoPath nfo isTVShow st :
  classifyResolved env nfoPath nfo isTVShow [] st =
  (Ok tt, logf LogNoCountry st).
Proof. reflexivity. Qed.

End Run.

(** C10.  When the metadata file parses and its title has no Han character,
    or one of its genres has none, ClassifyAndMove returns nil and leaves
    the directory tree and the store as they were: nothing is moved or
    merged, and no catalog record is written. *)
Theorem non_chinese_title_or_genre_is_skipped :
  forall (env : Env) (nfoPath : Path) (st : State) (nfo : NFO),
    nfoPath <> [] ->
    ParseNFO env (fs st) nfoPath = Ok nfo ->
    (IsSimplifiedChinese env (nTitle nfo) = false \/
     exists genre, In genre (nGenres nfo) /\
                   IsSimplifiedChinese env genre = false) ->
    exists st',
      ClassifyAndMove env nfoPath st = (Ok tt, st') /\
      fs st' = fs st /\ db st' = db st.
Proof.
  intros env nfoPath st nfo Hp Hparse Hhan.
  unfold ClassifyAndMove. rewrite Hparse.
  destruct (ParseNFO_ReadDir env (fs st) nfoPath nfo Hp Hparse)
    as [entries ->].
  destruct (countNFO env entries >? 1)%Z; [eexists; simpl; auto |].
  destruct (negb (isNFOResolved env nfo)); [eexists; simpl; auto |].
  pose proof (resolveCountries_state env nfo (IsTVShow nfo) st) as [Hfs Hdb].
  destruct (resolveCountries env nfo (IsTVShow nfo) st) as [countries st1].
  simpl in Hfs, Hdb.
  destruct (classifyResolved_not_chinese env nfoPath nfo (IsTVShow nfo)
              countries st1 Hhan) as (st' & Hrun & Hfs' & Hdb').
  exists st'. rewrite Hrun, Hfs', Hdb'. auto.
Qed.

Lemma non_chinese_title_or_genre_is_skipped_witness :
  exists st',
    ClassifyAndMove offlineEnv ["Temp"; "Inception"; "movie.nfo"]
                    (stateOf sampleTempTree) = (Ok tt, st') /\
    fs st' = sampleTempTree /\ db st' = emptyDB.
Proof.
  apply (non_chinese_title_or_genre_is_skipped offlineEnv
           ["Temp"; "Inception"; "movie.nfo"] (stateOf sampleTempTree)
           (sampleNFO "movie" "Inception" ["美国"] ["科幻"] "" "")).
  - discriminate.
  - vm_compute. reflexivity.
  - left. vm_compute. reflexivity.
Defined.

(** ** Failures of the Metadata Service *)

Section ServiceFailure.

Variable env : Env.

Lemma ReportSeasonStatus_state title tmdbID target st :
  fs (snd (ReportSeasonStatus env title tmdbID target st)) = fs st /\
  db (snd (ReportSeasonStatus env title tmdbID target st)) = db st /\
  exists l, log (snd (ReportSeasonStatus env title tmdbID target st)) =
            log st ++ l.
Proof.
  unfold ReportSeasonStatus.
  destruct (GetExistingSeasons (fs st) target) as [existing|e]; simpl;
    [|repeat split; exists []; rewrite app_nil_r; reflexivity].
  unfold checkSeasonCompleteness.
  destruct (GetTVShowSeasons env (world st) tmdbID) as [total|e]; simpl;
    repeat split; eexists; reflexivity.
Qed.

(** The tail of a run never fails. *)
Lemma recordAndDetect_ok nfo isTVShow target mediaRecord st :
  fst (recordAndDetect env nfo isTVShow target mediaRecord st) = Ok tt.
Proof. reflexivity. Qed.

Lemma recordAndDetect_fs nfo isTVShow target mediaRecord st :
  fs (snd (recordAndDetect env nfo isTVShow target mediaRecord st)) = fs st.
Proof.
  unfold recordAndDetect. simpl.
  set (st1 := match InsertOrUpdateMediaRecord _ _ _ with
              | (Ok _, d') => _ | (Err _, d') => _ end).
  assert (H1 : fs st1 = fs st).
  { unfold st1. destruct (InsertOrUpdateMediaRecord _ _ _) as [[u|e] d'];
      reflexivity. }
  destruct (isTVShow && negb (String.eqb (nTMDbID nfo) "")); [|exact H1].
  set (st2 := match DetectMissingSeasonsAndEpisodes env mediaRecord st1 with
              | (Ok _, _, st') => st' | (Err e, _, st') => _ end).
  assert (H2 : fs st2 = fs st1).
  { unfold st2.
    pose proof (DetectMissingSeasonsAndEpisodes_fs env mediaRecord st1) as H.
    destruct (DetectMissingSeasonsAndEpisodes env mediaRecord st1)
      as [[[u|e] r] st']; simpl in *; exact H. }
  destruct (ReportSeasonStatus_state (nTitle nfo) (nTMDbID nfo) target st2)
    as (H3 & _ & _).
  destruct (ReportSeasonStatus env (nTitle nfo) (nTMDbID nfo) target st2)
    as [[u|e] st3]; simpl in *; congruence.
Qed.

(** When the count of seasons cannot be had, the tail of a run leaves the
    tree as placed and the store as the upsert left it, and logs the
    failure. *)
Lemma recordAndDetect_service_down nfo target mediaRecord st e :
  nTMDbID nfo <> "" ->
  TMDbID mediaRecord = nTMDbID nfo ->
  GetTVShowSeasons env (S (world st)) (TMDbID mediaRecord) = Err e ->
  exists st',
    recordAndDetect env nfo true target mediaRecord st = (Ok tt, st') /\
    fs st' = fs st /\
    db st' = snd (InsertOrUpdateMediaRecord (Now env (world st)) mediaRecord
                                            (db st)) /\
    In (LogDetectFailed ErrTotalSeasons) (log st').
Proof.
  intros Hid Hrec Hsvc.
  eexists. split; [reflexivity |].
  split; [apply (recordAndDetect_fs nfo true target mediaRecord st) |].
  unfold recordAndDetect. simpl.
  apply String.eqb_neq in Hid. rewrite Hid. simpl.
  set (st1 := match InsertOrUpdateMediaRecord _ _ _ with
              | (Ok _, d') => _ | (Err _, d') => _ end).
  assert (H1 : db st1 = snd (InsertOrUpdateMediaRecord (Now env (world st))
                               mediaRecord (db st)) /\
               world st1 = S (world st)).
  { unfold st1. destruct (InsertOrUpdateMediaRecord _ _ _) as [[u|e'] d'];
      split; reflexivity. }
  destruct H1 as [H1 Hw].
  unfold DetectMissingSeasonsAndEpisodes.
  rewrite Hrec, Hid, Hw. rewrite Hrec in Hsvc. rewrite Hsvc.
  set (st2 := logf (LogDetectFailed ErrTotalSeasons) (tick st1)).
  destruct (ReportSeasonStatus_state (nTitle nfo) (nTMDbID nfo) target st2)
    as (_ & H3 & (l & Hl)).
  destruct (ReportSeasonStatus env (nTitle nfo) (nTMDbID nfo) target st2)
    as [[u|e'] st3]; simpl in *.
  - split; [congruence |]. rewrite Hl. apply in_or_app. left.
    apply in_or_app. right. left. reflexivity.
  - split; [congruence |]. apply in_or_app. left. rewrite Hl.
    apply in_or_app. left. apply in_or_app. right. left. reflexivity.
Qed.

Lemma placeMedia_errors nfoPath nfo isTVShow countries category st e :
  fst (placeMedia env nfoPath nfo isTVShow countries category st) = Err e ->
  In e runErrors.
Proof.
  unfold placeMedia, runErrors.
  destruct (MkdirAll (fs st) _) as [fs1|e1]; simpl;
    [|intros [= <-]; simpl; tauto].
  destruct (prepareMediaRecord env nfoPath nfo isTVShow countries category _ _ _)
    as [mediaRecord st2].
  destruct (Stat (fs st2) _) as [node|e1].
  - destruct isTVShow; [|discriminate].
    destruct (HasNewSeasons (fs st2) _ _) as [[hasNew seasonsToAdd]|e1];
      [|discriminate].
    destruct hasNew; [|discriminate].
    unfold mergeIntoTarget.
    destruct (ReadDir _ _) as [entries|e1]; simpl;
      [discriminate | intros [= <-]; simpl; tauto].
  - destruct (MoveDirectory _ _ _ _) as [[u|e2] fs']; simpl;
      [discriminate | intros [= <-]; simpl; tauto].
Qed.

Lemma ClassifyAndMove_errors nfoPath st e :
  fst (ClassifyAndMove env nfoPath st) = Err e -> In e runErrors.
Proof.
  unfold ClassifyAndMove.
  destruct (ParseNFO env (fs st) nfoPath) as [nfo|e1];
    [|intros [= <-]; simpl; tauto].
  destruct (ReadDir (fs st) (DirOf nfoPath)) as [entries|e1];
    [|intros [= <-]; simpl; tauto].
  destruct (countNFO env entries >? 1)%Z; [discriminate |].
  destruct (negb (isNFOResolved env nfo)); [discriminate |].
  destruct (resolveCountries env nfo (IsTVShow nfo) st) as [countries st1].
  unfold classifyResolved.
  destruct countries as [|country rest]; [discriminate |].
  destruct (DetermineCategory _ _ _ _) as [category|e1];
    [|intros [= <-]; simpl; tauto].
  destruct (isProjectDirectory _ _); [discriminate |].
  destruct (negb (IsSimplifiedChinese env (nTitle nfo))); [discriminate |].
  destruct (find _ (nGenres nfo)); [discriminate |].
  apply placeMedia_errors.
Qed.

End ServiceFailure.



(** ** Titles without a country *)

(** C7, as amended.  With no country and no documentary, variety or anime
    genre, DetermineCategory fails with the error of missing country
    information; no category is a default.  ClassifyAndMove does not come
    that far: a title whose countries resolve to none is dropped with a
    warning before DetermineCategory is called, nothing is moved or
    recorded, and the run returns nil. *)
Theorem no_country_is_not_classified :
  (forall ToLower isTVShow genres,
      noGenreOverride ToLower genres ->
      DetermineCategory ToLower [] isTVShow genres = Err ErrNoCountry) /\
  (forall env nfoPath st nfo entries,
      ParseNFO env (fs st) nfoPath = Ok nfo ->
      ReadDir (fs st) (DirOf nfoPath) = Ok entries ->
      (countNFO env entries >? 1)%Z = false ->
      isNFOResolved env nfo = true ->
      fst (resolveCountries env nfo (IsTVShow nfo) st) = [] ->
      exists st',
        ClassifyAndMove env nfoPath st = (Ok tt, st') /\
        fs st' = fs st /\ db st' = db st /\
        In LogNoCountry (log st')).
Proof.
  split.
  - exact DetermineCategory_empty_countries.
  - intros env nfoPath st nfo entries Hparse Hdir Hcount Hres Hnone.
    unfold ClassifyAndMove. rewrite Hparse, Hdir, Hcount, Hres. simpl.
    pose proof (resolveCountries_state env nfo (IsTVShow nfo) st) as [Hfs Hdb].
    destruct (resolveCountries env nfo (IsTVShow nfo) st) as [countries st1].
    simpl in *. subst countries.
    eexists. split; [reflexivity |]. simpl.
    repeat split; try assumption.
    apply in_or_app. right. left. reflexivity.
Qed.

Lemma no_country_is_not_classified_witness :
  DetermineCategory Strings.ToLowerASCII [] true ["剧情"] = Err ErrNoCountry /\
  exists st',
    ClassifyAndMove offlineEnv ["Temp"; "地球脉动"; "movie.nfo"]
                    (stateOf sampleTempTree) = (Ok tt, st') /\
    fs st' = sampleTempTree /\ db st' = emptyDB /\
    In LogNoCountry (log st').
Proof.
  split.
  - apply (proj1 no_country_is_not_classified Strings.ToLowerASCII true
             ["剧情"]).
    repeat split; vm_compute; reflexivity.
  - apply (proj2 no_country_is_not_classified offlineEnv
             ["Temp"; "地球脉动"; "movie.nfo"] (stateOf sampleTempTree)
             (sampleNFO "movie" "地球脉动" [] ["纪录片"] "" "")
             [("movie.nfo", false)]).
    + vm_compute. reflexivity.
    + vm_compute. reflexivity.
    + vm_compute. reflexivity.
    + vm_compute. reflexivity.
    + vm_compute. reflexivity.
Defined.

(** C7, as stated, fails: a documentary genre is decided before the
    countries are looked at, so DetermineCategory classifies a documentary
    that has no country at all. *)
Lemma documentary_without_country_is_classified :
  DetermineCategory Strings.ToLowerASCII [] false ["纪录片"] = Ok CategoryJlShow /\
  DetermineCategory Strings.ToLowerASCII [] false ["纪录片"] <> Err ErrNoCountry.
Proof. split; vm_compute; [reflexivity | discriminate]. Qed.

(** ** Completeness detection *)

(** C5, at the failing input.  A series whose record has no season is in
    the catalog, written by the upsert of the run, and all three of its
    seasons are on disk.  Detection finds the series complete and calls the
    upsert to write the flag back; the upsert takes the branch for records
    without a season, whose SELECT asks for a category NOT LIKE '%Show',
    finds no row and inserts a second one.  The row that owns the series
    keeps is_complete = false. *)
Theorem detection_flag_misses_the_owning_row :
  let owned := snd (InsertOrUpdateMediaRecord 0 seasonlessSeriesRecord emptyDB) in
  let st0 := {| fs := completeSeriesTree; db := owned; log := []; world := 1 |} in
  let run := DetectMissingSeasonsAndEpisodes (onlineEnv false)
               seasonlessSeriesRecord st0 in
  map (fun row => (id row, title row, is_complete row)) (media_records owned) =
  [(1, Some "繁花", Some false)]%Z /\
  fst (fst run) = Ok tt /\
  IsComplete (snd (fst run)) = true /\
  missing_seasons (db (snd run)) = [] /\
  map (fun row => (id row, title row, is_complete row))
      (media_records (db (snd run))) =
  [(1, Some "繁花", Some false); (2, Some "繁花", Some true)]%Z.
Proof. repeat split; vm_compute; reflexivity. Qed.

(** The same in a whole run: one call of ClassifyAndMove on a new series
    without a season tag leaves two catalog rows for it. *)
Example one_run_two_rows :
  let st := snd (ClassifyAndMove (onlineEnv false)
                   ["Temp"; "繁花"; "tvshow.nfo"] (stateOf sampleTempTree)) in
  map (fun row => (id row, title row, category row, is_complete row))
      (media_records (db st)) =
  [(1, Some "繁花", Some "CnShow", Some false);
   (2, Some "繁花", Some "CnShow", Some false)]%Z /\
  map seasonKey (missingSeasonRows (db st)) =
  [("繁花", "200001", 2%Z); ("繁花", "200001", 3%Z)].
Proof. split; vm_compute; reflexivity. Qed.

Section DetectionSpec.

Variable env : Env.

Lemma seasonRange_In total i : In i (seasonRange total) <-> (1 <= i <= total)%Z.
Proof.
  unfold seasonRange. rewrite in_map_iff. split.
  - intros (k & <- & Hk). apply in_seq in Hk. lia.
  - intros H. exists (Z.to_nat i). split; [lia |]. apply in_seq. lia.
Qed.

Lemma recordIfMissing_unique mr existing i st :
  uniqueMissing (db st) ->
  uniqueMissing (db (recordIfMissing env mr existing i st)).
Proof.
  intros H. rewrite recordIfMissing_db.
  destruct (containsSeason existing i); [exact H |].
  apply InsertMissingSeason_unique. exact H.
Qed.

Lemma fold_recordIfMissing_unique mr existing l st :
  uniqueMissing (db st) ->
  uniqueMissing
    (db (fold_left (fun st i => recordIfMissing env mr existing i st) l st)).
Proof.
  revert st. induction l as [|i l IH]; intros st H; simpl; [exact H |].
  apply IH. apply recordIfMissing_unique. exact H.
Qed.

(** The rows the loop adds are rows of seasons of the list that are not on
    disk, with status 'missing'. *)
Lemma fold_recordIfMissing_rows mr existing l st row :
  In row (missing_seasons
            (db (fold_left (fun st i => recordIfMissing env mr existing i st)
                           l st))) ->
  In row (missing_seasons (db st)) \/
  (sTitle row = Title mr /\ sTMDbID row = TMDbID mr /\
   In (sSeason row) l /\ containsSeason existing (sSeason row) = false /\
   sStatus row = "missing").
Proof.
  revert st. induction l as [|i l IH]; intros st H; simpl in *; [auto |].
  destruct (IH _ H) as [Hin | (H1 & H2 & H3 & H4 & H5)]; [|tauto].
  rewrite recordIfMissing_db in Hin.
  destruct (containsSeason existing i) eqn:Hc; [auto |].
  unfold InsertMissingSeason in Hin.
  destruct (find _ (missing_seasons (db st))); simpl in Hin; [auto |].
  apply in_app_or in Hin. destruct Hin as [Hin | [<- | []]]; [auto |].
  right. simpl. auto.
Qed.

(** What detection does when the Metadata Service answers and the
    destination can be listed: it returns nil; every season from 1 to the
    total that is not on disk has a 'missing' row, rows are added for such
    seasons only, and the keys of the 'missing' rows stay distinct; the
    record gets the flag [len(existingSeasons) == totalSeasons] and is
    handed to the upsert. *)
Lemma DetectMissingSeasonsAndEpisodes_spec mediaRecord st total existing :
  TMDbID mediaRecord <> "" ->
  GetTVShowSeasons env (world st) (TMDbID mediaRecord) = Ok total ->
  GetExistingSeasons (fs st) (TargetPath mediaRecord) = Ok existing ->
  exists st' loop,
    let flagged :=
      setIsComplete (Z.of_nat (List.length existing) =? total)%Z mediaRecord in
    DetectMissingSeasonsAndEpisodes env mediaRecord st = (Ok tt, flagged, st') /\
    fs st' = fs st /\
    media_records (db loop) = media_records (db st) /\
    db st' = snd (InsertOrUpdateMediaRecord (Now env (world loop)) flagged
                                            (db loop)) /\
    (forall i, (1 <= i <= total)%Z -> containsSeason existing i = false ->
       existsb (selectsMissingSeason (missingSeasonOf mediaRecord i))
               (missing_seasons (db st')) = true) /\
    (forall row, In row (missing_seasons (db st')) ->
       In row (missing_seasons (db st)) \/
       (sTitle row = Title mediaRecord /\ sTMDbID row = TMDbID mediaRecord /\
        (1 <= sSeason row <= total)%Z /\
        containsSeason existing (sSeason row) = false /\
        sStatus row = "missing")) /\
    (uniqueMissing (db st) -> uniqueMissing (db st')).
Proof.
  intros Hid Hsvc Hdisk.
  set (loop := fold_left
                 (fun st i => recordIfMissing env mediaRecord existing i st)
                 (seasonRange total) (tick st)).
  set (flagged := setIsComplete (Z.of_nat (List.length existing) =? total)%Z
                                mediaRecord).
  pose proof (InsertOrUpdateMediaRecord_missing (Now env (world loop)) flagged
                (db loop)) as [Hs He].
  assert (Hrun : exists st',
             DetectMissingSeasonsAndEpisodes env mediaRecord st
             = (Ok tt, flagged, st') /\
             fs st' = fs loop /\
             db st' = snd (InsertOrUpdateMediaRecord (Now env (world loop))
                             flagged (db loop))).
  { unfold DetectMissingSeasonsAndEpisodes.
    apply String.eqb_neq in Hid. rewrite Hid, Hsvc.
    change (fs (tick st)) with (fs st). rewrite Hdisk.
    fold loop. fold flagged.
    destruct (InsertOrUpdateMediaRecord (Now env (world loop)) flagged
                (db loop)) as [[u|e] d']; eexists; simpl; auto. }
  destruct Hrun as (st' & Hrun & Hfs & Hdb).
  exists st', loop. cbv zeta. fold flagged.
  split; [exact Hrun |].
  split; [rewrite Hfs; apply (fold_recordIfMissing_fs env mediaRecord existing
                                _ (tick st)) |].
  split; [apply (fold_recordIfMissing_media env mediaRecord existing _ (tick st))
         |].
  split; [exact Hdb |].
  rewrite Hdb, Hs. split; [|split].
  - intros i Hi Hc. apply fold_recordIfMissing_ensures; [|exact Hc].
    apply seasonRange_In. exact Hi.
  - intros row Hrow.
    destruct (fold_recordIfMissing_rows mediaRecord existing _ (tick st) row Hrow)
      as [Hin | (H1 & H2 & H3 & H4 & H5)]; [left; exact Hin |].
    right. apply seasonRange_In in H3. auto.
  - intros [Hu1 Hu2].
    pose proof (fold_recordIfMissing_unique mediaRecord existing
                  (seasonRange total) (tick st) (conj Hu1 Hu2)) as [Hl1 Hl2].
    fold loop in Hl1, Hl2.
    split; unfold missingSeasonRows, missingEpisodeRows in *.
    + rewrite Hs. exact Hl1.
    + rewrite He. exact Hl2.
Qed.

End DetectionSpec.

(** ** The merge of a series into its destination *)

(** C3, at the failing input.  The destination holds season 1; the source
    brings season 1 again, with a file the destination does not have, and
    season 2.  The merge skips the season 1 of the source, moves season 2
    and then removes the source directory with all that is left in it: the
    skipped season 1 is gone, its files are in neither place.  The comment
    on the removal reads: delete the source directory if it is empty; the
    call is [os.RemoveAll].  It is the same across devices. *)
Theorem merge_removes_skipped_entries :
  let nfoPath := ["Temp"; "繁花"; "tvshow.nfo"] in
  let skipped := (["Temp"; "繁花"; "Season 1"; "E02.mkv"], "only here") in
  let after :=
    [(["Cloud"; "CnShow"; "繁花"; "Season 1"; "E01.mkv"], "old");
     (["Cloud"; "CnShow"; "繁花"; "tvshow.nfo"], "fanhua");
     (["Cloud"; "CnShow"; "繁花"; "Season 2"; "E01.mkv"], "s2e1")] in
  In skipped (filesOf [] secondDeliveryTree) /\
  forall crossDevice,
    let run := ClassifyAndMove (onlineEnv crossDevice) nfoPath
                               (stateOf secondDeliveryTree) in
    fst run = Ok tt /\
    In (LogSeasonExists 1) (log (snd run)) /\
    In LogSourceRemoved (log (snd run)) /\
    Stat (fs (snd run)) ["Temp"; "繁花"] = Err (ErrOs ENOENT) /\
    filesOf [] (fs (snd run)) = after /\
    ~ In "only here" (map snd (filesOf [] (fs (snd run)))).
Proof.
  split; [vm_compute; tauto |].
  intros [|]; vm_compute;
    (repeat split; try reflexivity; try tauto; intuition discriminate).
Qed.

(** The test of the loop for an entry that exists at the destination looks
    at the name only: a file whose name carries a season number that no
    directory of the destination has is moved onto the file of the same
    name there, which is replaced. *)
Example merge_replaces_file_of_same_name :
  let run := ClassifyAndMove (onlineEnv false) ["Temp"; "繁花"; "tvshow.nfo"]
                             (stateOf flatDeliveryTree) in
  HasNewSeasons flatDeliveryTree ["Temp"; "繁花"] ["Cloud"; "CnShow"; "繁花"]
  = Ok (true, [2%Z]) /\
  Stat flatDeliveryTree ["Cloud"; "CnShow"; "繁花"; "S01E01.mkv"]
  = Ok (File "old") /\
  fst run = Ok tt /\
  Stat (fs (snd run)) ["Cloud"; "CnShow"; "繁花"; "S01E01.mkv"]
  = Ok (File "new").
Proof. repeat split; vm_compute; reflexivity. Qed.

(** * The file system: entries, paths and the operations of package os *)

(** ** Directory entries *)

Lemma lookupEntry_setEntry_eq name node es :
  lookupEntry name (setEntry name node es) = Some node.
Proof.
  induction es as [|[n c] es IH]; simpl.
  - rewrite String.eqb_refl. reflexivity.
  - destruct (String.eqb n name) eqn:E; simpl.
    + rewrite String.eqb_refl. reflexivity.
    + rewrite E. exact IH.
Qed.

Lemma lookupEntry_setEntry_ne a b node es :
  a <> b -> lookupEntry b (setEntry a node es) = lookupEntry b es.
Proof.
  intros Hab. induction es as [|[n c] es IH]; simpl.
  - apply String.eqb_neq in Hab. rewrite Hab. reflexivity.
  - destruct (String.eqb n a) eqn:E; simpl.
    + apply String.eqb_eq in E. subst n.
      apply String.eqb_neq in Hab. rewrite Hab. reflexivity.
    + destruct (String.eqb n b); [reflexivity | exact IH].
Qed.

Lemma setEntry_setEntry name n1 n2 es :
  setEntry name n2 (setEntry name n1 es) = setEntry name n2 es.
Proof.
  induction es as [|[n c] es IH]; simpl.
  - rewrite String.eqb_refl. reflexivity.
  - destruct (String.eqb n name) eqn:E; simpl.
    + rewrite String.eqb_refl. reflexivity.
    + rewrite E, IH. reflexivity.
Qed.

Lemma setEntry_same name node es :
  lookupEntry name es = Some node -> setEntry name node es = es.
Proof.
  induction es as [|[n c] es IH]; simpl; [discriminate |].
  destruct (String.eqb n name) eqn:E.
  - apply String.eqb_eq in E. intros [= ->]. subst. reflexivity.
  - intros H. rewrite (IH H). reflexivity.
Qed.

Lemma setEntry_fresh name node es :
  lookupEntry name es = None -> setEntry name node es = es ++ [(name, node)].
Proof.
  induction es as [|[n c] es IH]; simpl; [reflexivity |].
  destruct (String.eqb n name); [discriminate |].
  intros H. rewrite (IH H). reflexivity.
Qed.

Lemma setEntry_comm a b na nb es :
  a <> b -> lookupEntry a es <> None -> lookupEntry b es <> None ->
  setEntry a na (setEntry b nb es) = setEntry b nb (setEntry a na es).
Proof.
  intros Hab. induction es as [|[n c] es IH]; simpl; [congruence |].
  destruct (String.eqb n a) eqn:Ea, (String.eqb n b) eqn:Eb; simpl.
  - apply String.eqb_eq in Ea, Eb. congruence.
  - intros _ Hb. apply String.eqb_eq in Ea. subst n.
    assert (Hba : String.eqb b a = false)
      by (apply String.eqb_neq; congruence).
    rewrite String.eqb_refl. 
    assert (Hab' : String.eqb a b = false) by (apply String.eqb_neq; exact Hab).
    rewrite Hab'. reflexivity.
  - intros Ha _. apply String.eqb_eq in Eb. subst n.
    rewrite String.eqb_refl.
    assert (Hba : String.eqb b a = false)
      by (apply String.eqb_neq; congruence).
    rewrite Hba. reflexivity.
  - intros Ha Hb. rewrite Ea, Eb. rewrite (IH Ha Hb). reflexivity.
Qed.

Lemma lookupEntry_removeEntry_eq name es :
  lookupEntry name (removeEntry name es) = None.
Proof.
  induction es as [|[n c] es IH]; simpl; [reflexivity |].
  destruct (String.eqb n name) eqn:E; simpl; [exact IH |].
  rewrite E. exact IH.
Qed.

Lemma lookupEntry_removeEntry_ne a b es :
  a <> b -> lookupEntry b (removeEntry a es) = lookupEntry b es.
Proof.
  intros Hab. induction es as [|[n c] es IH]; simpl; [reflexivity |].
  destruct (String.eqb n a) eqn:E; simpl.
  - apply String.eqb_eq in E. subst n.
    apply String.eqb_neq in Hab. rewrite Hab. exact IH.
  - destruct (String.eqb n b); [reflexivity | exact IH].
Qed.

Lemma removeEntry_setEntry name node es :
  removeEntry name (setEntry name node es) = removeEntry name es.
Proof.
  induction es as [|[n c] es IH]; simpl.
  - rewrite String.eqb_refl. reflexivity.
  - destruct (String.eqb n name) eqn:E; simpl.
    + rewrite String.eqb_refl. reflexivity.
    + rewrite E, IH. reflexivity.
Qed.

Lemma removeEntry_absent name es :
  ~ In name (map fst es) -> removeEntry name es = es.
Proof.
  induction es as [|[n c] es IH]; simpl; [reflexivity |].
  intros H. destruct (String.eqb n name) eqn:E.
  - apply String.eqb_eq in E. tauto.
  - rewrite IH; [reflexivity | tauto].
Qed.

Lemma lookupEntry_absent name es :
  ~ In name (map fst es) -> lookupEntry name es = None.
Proof.
  induction es as [|[n c] es IH]; simpl; [reflexivity |].
  intros H. destruct (String.eqb n name) eqn:E.
  - apply String.eqb_eq in E. tauto.
  - apply IH. tauto.
Qed.

Lemma lookupEntry_In name node es :
  lookupEntry name es = Some node -> In (name, node) es.
Proof.
  induction es as [|[n c] es IH]; simpl; [discriminate |].
  destruct (String.eqb n name) eqn:E.
  - apply String.eqb_eq in E. intros [= ->]. left. congruence.
  - intros H. right. exact (IH H).
Qed.

Lemma lookupEntry_app_absent name es1 es2 :
  ~ In name (map fst es1) ->
  lookupEntry name (es1 ++ es2) = lookupEntry name es2.
Proof.
  induction es1 as [|[n c] es1 IH]; simpl; [reflexivity |].
  intros H. destruct (String.eqb n name) eqn:E.
  - apply String.eqb_eq in E. tauto.
  - apply IH. tauto.
Qed.

Lemma removeEntry_app name es1 es2 :
  removeEntry name (es1 ++ es2) = removeEntry name es1 ++ removeEntry name es2.
Proof.
  induction es1 as [|[n c] es1 IH]; simpl; [reflexivity |].
  destruct (String.eqb n name); simpl; rewrite IH; reflexivity.
Qed.

(** ** Paths that do not meet *)

Lemma disjointPaths_sym p q : disjointPaths p q = disjointPaths q p.
Proof.
  revert q. induction p as [|a p IH]; intros [|b q]; simpl; try reflexivity.
  rewrite (String.eqb_sym a b). destruct (String.eqb b a); [apply IH | reflexivity].
Qed.

Lemma disjointPaths_app p q r s :
  disjointPaths p q = true -> disjointPaths (p ++ r) (q ++ s) = true.
Proof.
  revert q. induction p as [|a p IH]; intros [|b q]; simpl; try discriminate.
  destruct (String.eqb a b); [apply IH | reflexivity].
Qed.

Lemma disjointPaths_snoc p q x y :
  disjointPaths p q = true -> disjointPaths (p ++ [x]) (q ++ [y]) = true.
Proof. apply disjointPaths_app. Qed.

Lemma disjointPaths_snoc_l p q x :
  disjointPaths p q = true -> disjointPaths (p ++ [x]) q = true.
Proof.
  intros H. rewrite <- (app_nil_r q). apply disjointPaths_app. exact H.
Qed.

Lemma disjointPaths_snoc_r p q x :
  disjointPaths p q = true -> disjointPaths p (q ++ [x]) = true.
Proof.
  intros H. rewrite <- (app_nil_r p). apply disjointPaths_app. exact H.
Qed.

Lemma disjointPaths_neq p q : disjointPaths p q = true -> p <> q.
Proof.
  revert q. induction p as [|a p IH]; intros [|b q]; simpl; try discriminate.
  destruct (String.eqb a b) eqn:E.
  - intros H [= _ Hpq]. exact (IH q H Hpq).
  - intros _ [= Hab _]. apply String.eqb_neq in E. contradiction.
Qed.

Lemma disjointPaths_not_ancestor p q :
  disjointPaths p q = true -> isAncestor p q = false.
Proof.
  revert q. induction p as [|a p IH]; intros [|b q]; simpl; try discriminate.
  destruct (String.eqb a b); [apply IH | reflexivity].
Qed.

Lemma disjointPaths_nonempty p q :
  disjointPaths p q = true -> p <> [] /\ q <> [].
Proof. destruct p, q; simpl; try discriminate. split; discriminate. Qed.

Lemma path_eqb_false p q : p <> q -> path_eqb p q = false.
Proof.
  intros H. unfold path_eqb. destruct (list_eq_dec string_dec p q); tauto.
Qed.

Lemma Join_snoc p x : x <> "" -> Join p x = p ++ [x].
Proof.
  intros H. unfold Join. apply String.eqb_neq in H. rewrite H. reflexivity.
Qed.

Lemma DirOf_Join p x : x <> "" -> DirOf (Join p x) = p.
Proof. intros H. rewrite (Join_snoc p x H). apply removelast_last. Qed.

Lemma Base_Join p x : x <> "" -> Base (Join p x) = x.
Proof. intros H. rewrite (Join_snoc p x H). apply last_last. Qed.

(** ** Looking up and replacing directories *)

Lemma Stat_snoc fs p x entries :
  Stat fs p = Ok (Dir entries) ->
  Stat fs (p ++ [x]) =
  match lookupEntry x entries with
  | Some child => Ok child
  | None => Err (ErrOs ENOENT)
  end.
Proof.
  intros H. rewrite Stat_app, H. simpl.
  destruct (lookupEntry x entries); reflexivity.
Qed.

Lemma Stat_setDir fs p es es0 :
  Stat fs p = Ok (Dir es0) -> Stat (setDir p es fs) p = Ok (Dir es).
Proof.
  revert fs. induction p as [|a p IH]; intros fs; simpl.
  - intros [= ->]. reflexivity.
  - destruct fs as [data|entries]; [discriminate |].
    destruct (lookupEntry a entries) as [child|] eqn:E; [|discriminate].
    intros H. simpl. rewrite lookupEntry_setEntry_eq. apply IH. exact H.
Qed.

Lemma Stat_setDir_disjoint fs p q es :
  disjointPaths p q = true -> Stat (setDir p es fs) q = Stat fs q.
Proof.
  revert fs q. induction p as [|a p IH]; intros fs [|b q]; simpl;
    try discriminate.
  destruct fs as [data|entries]; [reflexivity |].
  destruct (lookupEntry a entries) as [child|] eqn:E; [|reflexivity].
  destruct (String.eqb a b) eqn:Eab.
  - apply String.eqb_eq in Eab. subst b. intros H. simpl.
    rewrite lookupEntry_setEntry_eq, E. apply IH. exact H.
  - intros _. simpl. apply String.eqb_neq in Eab.
    rewrite (lookupEntry_setEntry_ne _ _ _ _ Eab). reflexivity.
Qed.

Lemma setDir_setDir fs p es1 es2 es0 :
  Stat fs p = Ok (Dir es0) ->
  setDir p es2 (setDir p es1 fs) = setDir p es2 fs.
Proof.
  revert fs. induction p as [|a p IH]; intros fs; simpl.
  - intros [= ->]. reflexivity.
  - destruct fs as [data|entries]; [discriminate |].
    destruct (lookupEntry a entries) as [child|] eqn:E; [|discriminate].
    intros H. simpl. rewrite lookupEntry_setEntry_eq, setEntry_setEntry.
    rewrite (IH child H). reflexivity.
Qed.

Lemma setDir_same fs p es0 :
  Stat fs p = Ok (Dir es0) -> setDir p es0 fs = fs.
Proof.
  revert fs. induction p as [|a p IH]; intros fs; simpl.
  - intros [= ->]. reflexivity.
  - destruct fs as [data|entries]; [discriminate |].
    destruct (lookupEntry a entries) as [child|] eqn:E; [|discriminate].
    intros H. rewrite (IH child H). rewrite (setEntry_same _ _ _ E).
    reflexivity.
Qed.

Lemma setDir_comm fs p q e1 e2 :
  disjointPaths p q = true ->
  setDir p e1 (setDir q e2 fs) = setDir q e2 (setDir p e1 fs).
Proof.
  revert fs q. induction p as [|a p IH]; intros fs [|b q]; simpl;
    try discriminate.
  destruct fs as [data|entries]; [reflexivity |].
  destruct (String.eqb a b) eqn:Eab.
  - apply String.eqb_eq in Eab. subst b. intros H.
    destruct (lookupEntry a entries) as [child|] eqn:E; simpl.
    + rewrite !lookupEntry_setEntry_eq, !setEntry_setEntry.
      rewrite (IH child q H). reflexivity.
    + rewrite E. reflexivity.
  - intros _. apply String.eqb_neq in Eab.
    assert (Hba : b <> a) by congruence.
    destruct (lookupEntry a entries) as [ca|] eqn:Ea,
             (lookupEntry b entries) as [cb|] eqn:Eb; simpl.
    + rewrite (lookupEntry_setEntry_ne _ _ _ _ Hba), Ea.
      rewrite (lookupEntry_setEntry_ne _ _ _ _ Eab), Eb.
      rewrite setEntry_comm; [reflexivity | exact Eab | congruence | congruence].
    + rewrite Ea. rewrite (lookupEntry_setEntry_ne _ _ _ _ Eab), Eb.
      reflexivity.
    + rewrite (lookupEntry_setEntry_ne _ _ _ _ Hba), Ea. reflexivity.
    + rewrite Ea. reflexivity.
Qed.

(** Replacing the entries of a subdirectory is replacing its entry. *)
Lemma setDir_snoc fs p x es es0 c :
  Stat fs p = Ok (Dir es0) ->
  lookupEntry x es0 = Some (Dir c) ->
  setDir (p ++ [x]) es fs = setDir p (setEntry x (Dir es) es0) fs.
Proof.
  revert fs. induction p as [|a p IH]; intros fs; simpl.
  - intros [= ->] Hx. rewrite Hx. reflexivity.
  - destruct fs as [data|entries]; [discriminate |].
    destruct (lookupEntry a entries) as [child|] eqn:E; [|discriminate].
    intros H Hx. rewrite (IH child H Hx). reflexivity.
Qed.

Lemma withDir_setDir fs p f es0 :
  Stat fs p = Ok (Dir es0) -> withDir p f fs = Ok (setDir p (f es0) fs).
Proof.
  revert fs. induction p as [|a p IH]; intros fs; simpl.
  - intros [= ->]. reflexivity.
  - destruct fs as [data|entries]; [discriminate |].
    destruct (lookupEntry a entries) as [child|] eqn:E; [|discriminate].
    intros H. rewrite (IH child H). reflexivity.
Qed.

(** With two directories that do not meet, the last replacement of each
    counts. *)
Lemma setDir_normal fs p q a1 a2 b1 b2 ep eq :
  disjointPaths p q = true ->
  Stat fs p = Ok (Dir ep) -> Stat fs q = Ok (Dir eq) ->
  setDir q b2 (setDir p a2 (setDir q b1 (setDir p a1 fs))) =
  setDir q b2 (setDir p a2 fs).
Proof.
  intros Hd Hp Hq.
  rewrite (setDir_comm (setDir p a1 fs) p q a2 b1 Hd).
  rewrite (setDir_setDir _ q b1 b2 eq).
  - rewrite (setDir_setDir fs p a1 a2 ep Hp). reflexivity.
  - rewrite (Stat_setDir_disjoint _ p q _ Hd).
    rewrite (Stat_setDir_disjoint _ p q _ Hd). exact Hq.
Qed.

(** ** The operations of package os on a tree *)

Lemma DirOf_snoc (p : Path) x : DirOf (p ++ [x]) = p.
Proof. apply removelast_last. Qed.

Lemma Base_snoc (p : Path) x : Base (p ++ [x]) = x.
Proof. apply last_last. Qed.

Lemma unlinkAt_snoc fs p x es :
  Stat fs p = Ok (Dir es) ->
  unlinkAt (p ++ [x]) fs = Ok (setDir p (removeEntry x es) fs).
Proof.
  intros H. unfold unlinkAt.
  rewrite DirOf_snoc, Base_snoc.
  apply withDir_setDir. exact H.
Qed.

Lemma plantAt_snoc fs p x node es :
  Stat fs p = Ok (Dir es) ->
  plantAt (p ++ [x]) node fs = Ok (setDir p (setEntry x node es) fs).
Proof.
  intros H. unfold plantAt.
  rewrite DirOf_snoc, Base_snoc.
  apply withDir_setDir. exact H.
Qed.

Lemma mkdirAlong_snoc fs p x es :
  Stat fs p = Ok (Dir es) -> lookupEntry x es = None ->
  mkdirAlong fs (p ++ [x]) = Ok (setDir p (setEntry x (Dir []) es) fs).
Proof.
  revert fs. induction p as [|a p IH]; intros fs; simpl.
  - intros [= ->] Hx. rewrite Hx. reflexivity.
  - destruct fs as [data|entries]; [discriminate |].
    destruct (lookupEntry a entries) as [child|] eqn:E; [|discriminate].
    intros H Hx. rewrite (IH child H Hx). reflexivity.
Qed.

Lemma MkdirAll_snoc fs p x es :
  Stat fs p = Ok (Dir es) -> lookupEntry x es = None ->
  MkdirAll fs (p ++ [x]) = Ok (setDir p (setEntry x (Dir []) es) fs).
Proof.
  intros H Hx. unfold MkdirAll. rewrite (Stat_snoc fs p x es H), Hx.
  apply mkdirAlong_snoc; assumption.
Qed.

Lemma MkdirAll_existing fs p es :
  Stat fs p = Ok (Dir es) -> MkdirAll fs p = Ok fs.
Proof. intros H. unfold MkdirAll. rewrite H. reflexivity. Qed.

Lemma snoc_not_nil (p : Path) x : p ++ [x] <> [].
Proof. destruct p; discriminate. Qed.

Lemma RemoveAll_snoc fs p x es :
  Stat fs p = Ok (Dir es) ->
  RemoveAll fs (p ++ [x]) = Ok (setDir p (removeEntry x es) fs).
Proof.
  intros H. unfold RemoveAll. rewrite (unlinkAt_snoc fs p x es H).
  destruct (p ++ [x]) eqn:E; [destruct (snoc_not_nil p x E) | reflexivity].
Qed.

Section DeviceFacts.

Variable xdev : Path -> Path -> bool.

(** A rename to a name that is free in a directory elsewhere, on one device:
    the entry leaves the one directory and enters the other. *)
Lemma Rename_fresh fs S D x y node eS eD :
  disjointPaths S D = true ->
  Stat fs S = Ok (Dir eS) -> Stat fs D = Ok (Dir eD) ->
  lookupEntry x eS = Some node -> lookupEntry y eD = None ->
  xdev (S ++ [x]) (D ++ [y]) = false ->
  Rename xdev fs (S ++ [x]) (D ++ [y]) =
  Ok (setDir D (setEntry y node eD) (setDir S (removeEntry x eS) fs)).
Proof.
  intros Hd HS HD Hx Hy Hdev.
  assert (Hsrc : Stat fs (S ++ [x]) = Ok node)
    by (rewrite (Stat_snoc fs S x eS HS), Hx; reflexivity).
  assert (Hdst : Stat fs (D ++ [y]) = Err (ErrOs ENOENT))
    by (rewrite (Stat_snoc fs D y eD HD), Hy; reflexivity).
  unfold Rename. rewrite Hdst.
  assert (Hbody : sysRename xdev fs (S ++ [x]) (D ++ [y]) =
                  match unlinkAt (S ++ [x]) fs with
                  | Err e => Err e
                  | Ok fs1 => plantAt (D ++ [y]) node fs1
                  end).
  { unfold sysRename.
    rewrite !DirOf_snoc, HS, HD, Hdev, Hsrc, Hdst.
    rewrite (path_eqb_false _ _ (disjointPaths_neq _ _
                                   (disjointPaths_snoc S D x y Hd))).
    rewrite (disjointPaths_not_ancestor _ _ (disjointPaths_snoc S D x y Hd)).
    destruct (S ++ [x]) eqn:E1; [destruct (snoc_not_nil S x E1) |].
    destruct (D ++ [y]) eqn:E2; [destruct (snoc_not_nil D y E2) |].
    destruct node; reflexivity. }
  rewrite Hbody, (unlinkAt_snoc fs S x eS HS).
  apply plantAt_snoc.
  rewrite (Stat_setDir_disjoint fs S D _ Hd). exact HD.
Qed.

(** Across devices the rename fails, and not for a missing file. *)
Lemma Rename_xdev fs S D x y eS eD :
  Stat fs S = Ok (Dir eS) -> Stat fs D = Ok (Dir eD) ->
  lookupEntry y eD = None ->
  xdev (S ++ [x]) (D ++ [y]) = true ->
  Rename xdev fs (S ++ [x]) (D ++ [y]) = Err (ErrOs EXDEV).
Proof.
  intros HS HD Hy Hdev.
  assert (Hdst : Stat fs (D ++ [y]) = Err (ErrOs ENOENT))
    by (rewrite (Stat_snoc fs D y eD HD), Hy; reflexivity).
  unfold Rename. rewrite Hdst. unfold sysRename.
  rewrite !DirOf_snoc, HS, HD, Hdev.
  destruct (S ++ [x]) eqn:E1; [destruct (snoc_not_nil S x E1) |].
  destruct (D ++ [y]) eqn:E2; [destruct (snoc_not_nil D y E2) |].
  reflexivity.
Qed.

End DeviceFacts.

(** A file copied to a free name: the name holds the data, the source
    stays. *)
Lemma copyFile_fresh fs S D x y data eS eD :
  Stat fs S = Ok (Dir eS) -> Stat fs D = Ok (Dir eD) ->
  lookupEntry x eS = Some (File data) -> lookupEntry y eD = None ->
  copyFile fs (S ++ [x]) (D ++ [y]) =
  (Ok tt, setDir D (setEntry y (File data) eD) fs).
Proof.
  intros HS HD Hx Hy. unfold copyFile.
  assert (Hdst : Stat fs (D ++ [y]) = Err (ErrOs ENOENT))
    by (rewrite (Stat_snoc fs D y eD HD), Hy; reflexivity).
  rewrite (Stat_snoc fs S x eS HS), Hx.
  rewrite (plantAt_snoc fs D y (File "") eD HD).
  rewrite (plantAt_snoc _ D y (File data) (setEntry y (File "") eD)
             (Stat_setDir fs D _ eD HD)).
  rewrite setEntry_setEntry, (setDir_setDir fs D _ _ eD HD).
  revert Hdst.
  destruct (D ++ [y]) eqn:E; [destruct (snoc_not_nil D y E) |].
  intros ->. reflexivity.
Qed.

(** ** Trees in the order of ReadDir *)

Lemma ltb_irrefl a : String.ltb a a = false.
Proof.
  unfold String.ltb.
  pose proof (String.compare_antisym a a) as H.
  destruct (String.compare a a); simpl in H; try discriminate; reflexivity.
Qed.

Lemma ltb_leb a b : String.ltb a b = true -> String.leb a b = true.
Proof.
  unfold String.ltb, String.leb. destruct (String.compare a b);
    try discriminate; reflexivity.
Qed.

Lemma sortedNames_NoDup names : sortedNames names = true -> NoDup names.
Proof.
  induction names as [|a rest IH]; simpl; [constructor |].
  intros H. apply andb_true_iff in H. destruct H as [Ha Hrest].
  constructor; [|exact (IH Hrest)].
  intros Hin. rewrite forallb_forall in Ha. specialize (Ha a Hin).
  rewrite ltb_irrefl in Ha. discriminate.
Qed.

Lemma sortByName_sorted es :
  sortedNames (map fst es) = true ->
  sortByName (map dirEntry es) = map dirEntry es.
Proof.
  induction es as [|e es IH]; simpl; [reflexivity |].
  intros H. apply andb_true_iff in H. destruct H as [Ha Hrest].
  unfold sortByName in *. simpl. rewrite (IH Hrest).
  destruct es as [|e' es']; simpl; [reflexivity |].
  simpl in Ha. apply andb_true_iff in Ha. destruct Ha as [Ha _].
  rewrite (ltb_leb _ _ Ha). reflexivity.
Qed.

Lemma ReadDir_canonical fs p es :
  Stat fs p = Ok (Dir es) -> sortedNames (map fst es) = true ->
  ReadDir fs p = Ok (map dirEntry es).
Proof.
  intros H Hs. rewrite (ReadDir_of_dir fs p es H).
  f_equal. exact (sortByName_sorted es Hs).
Qed.

Lemma canonical_entry es e :
  canonical (Dir es) = true -> In e es ->
  fst e <> "" /\ canonical (snd e) = true.
Proof.
  simpl. intros H Hin. apply andb_true_iff in H. destruct H as [_ H].
  rewrite forallb_forall in H. specialize (H e Hin).
  apply andb_true_iff in H. destruct H as [Hn Hc].
  split; [| exact Hc].
  apply negb_true_iff in Hn. apply String.eqb_neq. exact Hn.
Qed.

Lemma canonical_child es e :
  canonical (Dir es) = true -> In e es -> canonical (snd e) = true.
Proof. intros H Hin. exact (proj2 (canonical_entry es e H Hin)). Qed.

Lemma canonical_names es :
  canonical (Dir es) = true -> sortedNames (map fst es) = true.
Proof. simpl. intros H. apply andb_true_iff in H. tauto. Qed.

Lemma height_child es e : In e es -> (height (snd e) < height (Dir es))%nat.
Proof.
  simpl. induction es as [|e' es IH]; simpl; [tauto |].
  intros [-> | Hin]; [lia |]. specialize (IH Hin). lia.
Qed.

(** ** MoveDirectory *)

Lemma keepFiles_app es1 es2 :
  keepFiles (es1 ++ es2) = keepFiles es1 ++ keepFiles es2.
Proof. apply filter_app. Qed.

Lemma keepFiles_names name es :
  ~ In name (map fst es) -> ~ In name (map fst (keepFiles es)).
Proof.
  intros H Hin. apply H. apply in_map_iff in Hin.
  destruct Hin as (e & <- & He). apply in_map. apply filter_In in He. tauto.
Qed.

Lemma NoDup_names_split (done todo : list (string * Node)) name c :
  NoDup (map fst (done ++ (name, c) :: todo)) ->
  ~ In name (map fst done) /\ ~ In name (map fst todo).
Proof.
  rewrite map_app. simpl. intros H.
  apply NoDup_remove_2 in H. split; intros Hin; apply H; apply in_or_app; tauto.
Qed.

Lemma setDir_normal3 fs p q a2 b1 b2 eq :
  disjointPaths p q = true -> Stat fs q = Ok (Dir eq) ->
  setDir q b2 (setDir p a2 (setDir q b1 fs)) = setDir q b2 (setDir p a2 fs).
Proof.
  intros Hd Hq. rewrite (setDir_comm fs p q a2 b1 Hd).
  apply (setDir_setDir _ q b1 b2 eq).
  rewrite (Stat_setDir_disjoint fs p q _ Hd). exact Hq.
Qed.

(** The loop of the copy mode over entries whose names are free at the
    destination: when [move] moves a subdirectory as a rename would, the
    destination has every entry in the end and the source keeps the
    files. *)
Lemma copyEntries_fresh move S D :
  disjointPaths S D = true ->
  forall todo done F,
    NoDup (map fst (done ++ todo)) ->
    (forall e, In e todo -> fst e <> "") ->
    (forall G eS eD name c,
        In (name, c) todo -> isDirNode c = true ->
        Stat G S = Ok (Dir eS) -> Stat G D = Ok (Dir eD) ->
        lookupEntry name eS = Some c -> lookupEntry name eD = None ->
        move G (S ++ [name]) (D ++ [name]) =
        (Ok tt, setDir D (setEntry name c eD)
                  (setDir S (removeEntry name eS) G))) ->
    Stat F S = Ok (Dir (keepFiles done ++ todo)) ->
    Stat F D = Ok (Dir done) ->
    copyEntries move S D (map dirEntry todo) F =
    (Ok tt, setDir D (done ++ todo) (setDir S (keepFiles (done ++ todo)) F)).
Proof.
  intros Hd.
  assert (Hd' : disjointPaths D S = true) by (rewrite disjointPaths_sym; exact Hd).
  induction todo as [|[name c] todo IH]; intros done F Hnd Hne Hmove HS HD.
  - simpl. rewrite app_nil_r in *.
    rewrite (setDir_same F S _ HS), (setDir_same F D _ HD). reflexivity.
  - destruct (NoDup_names_split done todo name c Hnd) as [Hdone Htodo].
    assert (Hsrc : lookupEntry name (keepFiles done ++ (name, c) :: todo)
                   = Some c).
    { rewrite (lookupEntry_app_absent _ _ _ (keepFiles_names _ _ Hdone)).
      simpl. rewrite String.eqb_refl. reflexivity. }
    assert (Hdst : lookupEntry name done = None)
      by exact (lookupEntry_absent _ _ Hdone).
    assert (Hnd' : NoDup (map fst ((done ++ [(name, c)]) ++ todo)))
      by (rewrite <- app_assoc; exact Hnd).
    assert (Hmove' : forall G eS eD name' c',
               In (name', c') todo -> isDirNode c' = true ->
               Stat G S = Ok (Dir eS) -> Stat G D = Ok (Dir eD) ->
               lookupEntry name' eS = Some c' -> lookupEntry name' eD = None ->
               move G (S ++ [name']) (D ++ [name']) =
               (Ok tt, setDir D (setEntry name' c' eD)
                         (setDir S (removeEntry name' eS) G))).
    { intros G eS eD name' c' Hin. apply Hmove. right. exact Hin. }
    assert (Hne' : forall e, In e todo -> fst e <> "")
      by (intros e He; apply Hne; right; exact He).
    cbn [map dirEntry fst snd copyEntries].
    rewrite !(Join_snoc _ name (Hne (name, c) (or_introl eq_refl))).
    destruct c as [data|cs]; cbn [isDirNode].
    + rewrite (copyFile_fresh F S D name name data _ _ HS HD Hsrc Hdst).
      rewrite (setEntry_fresh _ _ _ Hdst).
      rewrite (IH (done ++ [(name, File data)]) _ Hnd' Hne' Hmove').
      * rewrite <- !app_assoc. cbn [app].
        rewrite (setDir_normal3 F S D _ _ _ done Hd HD). reflexivity.
      * rewrite (Stat_setDir_disjoint F D S _ Hd'), HS.
        rewrite keepFiles_app, <- app_assoc. reflexivity.
      * apply (Stat_setDir F D _ done HD).
    + rewrite (Hmove F _ _ name (Dir cs) (or_introl eq_refl) eq_refl HS HD
                 Hsrc Hdst).
      rewrite (setEntry_fresh _ _ _ Hdst).
      rewrite removeEntry_app. cbn [removeEntry]. rewrite String.eqb_refl.
      rewrite (removeEntry_absent _ _ (keepFiles_names _ _ Hdone)).
      rewrite (removeEntry_absent _ _ Htodo).
      rewrite (IH (done ++ [(name, Dir cs)]) _ Hnd' Hne' Hmove').
      * rewrite <- !app_assoc. cbn [app].
        rewrite (setDir_normal F S D _ _ _ _ _ done Hd HS HD). reflexivity.
      * rewrite (Stat_setDir_disjoint _ D S _ Hd').
        rewrite (Stat_setDir F S _ _ HS).
        rewrite keepFiles_app. cbn [keepFiles filter snd isDirNode negb].
        rewrite app_nil_r. reflexivity.
      * apply (Stat_setDir _ D _ done).
        rewrite (Stat_setDir_disjoint F S D _ Hd). exact HD.
Qed.

Section MoveDirectoryFacts.

Variable xdev : Path -> Path -> bool.

(** A directory moved to a name that is free in a directory elsewhere: the
    result is that of a rename on one device, whichever of the renames on
    the way fail for crossing devices. *)
Lemma MoveDirectoryRec_fresh :
  forall depth fs S D x y n eS eD,
    disjointPaths S D = true ->
    Stat fs S = Ok (Dir eS) -> Stat fs D = Ok (Dir eD) ->
    lookupEntry x eS = Some n -> lookupEntry y eD = None ->
    isDirNode n = true -> canonical n = true -> (height n < depth)%nat ->
    MoveDirectoryRec xdev depth fs (S ++ [x]) (D ++ [y]) =
    (Ok tt, setDir D (setEntry y n eD) (setDir S (removeEntry x eS) fs)).
Proof.
  induction depth as [|depth IH];
    intros fs S D x y n eS eD Hd HS HD Hx Hy Hdir Hcan Hh; [lia |].
  cbn [MoveDirectoryRec].
  destruct (xdev (S ++ [x]) (D ++ [y])) eqn:Hdev.
  2:{ rewrite (Rename_fresh xdev fs S D x y n eS eD Hd HS HD Hx Hy Hdev).
      reflexivity. }
  rewrite (Rename_xdev xdev fs S D x y eS eD HS HD Hy Hdev).
  cbn [IsNotExist negb].
  rewrite (MkdirAll_snoc fs D y eD HD Hy).
  set (fs1 := setDir D (setEntry y (Dir []) eD) fs).
  destruct n as [data|en]; [discriminate |].
  assert (Hd' : disjointPaths D S = true) by (rewrite disjointPaths_sym; exact Hd).
  assert (HS1 : Stat fs1 S = Ok (Dir eS))
    by (unfold fs1; rewrite (Stat_setDir_disjoint fs D S _ Hd'); exact HS).
  assert (HD1 : Stat fs1 D = Ok (Dir (setEntry y (Dir []) eD)))
    by (apply (Stat_setDir fs D _ eD HD)).
  assert (Hsrc1 : Stat fs1 (S ++ [x]) = Ok (Dir en))
    by (rewrite (Stat_snoc fs1 S x eS HS1), Hx; reflexivity).
  assert (Hdst1 : Stat fs1 (D ++ [y]) = Ok (Dir []))
    by (rewrite (Stat_snoc fs1 D y _ HD1), lookupEntry_setEntry_eq; reflexivity).
  rewrite (ReadDir_canonical fs1 (S ++ [x]) en Hsrc1 (canonical_names en Hcan)).
  rewrite (copyEntries_fresh (MoveDirectoryRec xdev depth) (S ++ [x]) (D ++ [y])
             (disjointPaths_snoc S D x y Hd) en [] fs1).
  - cbn [app].
    (* the two directories as entries of their parents *)
    rewrite (setDir_snoc fs1 S x (keepFiles en) eS en HS1 Hx).
    set (G2 := setDir S (setEntry x (Dir (keepFiles en)) eS) fs1).
    assert (HD2 : Stat G2 D = Ok (Dir (setEntry y (Dir []) eD)))
      by (unfold G2; rewrite (Stat_setDir_disjoint fs1 S D _ Hd); exact HD1).
    rewrite (setDir_snoc G2 D y en _ [] HD2 (lookupEntry_setEntry_eq _ _ _)).
    rewrite setEntry_setEntry.
    set (F2 := setDir D (setEntry y (Dir en) eD) G2).
    assert (HS2 : Stat F2 S = Ok (Dir (setEntry x (Dir (keepFiles en)) eS))).
    { unfold F2. rewrite (Stat_setDir_disjoint G2 D S _ Hd').
      apply (Stat_setDir fs1 S _ eS HS1). }
    rewrite (RemoveAll_snoc F2 S x _ HS2). rewrite removeEntry_setEntry.
    f_equal. unfold F2, G2, fs1.
    rewrite (setDir_comm _ S D _ _ Hd).
    rewrite (setDir_setDir _ S _ _ eS).
    + rewrite (setDir_comm fs S D _ _ Hd).
      apply (setDir_setDir _ D _ _ eD).
      rewrite (Stat_setDir_disjoint fs S D _ Hd). exact HD.
    + rewrite (Stat_setDir_disjoint fs D S _ Hd'). exact HS.
  - cbn [app]. apply sortedNames_NoDup. exact (canonical_names en Hcan).
  - intros e He. exact (proj1 (canonical_entry en e Hcan He)).
  - intros G eS' eD' name c Hin Hc HGS HGD Hn Hn'.
    apply (IH G (S ++ [x]) (D ++ [y]) name name c eS' eD'
              (disjointPaths_snoc S D x y Hd) HGS HGD Hn Hn' Hc).
    + exact (canonical_child en (name, c) Hcan Hin).
    + pose proof (height_child en (name, c) Hin) as Hlt. simpl in Hlt.
      simpl in Hh. lia.
  - exact Hsrc1.
  - exact Hdst1.
Qed.

Lemma MoveDirectory_fresh fs S D x y n eS eD :
  disjointPaths S D = true ->
  Stat fs S = Ok (Dir eS) -> Stat fs D = Ok (Dir eD) ->
  lookupEntry x eS = Some n -> lookupEntry y eD = None ->
  isDirNode n = true -> canonical n = true ->
  MoveDirectory xdev fs (S ++ [x]) (D ++ [y]) =
  (Ok tt, setDir D (setEntry y n eD) (setDir S (removeEntry x eS) fs)).
Proof.
  intros Hd HS HD Hx Hy Hdir Hcan. unfold MoveDirectory.
  rewrite (Stat_snoc fs S x eS HS), Hx.
  apply MoveDirectoryRec_fresh; auto.
Qed.

End MoveDirectoryFacts.

(** * MoveDirectory and copyFile *)

Lemma Stat_prefix_err fs p x e :
  Stat fs p = Err e -> Stat fs (p ++ [x]) = Err e.
Proof.
  revert fs. induction p as [|a p IH]; intros fs; simpl; [discriminate |].
  destruct fs as [data|entries]; [tauto |].
  destruct (lookupEntry a entries); [apply IH | tauto].
Qed.

Lemma Stat_prefix_file fs p x data :
  Stat fs p = Ok (File data) -> Stat fs (p ++ [x]) = Err (ErrOs ENOTDIR).
Proof.
  revert fs. induction p as [|a p IH]; intros fs; simpl.
  - intros H. injection H as ->. reflexivity.
  - destruct fs as [d|entries]; [discriminate |].
    destruct (lookupEntry a entries); [apply IH | discriminate].
Qed.

Section MoveDirectoryProperties.

Variable xdev : Path -> Path -> bool.

(** X1.  MoveDirectory on a directory whose destination name is free, the
    two parents being directories on different branches of the tree: the
    call succeeds, the directory is found at the destination as it was at
    the source, the source path is gone, the other entries of the two
    parents and every path on other branches are as before.  This holds
    whichever renames fail for crossing a device boundary, i.e. the copy
    mode gives what the rename gives.  The moved tree lists its entries in
    the order of os.ReadDir. *)
Theorem MoveDirectory_moves_directory fs S D x y n eS eD :
  disjointPaths S D = true ->
  Stat fs S = Ok (Dir eS) -> Stat fs D = Ok (Dir eD) ->
  lookupEntry x eS = Some n -> lookupEntry y eD = None ->
  isDirNode n = true -> canonical n = true ->
  exists fs',
    MoveDirectory xdev fs (S ++ [x]) (D ++ [y]) = (Ok tt, fs') /\
    Stat fs' (D ++ [y]) = Ok n /\
    Stat fs' (S ++ [x]) = Err (ErrOs ENOENT) /\
    Stat fs' S = Ok (Dir (removeEntry x eS)) /\
    Stat fs' D = Ok (Dir (setEntry y n eD)) /\
    (forall q, disjointPaths S q = true -> disjointPaths D q = true ->
               Stat fs' q = Stat fs q).
Proof.
  intros Hd HS HD Hx Hy Hdir Hcan.
  assert (Hd' : disjointPaths D S = true) by (rewrite disjointPaths_sym; exact Hd).
  exists (setDir D (setEntry y n eD) (setDir S (removeEntry x eS) fs)).
  assert (HS' : Stat (setDir D (setEntry y n eD) (setDir S (removeEntry x eS) fs)) S
                = Ok (Dir (removeEntry x eS))).
  { rewrite (Stat_setDir_disjoint _ D S _ Hd'). exact (Stat_setDir fs S _ eS HS). }
  assert (HD' : Stat (setDir D (setEntry y n eD) (setDir S (removeEntry x eS) fs)) D
                = Ok (Dir (setEntry y n eD))).
  { apply (Stat_setDir _ D _ eD).
    rewrite (Stat_setDir_disjoint fs S D _ Hd). exact HD. }
  split; [exact (MoveDirectory_fresh xdev fs S D x y n eS eD Hd HS HD Hx Hy Hdir Hcan) |].
  split; [rewrite (Stat_snoc _ D y _ HD'), lookupEntry_setEntry_eq; reflexivity |].
  split; [rewrite (Stat_snoc _ S x _ HS'), lookupEntry_removeEntry_eq; reflexivity |].
  split; [exact HS' |]. split; [exact HD' |].
  intros q HSq HDq.
  rewrite (Stat_setDir_disjoint _ D q _ HDq).
  exact (Stat_setDir_disjoint fs S q _ HSq).
Qed.

(** X2.  A source that does not exist, on one device, below a destination
    parent that is a directory: MoveDirectory fails with the error of a
    missing source and the tree is unchanged. *)
Theorem MoveDirectory_missing_source fs src dst eD :
  Stat fs src = Err (ErrOs ENOENT) ->
  Stat fs (DirOf dst) = Ok (Dir eD) ->
  xdev src dst = false ->
  MoveDirectory xdev fs src dst = (Err ErrSourceMissing, fs).
Proof.
  intros Hsrc HD Hdev. unfold MoveDirectory. rewrite Hsrc.
  cbn [MoveDirectoryRec].
  assert (Hren : Rename xdev fs src dst = Err (ErrOs ENOENT)).
  { unfold Rename. rewrite Hsrc.
    destruct dst as [|b dst'].
    - simpl in HD. injection HD as ->. reflexivity.
    - assert (Hsys : sysRename xdev fs src (b :: dst') = Err (ErrOs ENOENT)).
      { unfold sysRename.
        destruct src as [|a src']; [discriminate |].
        rewrite HD, Hdev, Hsrc.
        destruct (Stat fs (DirOf (a :: src'))) as [[data|es]|e] eqn:E.
        + pose proof (Stat_prefix_file _ _ (Base (a :: src')) _ E) as H.
          rewrite <- (path_split (a :: src')) in H by discriminate.
          congruence.
        + reflexivity.
        + pose proof (Stat_prefix_err _ _ (Base (a :: src')) _ E) as H.
          rewrite <- (path_split (a :: src')) in H by discriminate.
          congruence. }
      destruct (Stat fs (b :: dst')) as [[data|es]|e]; try exact Hsys.
      reflexivity. }
  rewrite Hren. reflexivity.
Qed.

(** X3.  A destination whose parent directory does not exist: rename(2)
    answers ENOENT, which MoveDirectory takes for a missing source; it fails
    with that error although the source exists, makes no directory and
    moves nothing, on one device or across devices. *)
Theorem MoveDirectory_missing_destination_parent fs src dst node :
  src <> [] ->
  Stat fs src = Ok node ->
  Stat fs (DirOf dst) = Err (ErrOs ENOENT) ->
  MoveDirectory xdev fs src dst = (Err ErrSourceMissing, fs).
Proof.
  intros Hne Hsrc HD. unfold MoveDirectory. rewrite Hsrc.
  cbn [MoveDirectoryRec].
  destruct dst as [|b dst']; [discriminate |].
  assert (Hdst : Stat fs (b :: dst') = Err (ErrOs ENOENT)).
  { rewrite (path_split (b :: dst')) by discriminate.
    apply Stat_prefix_err. exact HD. }
  destruct (Stat_parent fs src node Hne Hsrc) as (es & Hpar & _).
  assert (Hren : Rename xdev fs src (b :: dst') = Err (ErrOs ENOENT)).
  { unfold Rename. rewrite Hdst. unfold sysRename.
    destruct src as [|a src']; [contradiction |].
    rewrite Hpar, HD. reflexivity. }
  rewrite Hren. reflexivity.
Qed.

(** X4.  MoveDirectory on a plain file that would cross a device boundary,
    to a free name: the copy mode makes a directory of the destination
    name, fails to list the source (not a directory) and returns that
    error; the file stays where it was and the empty directory stays at the
    destination. *)
Theorem MoveDirectory_file_across_devices fs S D x y data eS eD :
  disjointPaths S D = true ->
  Stat fs S = Ok (Dir eS) -> Stat fs D = Ok (Dir eD) ->
  lookupEntry x eS = Some (File data) -> lookupEntry y eD = None ->
  xdev (S ++ [x]) (D ++ [y]) = true ->
  exists fs',
    MoveDirectory xdev fs (S ++ [x]) (D ++ [y]) = (Err (ErrOs ENOTDIR), fs') /\
    Stat fs' (S ++ [x]) = Ok (File data) /\
    Stat fs' (D ++ [y]) = Ok (Dir []).
Proof.
  intros Hd HS HD Hx Hy Hdev.
  assert (Hd' : disjointPaths D S = true) by (rewrite disjointPaths_sym; exact Hd).
  set (fs1 := setDir D (setEntry y (Dir []) eD) fs).
  assert (HS1 : Stat fs1 S = Ok (Dir eS))
    by (unfold fs1; rewrite (Stat_setDir_disjoint fs D S _ Hd'); exact HS).
  assert (Hsrc1 : Stat fs1 (S ++ [x]) = Ok (File data))
    by (rewrite (Stat_snoc fs1 S x eS HS1), Hx; reflexivity).
  exists fs1. split; [| split].
  - unfold MoveDirectory.
    rewrite (Stat_snoc fs S x eS HS), Hx. cbn [height MoveDirectoryRec].
    rewrite (Rename_xdev xdev fs S D x y eS eD HS HD Hy Hdev).
    cbn [IsNotExist negb].
    rewrite (MkdirAll_snoc fs D y eD HD Hy). fold fs1.
    unfold ReadDir. rewrite Hsrc1. reflexivity.
  - exact Hsrc1.
  - rewrite (Stat_snoc fs1 D y _ (Stat_setDir fs D _ eD HD)).
    rewrite lookupEntry_setEntry_eq. reflexivity.
Qed.

End MoveDirectoryProperties.

(** X5.  copyFile from a file to another path, whose name is free or
    holds a file, in a directory: the destination holds the content of the
    source, created or replaced, the source is read only and no other entry
    changes.  (Onto its own path os.Create would empty the file before it
    is read.) *)
Theorem copyFile_copies fs S D x y data eS eD :
  S ++ [x] <> D ++ [y] ->
  Stat fs S = Ok (Dir eS) -> Stat fs D = Ok (Dir eD) ->
  lookupEntry x eS = Some (File data) ->
  (forall es, lookupEntry y eD <> Some (Dir es)) ->
  copyFile fs (S ++ [x]) (D ++ [y]) =
  (Ok tt, setDir D (setEntry y (File data) eD) fs) /\
  Stat (setDir D (setEntry y (File data) eD) fs) (D ++ [y]) = Ok (File data).
Proof.
  intros _ HS HD Hx Hy. split.
  - unfold copyFile. rewrite (Stat_snoc fs S x eS HS), Hx.
    assert (Hdst : match Stat fs (D ++ [y]) with
                   | Ok (Dir _) => False | _ => True end).
    { rewrite (Stat_snoc fs D y eD HD).
      destruct (lookupEntry y eD) as [[d|es]|] eqn:E; try exact I.
      exact (Hy es eq_refl). }
    assert (Hplant : plantAt (D ++ [y]) (File "") fs =
                     Ok (setDir D (setEntry y (File "") eD) fs))
      by exact (plantAt_snoc fs D y (File "") eD HD).
    assert (Hplant2 :
              plantAt (D ++ [y]) (File data)
                      (setDir D (setEntry y (File "") eD) fs) =
              Ok (setDir D (setEntry y (File data) eD) fs)).
    { rewrite (plantAt_snoc _ D y (File data) _ (Stat_setDir fs D _ eD HD)).
      rewrite setEntry_setEntry, (setDir_setDir fs D _ _ eD HD). reflexivity. }
    revert Hdst Hplant Hplant2.
    destruct (D ++ [y]) as [|b q] eqn:E; [destruct D; discriminate |].
    intros Hdst Hplant Hplant2.
    destruct (Stat fs (b :: q)) as [[d|es]|e]; try contradiction;
      rewrite Hplant, Hplant2; reflexivity.
  - rewrite (Stat_snoc _ D y _ (Stat_setDir fs D _ eD HD)).
    rewrite lookupEntry_setEntry_eq. reflexivity.
Qed.

(** ** The properties on sample trees *)

Lemma MoveDirectory_moves_directory_witness :
  exists fs',
    MoveDirectory (fun _ _ => true) secondDeliveryTree
                  (["Temp"; "繁花"] ++ ["Season 2"])
                  (["Cloud"; "CnShow"; "繁花"] ++ ["Season 2"]) = (Ok tt, fs') /\
    Stat fs' (["Cloud"; "CnShow"; "繁花"] ++ ["Season 2"]) =
      Ok (Dir [("E01.mkv", File "s2e1")]) /\
    Stat fs' (["Temp"; "繁花"] ++ ["Season 2"]) = Err (ErrOs ENOENT) /\
    Stat fs' ["Temp"; "繁花"] =
      Ok (Dir (removeEntry "Season 2"
                 [("Season 1", Dir [("E01.mkv", File "new");
                                    ("E02.mkv", File "only here")]);
                  ("Season 2", Dir [("E01.mkv", File "s2e1")]);
                  ("tvshow.nfo", File "fanhua")])) /\
    Stat fs' ["Cloud"; "CnShow"; "繁花"] =
      Ok (Dir (setEntry "Season 2" (Dir [("E01.mkv", File "s2e1")])
                 [("Season 1", Dir [("E01.mkv", File "old")]);
                  ("tvshow.nfo", File "fanhua")])) /\
    (forall q, disjointPaths ["Temp"; "繁花"] q = true ->
               disjointPaths ["Cloud"; "CnShow"; "繁花"] q = true ->
               Stat fs' q = Stat secondDeliveryTree q).
Proof.
  apply (MoveDirectory_moves_directory (fun _ _ => true) secondDeliveryTree
           ["Temp"; "繁花"] ["Cloud"; "CnShow"; "繁花"] "Season 2" "Season 2");
    vm_compute; reflexivity.
Defined.

Lemma MoveDirectory_missing_source_witness :
  MoveDirectory (fun _ _ => false) sampleTempTree ["Temp"; "沉默的真相"]
                ["Cloud"; "沉默的真相"] = (Err ErrSourceMissing, sampleTempTree).
Proof.
  apply (MoveDirectory_missing_source (fun _ _ => false) sampleTempTree
           ["Temp"; "沉默的真相"] ["Cloud"; "沉默的真相"] []);
    vm_compute; reflexivity.
Defined.

Lemma MoveDirectory_missing_destination_parent_witness :
  MoveDirectory (fun _ _ => true) sampleTempTree ["Temp"; "繁花"]
                ["Cloud"; "CnShow"; "繁花"] = (Err ErrSourceMissing, sampleTempTree).
Proof.
  apply (MoveDirectory_missing_destination_parent (fun _ _ => true)
           sampleTempTree ["Temp"; "繁花"] ["Cloud"; "CnShow"; "繁花"]
           (Dir [("tvshow.nfo", File "fanhua");
                 ("Season 1", Dir [("E01.mkv", File "a")])])).
  - discriminate.
  - vm_compute. reflexivity.
  - vm_compute. reflexivity.
Defined.

Lemma MoveDirectory_file_across_devices_witness :
  exists fs',
    MoveDirectory (fun _ _ => true) sampleTempTree
                  (["Temp"; "Inception"] ++ ["movie.mkv"])
                  (["Cloud"] ++ ["movie.mkv"]) = (Err (ErrOs ENOTDIR), fs') /\
    Stat fs' (["Temp"; "Inception"] ++ ["movie.mkv"]) = Ok (File "video") /\
    Stat fs' (["Cloud"] ++ ["movie.mkv"]) = Ok (Dir []).
Proof.
  apply (MoveDirectory_file_across_devices (fun _ _ => true) sampleTempTree
           ["Temp"; "Inception"] ["Cloud"] "movie.mkv" "movie.mkv" "video"
           [("movie.nfo", File "inception"); ("movie.mkv", File "video")] []);
    vm_compute; reflexivity.
Defined.

Lemma copyFile_copies_witness :
  copyFile secondDeliveryTree (["Temp"; "繁花"; "Season 1"] ++ ["E01.mkv"])
           (["Cloud"; "CnShow"; "繁花"; "Season 1"] ++ ["E01.mkv"]) =
  (Ok tt,
   setDir ["Cloud"; "CnShow"; "繁花"; "Season 1"]
          (setEntry "E01.mkv" (File "new") [("E01.mkv", File "old")])
          secondDeliveryTree) /\
  Stat (setDir ["Cloud"; "CnShow"; "繁花"; "Season 1"]
               (setEntry "E01.mkv" (File "new") [("E01.mkv", File "old")])
               secondDeliveryTree)
       (["Cloud"; "CnShow"; "繁花"; "Season 1"] ++ ["E01.mkv"]) =
  Ok (File "new").
Proof.
  apply (copyFile_copies secondDeliveryTree ["Temp"; "繁花"; "Season 1"]
           ["Cloud"; "CnShow"; "繁花"; "Season 1"] "E01.mkv" "E01.mkv" "new"
           [("E01.mkv", File "new"); ("E02.mkv", File "only here")]
           [("E01.mkv", File "old")]).
  - discriminate.
  - vm_compute. reflexivity.
  - vm_compute. reflexivity.
  - vm_compute. reflexivity.
  - intros es. vm_compute. discriminate.
Defined.

(** * The merge of a series into its destination *)

Lemma lookupEntry_app_present name es1 es2 v :
  lookupEntry name es1 = Some v -> lookupEntry name (es1 ++ es2) = Some v.
Proof.
  induction es1 as [|[n c] es1 IH]; simpl; [discriminate |].
  destruct (String.eqb n name); [tauto | exact IH].
Qed.

Lemma lookupEntry_None name es :
  lookupEntry name es = None -> ~ In name (map fst es).
Proof.
  induction es as [|[n c] es IH]; simpl; [tauto |].
  destruct (String.eqb n name) eqn:E; [discriminate |].
  apply String.eqb_neq in E. intros H [Hn | Hin]; [tauto | exact (IH H Hin)].
Qed.

Lemma filter_names {A} (f : string * A -> bool) name es :
  ~ In name (map fst es) -> ~ In name (map fst (filter f es)).
Proof.
  intros H Hin. apply H. apply in_map_iff in Hin.
  destruct Hin as (e & <- & He). apply in_map. apply filter_In in He. tauto.
Qed.

Lemma In_insertByName x e l : In x (insertByName e l) <-> x = e \/ In x l.
Proof.
  induction l as [|y l IH]; simpl; [intuition |].
  destruct (String.leb (fst e) (fst y)); simpl; [intuition |].
  rewrite IH. intuition.
Qed.

Lemma In_sortByName x l : In x (sortByName l) <-> In x l.
Proof.
  unfold sortByName. induction l as [|y l IH]; simpl; [tauto |].
  rewrite In_insertByName, IH. intuition.
Qed.

Lemma In_seasonsOfEntries n entries :
  In n (seasonsOfEntries entries) <->
  exists name, In (name, true) entries /\
               GetSeasonNumberFromDirName name = n /\ (n > 0)%Z.
Proof.
  induction entries as [|[name isDir] entries IH]; simpl.
  - split; [tauto | intros (x & [] & _)].
  - destruct isDir.
    + destruct (GetSeasonNumberFromDirName name >? 0)%Z eqn:E; simpl;
        rewrite IH; split.
      * intros [<- | (x & Hin & Hx)].
        -- exists name. split; [left; reflexivity |]. split; [reflexivity | lia].
        -- exists x. tauto.
      * intros (x & [[= <-] | Hin] & Hx & Hn); [left; exact Hx |].
        right. exists x. tauto.
      * intros (x & Hin & Hx). exists x. tauto.
      * intros (x & [[= <-] | Hin] & Hx & Hn); [lia |]. exists x. tauto.
    + rewrite IH. split.
      * intros (x & Hin & Hx). exists x. tauto.
      * intros (x & [[=] | Hin] & Hx). exists x. tauto.
Qed.

Lemma containsSeason_In seasons n : containsSeason seasons n = true <-> In n seasons.
Proof.
  unfold containsSeason. rewrite existsb_exists. split.
  - intros (x & Hin & Hx). apply Z.eqb_eq in Hx. subst. exact Hin.
  - intros Hin. exists n. split; [exact Hin | apply Z.eqb_refl].
Qed.

Section Merge.

Variable env : Env.
Variables M T : Path.
Variable eT : list (string * Node).
Hypothesis Hd : disjointPaths M T = true.
Hypothesis HT : seasonsAreDirectories eT = true.

(** A season of a name that is taken at the destination is among the
    seasons found there. *)
Lemma existing_season_found F name cT extra :
  Stat F T = Ok (Dir (eT ++ extra)) ->
  lookupEntry name eT = Some cT ->
  (GetSeasonNumberFromDirName name >? 0)%Z = true ->
  containsSeason
    (match GetExistingSeasons F T with Ok seasons => seasons | Err _ => [] end)
    (GetSeasonNumberFromDirName name) = true.
Proof.
  intros HF Hl Hn. unfold GetExistingSeasons.
  rewrite HF, (ReadDir_of_dir F T _ HF).
  apply containsSeason_In. apply In_seasonsOfEntries.
  exists name. split; [| split; [reflexivity | lia]].
  apply In_sortByName.
  apply lookupEntry_In in Hl.
  unfold seasonsAreDirectories in HT. rewrite forallb_forall in HT.
  pose proof (HT _ Hl) as Hdir. cbn [fst snd] in Hdir. rewrite Hn in Hdir.
  cbn [negb orb] in Hdir.
  apply in_map_iff. exists (name, cT). cbn [fst snd]. rewrite Hdir.
  split; [reflexivity | apply in_or_app; left; exact Hl].
Qed.

(** One round of the merge loop. *)
Lemma mergeEntry_step st eM extra name c :
  Stat (fs st) M = Ok (Dir eM) ->
  Stat (fs st) T = Ok (Dir (eT ++ extra)) ->
  lookupEntry name eM = Some c ->
  ~ In name (map fst extra) ->
  name <> "" -> canonical c = true ->
  db (mergeEntry env M T (name, isDirNode c) st) = db st /\
  world (mergeEntry env M T (name, isDirNode c) st) = world st /\
  (exists l, log (mergeEntry env M T (name, isDirNode c) st) = log st ++ l) /\
  fs (mergeEntry env M T (name, isDirNode c) st) =
  if movedInMerge env M T eT (name, c)
  then setDir T ((eT ++ extra) ++ [(name, c)])
              (setDir M (removeEntry name eM) (fs st))
  else fs st.
Proof.
  intros HM HTs Hc Hextra Hname Hcan.
  unfold mergeEntry, movedInMerge. cbn [fst snd].
  rewrite !(Join_snoc _ name Hname).
  rewrite (Stat_snoc (fs st) T name _ HTs).
  destruct (lookupEntry name eT) as [cT|] eqn:EL.
  - rewrite (lookupEntry_app_present name eT extra cT EL).
    destruct (GetSeasonNumberFromDirName name >? 0)%Z eqn:En.
    + rewrite (existing_season_found (fs st) name cT extra HTs EL En).
      cbn. repeat split; eauto.
    + cbn. repeat split; eauto.
  - assert (Hfree : lookupEntry name (eT ++ extra) = None).
    { rewrite (lookupEntry_app_absent name eT extra (lookupEntry_None _ _ EL)).
      exact (lookupEntry_absent _ _ Hextra). }
    rewrite Hfree. cbn [IsNotExist].
    destruct c as [data|cs]; cbn [isDirNode orb].
    + destruct (xdev env (M ++ [name]) (T ++ [name])) eqn:X; cbn [negb].
      * rewrite (Rename_xdev (xdev env) (fs st) M T name name eM (eT ++ extra)
                   HM HTs Hfree X).
        cbn. repeat split; eauto.
      * rewrite (Rename_fresh (xdev env) (fs st) M T name name (File data) eM
                   (eT ++ extra) Hd HM HTs Hc Hfree X).
        rewrite (setEntry_fresh _ _ _ Hfree).
        cbn. repeat split; eauto.
    + rewrite (MoveDirectory_fresh (xdev env) (fs st) M T name name (Dir cs) eM
                 (eT ++ extra) Hd HM HTs Hc Hfree eq_refl Hcan).
      rewrite (setEntry_fresh _ _ _ Hfree).
      cbn. repeat split; eauto.
Qed.

(** The merge loop over the entries of the source. *)
Lemma mergeEntries_spec :
  forall todo done st,
    NoDup (map fst (done ++ todo)) ->
    (forall e, In e todo -> fst e <> "" /\ canonical (snd e) = true) ->
    Stat (fs st) M =
      Ok (Dir (filter (fun e => negb (movedInMerge env M T eT e)) done ++ todo)) ->
    Stat (fs st) T = Ok (Dir (eT ++ filter (movedInMerge env M T eT) done)) ->
    let st' := fold_left (fun st entry => mergeEntry env M T entry st)
                         (map dirEntry todo) st in
    fs st' =
      setDir T (eT ++ filter (movedInMerge env M T eT) (done ++ todo))
        (setDir M (filter (fun e => negb (movedInMerge env M T eT e))
                          (done ++ todo))
                (fs st)) /\
    db st' = db st /\ world st' = world st /\
    exists l, log st' = log st ++ l.
Proof.
  assert (Hd' : disjointPaths T M = true) by (rewrite disjointPaths_sym; exact Hd).
  induction todo as [|[name c] todo IH]; intros done st Hnd Hok HM HTs.
  - cbn. rewrite app_nil_r in *.
    rewrite (setDir_same (fs st) M _ HM).
    rewrite (setDir_same (fs st) T _ HTs).
    repeat split. exists []. rewrite app_nil_r. reflexivity.
  - destruct (NoDup_names_split done todo name c Hnd) as [Hdone Htodo].
    destruct (Hok (name, c) (or_introl eq_refl)) as [Hname Hcan].
    cbn [fst snd] in Hname, Hcan.
    assert (Hsrc : lookupEntry name
                     (filter (fun e => negb (movedInMerge env M T eT e)) done
                      ++ (name, c) :: todo) = Some c).
    { rewrite (lookupEntry_app_absent _ _ _ (filter_names _ _ _ Hdone)).
      simpl. rewrite String.eqb_refl. reflexivity. }
    destruct (mergeEntry_step st _ _ name c HM HTs Hsrc
                (filter_names _ _ _ Hdone) Hname Hcan)
      as (Hdb & Hw & (l1 & Hlog) & Hfs).
    cbn [map fold_left]. change (dirEntry (name, c)) with (name, isDirNode c).
    set (st1 := mergeEntry env M T (name, isDirNode c) st) in *.
    assert (Hnd' : NoDup (map fst ((done ++ [(name, c)]) ++ todo)))
      by (rewrite <- app_assoc; exact Hnd).
    assert (Hok' : forall e, In e todo ->
                             fst e <> "" /\ canonical (snd e) = true)
      by (intros e He; apply Hok; right; exact He).
    assert (HM1 : Stat (fs st1) M =
                  Ok (Dir (filter (fun e => negb (movedInMerge env M T eT e))
                                  (done ++ [(name, c)]) ++ todo)) /\
                  Stat (fs st1) T =
                  Ok (Dir (eT ++ filter (movedInMerge env M T eT)
                                        (done ++ [(name, c)]))) /\
                  forall A B, setDir T A (setDir M B (fs st1)) =
                              setDir T A (setDir M B (fs st))).
    { rewrite Hfs, !filter_app. cbn [filter].
      destruct (movedInMerge env M T eT (name, c)); cbn [negb].
      - rewrite removeEntry_app. cbn [removeEntry]. rewrite String.eqb_refl.
        rewrite (removeEntry_absent _ _ (filter_names _ _ _ Hdone)).
        rewrite (removeEntry_absent _ _ Htodo).
        rewrite !app_nil_r, app_assoc.
        split; [| split].
        + rewrite (Stat_setDir_disjoint _ T M _ Hd').
          apply (Stat_setDir (fs st) M _ _ HM).
        + apply (Stat_setDir _ T _ (eT ++ filter (movedInMerge env M T eT) done)).
          rewrite (Stat_setDir_disjoint (fs st) M T _ Hd). exact HTs.
        + intros A B.
          apply (setDir_normal (fs st) M T _ _ _ _ _ _ Hd HM HTs).
      - rewrite app_nil_r, <- app_assoc. cbn [app].
        split; [exact HM | split; [exact HTs | reflexivity]]. }
    destruct HM1 as (HM1 & HT1 & Hnorm).
    destruct (IH (done ++ [(name, c)]) st1 Hnd' Hok' HM1 HT1)
      as (Gfs & Gdb & Gw & (l2 & Glog)).
    rewrite <- !app_assoc in Gfs. cbn [app] in Gfs.
    split; [rewrite Gfs; apply Hnorm |].
    split; [rewrite Gdb; exact Hdb |].
    split; [rewrite Gw; exact Hw |].
    exists (l1 ++ l2). rewrite Glog, Hlog, app_assoc. reflexivity.
Qed.

End Merge.

Section MergeRun.

Variable env : Env.

Lemma recordIfMissing_log mr existing i st :
  exists l, log (recordIfMissing env mr existing i st) = log st ++ l.
Proof.
  unfold recordIfMissing. destruct (containsSeason existing i).
  - exists []. rewrite app_nil_r. reflexivity.
  - destruct (InsertMissingSeason _ _ _ _) as [[u|e] d']; cbn.
    + exists []. rewrite app_nil_r. reflexivity.
    + eexists. reflexivity.
Qed.

Lemma fold_recordIfMissing_log mr existing l st :
  exists l', log (fold_left (fun st i => recordIfMissing env mr existing i st)
                            l st) = log st ++ l'.
Proof.
  revert st. induction l as [|i l IH]; intros st; simpl.
  - exists []. rewrite app_nil_r. reflexivity.
  - destruct (IH (recordIfMissing env mr existing i st)) as (l2 & H2).
    destruct (recordIfMissing_log mr existing i st) as (l1 & H1).
    exists (l1 ++ l2). rewrite H2, H1, app_assoc. reflexivity.
Qed.

Lemma DetectMissingSeasonsAndEpisodes_log mediaRecord st :
  exists l, log (snd (DetectMissingSeasonsAndEpisodes env mediaRecord st)) =
            log st ++ l.
Proof.
  unfold DetectMissingSeasonsAndEpisodes.
  destruct (String.eqb (TMDbID mediaRecord) "");
    [exists []; rewrite app_nil_r; reflexivity |].
  destruct (GetTVShowSeasons env (world st) (TMDbID mediaRecord)) as [total|e];
    [| exists []; rewrite app_nil_r; reflexivity].
  destruct (GetExistingSeasons (fs (tick st)) (TargetPath mediaRecord))
    as [existing|e]; [| exists []; rewrite app_nil_r; reflexivity].
  destruct (fold_recordIfMissing_log mediaRecord existing (seasonRange total)
              (tick st)) as (l & Hl).
  destruct (InsertOrUpdateMediaRecord _ _ _) as [[u|e] d']; cbn;
    rewrite Hl; cbn.
  - exists l. reflexivity.
  - exists (l ++ [LogCompletenessFailed]). rewrite app_assoc. reflexivity.
Qed.

Lemma recordAndDetect_log nfo isTVShow target mediaRecord st :
  exists l, log (snd (recordAndDetect env nfo isTVShow target mediaRecord st)) =
            log st ++ l.
Proof.
  unfold recordAndDetect. cbn [snd].
  set (st1 := match InsertOrUpdateMediaRecord _ _ _ with
              | (Ok _, d') => _ | (Err _, d') => _ end).
  assert (H1 : exists l, log st1 = log st ++ l).
  { unfold st1. destruct (InsertOrUpdateMediaRecord _ _ _) as [[u|e] d']; cbn.
    - exists []. rewrite app_nil_r. reflexivity.
    - eexists. reflexivity. }
  destruct H1 as (l1 & H1).
  destruct (isTVShow && negb (String.eqb (nTMDbID nfo) ""));
    [| exists l1; exact H1].
  set (st2 := match DetectMissingSeasonsAndEpisodes env mediaRecord st1 with
              | (Ok _, _, st') => st' | (Err e, _, st') => _ end).
  assert (H2 : exists l, log st2 = log st1 ++ l).
  { unfold st2.
    destruct (DetectMissingSeasonsAndEpisodes_log mediaRecord st1) as (l & H).
    destruct (DetectMissingSeasonsAndEpisodes env mediaRecord st1)
      as [[[u|e] r] st']; cbn in *.
    - exists l. exact H.
    - exists (l ++ [LogDetectFailed e]). rewrite H, app_assoc. reflexivity. }
  destruct H2 as (l2 & H2).
  destruct (ReportSeasonStatus_state env (nTitle nfo) (nTMDbID nfo) target st2)
    as (_ & _ & (l3 & H3)).
  destruct (ReportSeasonStatus env (nTitle nfo) (nTMDbID nfo) target st2)
    as [[u|e] st3]; cbn in *.
  - exists (l1 ++ l2 ++ l3). rewrite H3, H2, H1, !app_assoc. reflexivity.
  - exists (l1 ++ l2 ++ l3 ++ [LogReportFailed]).
    rewrite H3, H2, H1, !app_assoc. reflexivity.
Qed.

(** The record is prepared from the store and the clock: tree and store stay. *)
Lemma prepareMediaRecord_state nfoPath nfo isTVShow countries category
    mediaDir target st :
  fs (snd (prepareMediaRecord env nfoPath nfo isTVShow countries category
                              mediaDir target st)) = fs st /\
  db (snd (prepareMediaRecord env nfoPath nfo isTVShow countries category
                              mediaDir target st)) = db st /\
  exists l, log (snd (prepareMediaRecord env nfoPath nfo isTVShow countries
                                         category mediaDir target st)) =
            log st ++ l.
Proof.
  unfold prepareMediaRecord.
  destruct isTVShow.
  - unfold getExistingTVShowRecord.
    destruct (GetMediaRecords env (world st) noFilter (db st)) as [[records|e] w].
    + destruct (find _ records); cbn; repeat split;
        exists []; rewrite app_nil_r; reflexivity.
    + cbn. repeat split. eexists. reflexivity.
  - cbn. repeat split. exists []. rewrite app_nil_r. reflexivity.
Qed.

(** The merge of a source directory into a destination on another branch
    of the tree, when the destination keeps its seasons in directories. *)
Lemma mergeIntoTarget_spec S D m t eS eD eM eT toAdd st :
  disjointPaths S D = true ->
  Stat (fs st) S = Ok (Dir eS) -> lookupEntry m eS = Some (Dir eM) ->
  Stat (fs st) D = Ok (Dir eD) -> lookupEntry t eD = Some (Dir eT) ->
  canonical (Dir eM) = true ->
  seasonsAreDirectories eT = true ->
  exists st',
    mergeIntoTarget env (S ++ [m]) (D ++ [t]) toAdd st = (Ok tt, st') /\
    fs st' =
      setDir (D ++ [t])
             (eT ++ filter (movedInMerge env (S ++ [m]) (D ++ [t]) eT) eM)
             (setDir S (removeEntry m eS) (fs st)) /\
    db st' = db st /\
    exists l, log st' = log st ++ LogMergeNewSeasons toAdd :: l.
Proof.
  intros Hd HS Hm HD Ht Hcan HT.
  assert (HM : Stat (fs st) (S ++ [m]) = Ok (Dir eM))
    by (rewrite (Stat_snoc _ S m eS HS), Hm; reflexivity).
  assert (HTs : Stat (fs st) (D ++ [t]) = Ok (Dir eT))
    by (rewrite (Stat_snoc _ D t eD HD), Ht; reflexivity).
  assert (HdMT : disjointPaths (S ++ [m]) (D ++ [t]) = true)
    by exact (disjointPaths_snoc S D m t Hd).
  assert (HdST : disjointPaths S (D ++ [t]) = true)
    by exact (disjointPaths_snoc_r S D t Hd).
  assert (HdTS : disjointPaths (D ++ [t]) S = true)
    by (rewrite disjointPaths_sym; exact HdST).
  unfold mergeIntoTarget. cbn [fs logf].
  rewrite (ReadDir_canonical (fs st) (S ++ [m]) eM HM (canonical_names eM Hcan)).
  set (st1 := logf (LogMergeNewSeasons toAdd) st).
  destruct (mergeEntries_spec env (S ++ [m]) (D ++ [t]) eT HdMT HT eM [] st1)
    as (Gfs & Gdb & _ & (l & Glog)).
  { cbn [app]. apply sortedNames_NoDup. exact (canonical_names eM Hcan). }
  { intros e He. exact (canonical_entry eM e Hcan He). }
  { exact HM. }
  { cbn [filter]. rewrite app_nil_r. exact HTs. }
  cbn [app] in Gfs.
  set (st2 := fold_left _ _ st1) in *.
  set (A := eT ++ filter (movedInMerge env (S ++ [m]) (D ++ [t]) eT) eM) in *.
  set (K := filter (fun e => negb (movedInMerge env (S ++ [m]) (D ++ [t]) eT e))
                   eM) in *.
  change (fs st1) with (fs st) in Gfs.
  rewrite (setDir_snoc (fs st) S m K eS eM HS Hm) in Gfs.
  assert (HS2 : Stat (fs st2) S = Ok (Dir (setEntry m (Dir K) eS))).
  { rewrite Gfs, (Stat_setDir_disjoint _ (D ++ [t]) S _ HdTS).
    apply (Stat_setDir (fs st) S _ eS HS). }
  rewrite (RemoveAll_snoc (fs st2) S m _ HS2), removeEntry_setEntry.
  eexists. split; [reflexivity |].
  cbn [fs logf setFS db log].
  split; [| split].
  - rewrite Gfs.
    rewrite (setDir_comm _ S (D ++ [t]) _ _ HdST).
    rewrite (setDir_setDir (fs st) S _ _ eS HS). reflexivity.
  - exact Gdb.
  - rewrite Glog. unfold st1. cbn [log logf].
    exists (l ++ [LogSourceRemoved; LogMergeDone]).
    rewrite <- !app_assoc. reflexivity.
Qed.

End MergeRun.

Lemma existsb_filter_length {A} (f : A -> bool) l :
  negb (Nat.eqb (List.length (filter f l)) 0) = existsb f l.
Proof.
  induction l as [|a l IH]; simpl; [reflexivity |].
  destruct (f a); simpl; [reflexivity | exact IH].
Qed.

Lemma HasNewSeasons_split fs mediaDir target existing new :
  GetExistingSeasons fs target = Ok existing ->
  GetNewSeasons fs mediaDir = Ok new ->
  HasNewSeasons fs mediaDir target =
  Ok (existsb (fun n => negb (containsSeason existing n)) new,
      filter (fun n => negb (containsSeason existing n)) new).
Proof.
  intros He Hn. unfold HasNewSeasons. rewrite He, Hn.
  rewrite existsb_filter_length. reflexivity.
Qed.

Section Placement.

Variable env : Env.

Lemma placeMedia_merge nfoPath nfo countries category st S m eS eD eM eT toAdd :
  DirOf nfoPath = S ++ [m] -> m <> "" ->
  disjointPaths S (Join (CloudDir (cfg env)) category) = true ->
  Stat (fs st) S = Ok (Dir eS) -> lookupEntry m eS = Some (Dir eM) ->
  Stat (fs st) (Join (CloudDir (cfg env)) category) = Ok (Dir eD) ->
  lookupEntry m eD = Some (Dir eT) ->
  canonical (Dir eM) = true ->
  seasonsAreDirectories eT = true ->
  HasNewSeasons (fs st) (S ++ [m]) (Join (CloudDir (cfg env)) category ++ [m])
  = Ok (true, toAdd) ->
  exists st',
    placeMedia env nfoPath nfo true countries category st = (Ok tt, st') /\
    fs st' =
      setDir (Join (CloudDir (cfg env)) category ++ [m])
             (eT ++ filter (movedInMerge env (S ++ [m])
                              (Join (CloudDir (cfg env)) category ++ [m]) eT)
                           eM)
             (setDir S (removeEntry m eS) (fs st)) /\
    In (LogMergeNewSeasons toAdd) (log st').
Proof.
  intros Hdir Hm Hd HS Hs HD Ht Hcan HT Hnew.
  unfold placeMedia. rewrite Hdir, (Base_snoc S m).
  set (D := Join (CloudDir (cfg env)) category) in *.
  rewrite (MkdirAll_existing (fs st) D eD HD).
  rewrite (Join_snoc D m Hm).
  destruct (prepareMediaRecord_state env nfoPath nfo true countries category
              (S ++ [m]) (D ++ [m]) (setFS (fs st) st)) as (Pfs & Pdb & _).
  destruct (prepareMediaRecord env nfoPath nfo true countries category
              (S ++ [m]) (D ++ [m]) (setFS (fs st) st)) as [mediaRecord st2].
  cbn [snd fs setFS] in Pfs, Pdb.
  rewrite Pfs.
  rewrite (Stat_snoc (fs st) D m eD HD), Ht, Hnew.
  assert (HS2 : Stat (fs st2) S = Ok (Dir eS)) by (rewrite Pfs; exact HS).
  assert (HD2 : Stat (fs st2) D = Ok (Dir eD)) by (rewrite Pfs; exact HD).
  destruct (mergeIntoTarget_spec env S D m m eS eD eM eT toAdd st2
              Hd HS2 Hs HD2 Ht Hcan HT)
    as (st3 & Hmerge & Mfs & _ & (l & Mlog)).
  rewrite Hmerge.
  pose proof (recordAndDetect_ok env nfo true (D ++ [m]) mediaRecord st3) as Rok.
  pose proof (recordAndDetect_fs env nfo true (D ++ [m]) mediaRecord st3) as Rfs.
  destruct (recordAndDetect_log env nfo true (D ++ [m]) mediaRecord st3)
    as (l' & Rlog).
  destruct (recordAndDetect env nfo true (D ++ [m]) mediaRecord st3)
    as [r st4]. cbn [fst snd] in *. subst r.
  exists st4. split; [reflexivity |].
  split; [rewrite Rfs, Mfs, Pfs; reflexivity |].
  rewrite Rlog, Mlog. apply in_or_app. left. apply in_or_app. right.
  left. reflexivity.
Qed.

Lemma placeMedia_no_new_seasons nfoPath nfo countries category st eD node toAdd :
  Stat (fs st) (Join (CloudDir (cfg env)) category) = Ok (Dir eD) ->
  Stat (fs st) (Join (Join (CloudDir (cfg env)) category)
                     (Base (DirOf nfoPath))) = Ok node ->
  HasNewSeasons (fs st) (DirOf nfoPath)
                (Join (Join (CloudDir (cfg env)) category)
                      (Base (DirOf nfoPath))) = Ok (false, toAdd) ->
  exists st',
    placeMedia env nfoPath nfo true countries category st = (Ok tt, st') /\
    fs st' = fs st /\ db st' = db st /\
    In LogNoNewSeasons (log st').
Proof.
  intros HD Ht Hnew. unfold placeMedia.
  set (D := Join (CloudDir (cfg env)) category) in *.
  set (target := Join D (Base (DirOf nfoPath))) in *.
  rewrite (MkdirAll_existing (fs st) D eD HD).
  destruct (prepareMediaRecord_state env nfoPath nfo true countries category
              (DirOf nfoPath) target (setFS (fs st) st)) as (Pfs & Pdb & _).
  destruct (prepareMediaRecord env nfoPath nfo true countries category
              (DirOf nfoPath) target (setFS (fs st) st)) as [mediaRecord st2].
  cbn [snd fs db setFS] in Pfs, Pdb.
  rewrite Pfs, Ht, Hnew.
  eexists. split; [reflexivity |]. cbn [fs db log logf].
  split; [exact Pfs |]. split; [exact Pdb |].
  apply in_or_app. right. left. reflexivity.
Qed.

End Placement.




(** * Season numbers *)

Lemma append_nil_r_string (s : string) : (s ++ "")%string = s.
Proof. induction s as [|c s IH]; cbn; [reflexivity | rewrite IH; reflexivity]. Qed.


Section SeasonNames.

Import Regexp Strconv.

Lemma digitsValue_nonneg s : forall acc, (0 <= acc -> 0 <= digitsValue acc s)%Z.
Proof.
  induction s as [|c s IH]; intros acc Hacc; cbn [digitsValue]; [exact Hacc |].
  apply IH. lia.
Qed.

Lemma seasonFromPatterns_range patterns dirName :
  (0 <= seasonFromPatterns patterns dirName <= maxInt)%Z.
Proof.
  induction patterns as [|p ps IH]; simpl.
  - unfold maxInt. lia.
  - destruct (findSubmatch p dirName) as [capture|]; [| exact IH].
    unfold Atoi.
    destruct (digitsValue 0 capture <=? maxInt)%Z eqn:E; [| exact IH].
    apply Z.leb_le in E. split; [| exact E].
    apply digitsValue_nonneg. lia.
Qed.

Lemma eatLetter_noDigits l s r :
  eatLetter l s = Some r -> noDigits s = true -> noDigits r = true.
Proof.
  destruct s as [|c s]; simpl; [discriminate |].
  destruct (Ascii.eqb (Strings.lowerByte c) l); [| discriminate].
  intros [= ->] H. apply andb_true_iff in H. tauto.
Qed.

Lemma eatS_noDigits s r :
  eatS s = Some r -> noDigits s = true -> noDigits r = true.
Proof.
  unfold eatS. destruct (eatLetter "s" s) eqn:E.
  - intros [= ->]. exact (eatLetter_noDigits _ _ _ E).
  - destruct s as [|c1 [|c2 rest]]; try discriminate.
    destruct ((nat_of_ascii c1 =? 197) && (nat_of_ascii c2 =? 191))%nat;
      [| discriminate].
    intros [= ->] H. simpl in H.
    apply andb_true_iff in H. destruct H as [_ H].
    apply andb_true_iff in H. tauto.
Qed.

Lemma eatLiteral_noDigits lit : forall s r,
  eatLiteral lit s = Some r -> noDigits s = true -> noDigits r = true.
Proof.
  induction lit as [|l lit IH]; intros s r; simpl.
  - intros [= ->]. tauto.
  - destruct s as [|c s]; [discriminate |].
    destruct (Ascii.eqb l c); [| discriminate].
    intros H Hn. simpl in Hn. apply andb_true_iff in Hn.
    apply (IH _ _ H). tauto.
Qed.

Lemma skipSpaces_noDigits s : noDigits s = true -> noDigits (skipSpaces s) = true.
Proof.
  induction s as [|c s IH]; simpl; [tauto |].
  destruct (isSpace c); [| simpl; tauto].
  intros H. apply andb_true_iff in H. apply IH. tauto.
Qed.

Lemma digits1_noDigits s : noDigits s = true -> digits1 s = None.
Proof.
  unfold digits1. destruct s as [|c s]; simpl; [reflexivity |].
  destruct (isDigit c); [discriminate | reflexivity].
Qed.

Lemma matchSeasonAt_noDigits s : noDigits s = true -> matchSeasonAt s = None.
Proof.
  intros H. unfold matchSeasonAt, bind.
  destruct (eatS s) as [s1|] eqn:E1; [| reflexivity].
  pose proof (eatS_noDigits _ _ E1 H) as H1.
  destruct (eatLetter "e" s1) as [s2|] eqn:E2; [| reflexivity].
  pose proof (eatLetter_noDigits _ _ _ E2 H1) as H2.
  destruct (eatLetter "a" s2) as [s3|] eqn:E3; [| reflexivity].
  pose proof (eatLetter_noDigits _ _ _ E3 H2) as H3.
  destruct (eatS s3) as [s4|] eqn:E4; [| reflexivity].
  pose proof (eatS_noDigits _ _ E4 H3) as H4.
  destruct (eatLetter "o" s4) as [s5|] eqn:E5; [| reflexivity].
  pose proof (eatLetter_noDigits _ _ _ E5 H4) as H5.
  destruct (eatLetter "n" s5) as [s6|] eqn:E6; [| reflexivity].
  pose proof (eatLetter_noDigits _ _ _ E6 H5) as H6.
  rewrite (digits1_noDigits _ (skipSpaces_noDigits _ H6)). reflexivity.
Qed.

Lemma matchDiJiAt_noDigits s : noDigits s = true -> matchDiJiAt s = None.
Proof.
  intros H. unfold matchDiJiAt, bind.
  destruct (eatLiteral "第" s) as [s1|] eqn:E1; [| reflexivity].
  rewrite (digits1_noDigits _ (eatLiteral_noDigits _ _ _ E1 H)). reflexivity.
Qed.

Lemma matchSAt_noDigits s : noDigits s = true -> matchSAt s = None.
Proof.
  intros H. unfold matchSAt, bind.
  destruct (eatS s) as [s1|] eqn:E1; [| reflexivity].
  rewrite (digits1_noDigits _ (eatS_noDigits _ _ E1 H)). reflexivity.
Qed.

Lemma findSubmatch_noDigits (pattern : string -> option string) :
  (forall s, noDigits s = true -> pattern s = None) ->
  forall s, noDigits s = true -> findSubmatch pattern s = None.
Proof.
  intros Hp. induction s as [|c s IH]; intros H; simpl.
  - rewrite (Hp _ H). reflexivity.
  - rewrite (Hp _ H). apply IH. simpl in H. apply andb_true_iff in H. tauto.
Qed.

(** X6.  The season number of a directory name is never negative and fits
    an int; a name without a decimal digit has no season number (0). *)
Theorem GetSeasonNumberFromDirName_range dirName :
  (0 <= GetSeasonNumberFromDirName dirName <= maxInt)%Z /\
  (noDigits dirName = true -> GetSeasonNumberFromDirName dirName = 0%Z).
Proof.
  split; [apply seasonFromPatterns_range |].
  intros H. unfold GetSeasonNumberFromDirName, regexPatterns. simpl.
  rewrite (findSubmatch_noDigits _ matchSeasonAt_noDigits _ H).
  rewrite (findSubmatch_noDigits _ matchDiJiAt_noDigits _ H).
  rewrite (findSubmatch_noDigits _ matchSAt_noDigits _ H).
  reflexivity.
Qed.

Lemma digit_not_space c : isDigit c = true -> isSpace c = false.
Proof.
  destruct c as [[|] [|] [|] [|] [|] [|] [|] [|]]; intros H;
    try discriminate H; reflexivity.
Qed.

Lemma digit_not_S c r : isDigit c = true -> eatS (String c r) = None.
Proof.
  destruct c as [[|] [|] [|] [|] [|] [|] [|] [|]]; intros H;
    try discriminate H; destruct r; reflexivity.
Qed.

Lemma digit_not_Di c r : isDigit c = true -> eatLiteral "第" (String c r) = None.
Proof.
  destruct c as [[|] [|] [|] [|] [|] [|] [|] [|]]; intros H;
    try discriminate H; reflexivity.
Qed.

Lemma digit_not_letter l c r :
  isDigit c = true -> isDigit l = false -> eatLetter l (String c r) = None.
Proof.
  intros Hc Hl. unfold eatLetter.
  destruct (Ascii.eqb (Strings.lowerByte c) l) eqn:E; [| reflexivity].
  apply Ascii.eqb_eq in E. subst l.
  destruct c as [[|] [|] [|] [|] [|] [|] [|] [|]];
    try discriminate Hc; discriminate Hl.
Qed.

Lemma spanDigits_app ds rest :
  allDigits ds = true -> startsWithDigit rest = false ->
  spanDigits (ds ++ rest)%string = (ds, rest).
Proof.
  intros Hds Hrest. induction ds as [|c ds IH]; cbn [String.append].
  - destruct rest as [|c r]; [reflexivity |].
    cbn in Hrest. cbn [spanDigits]. rewrite Hrest. reflexivity.
  - cbn in Hds. apply andb_true_iff in Hds. destruct Hds as [Hc Hds].
    cbn [spanDigits]. rewrite Hc, (IH Hds). reflexivity.
Qed.

Lemma digits1_app ds rest :
  allDigits ds = true -> ds <> "" -> startsWithDigit rest = false ->
  digits1 (ds ++ rest)%string = Some (ds, rest).
Proof.
  intros Hds Hne Hrest. unfold digits1.
  rewrite (spanDigits_app ds rest Hds Hrest).
  destruct ds; [contradiction | reflexivity].
Qed.

Lemma skipSpaces_digits ds rest :
  allDigits ds = true -> ds <> "" ->
  skipSpaces (ds ++ rest)%string = (ds ++ rest)%string.
Proof.
  intros Hds Hne. destruct ds as [|c ds]; [contradiction |].
  cbn in Hds. apply andb_true_iff in Hds. destruct Hds as [Hc _].
  cbn [String.append skipSpaces]. rewrite (digit_not_space c Hc). reflexivity.
Qed.

Lemma findSubmatch_cons (pattern : string -> option string) a t :
  findSubmatch pattern (String a t) =
  match pattern (String a t) with
  | Some capture => Some capture
  | None => findSubmatch pattern t
  end.
Proof. reflexivity. Qed.

(** Inside a run of digits no pattern starts. *)
Lemma findSubmatch_skip_digits (pattern : string -> option string) ds t :
  (forall c r, isDigit c = true -> pattern (String c r) = None) ->
  allDigits ds = true ->
  findSubmatch pattern (ds ++ t)%string = findSubmatch pattern t.
Proof.
  intros Hp. induction ds as [|c ds IH]; intros Hds; [reflexivity |].
  cbn in Hds. apply andb_true_iff in Hds. destruct Hds as [Hc Hds].
  cbn [String.append findSubmatch]. rewrite (Hp c _ Hc). exact (IH Hds).
Qed.

Lemma matchSeasonAt_digit c r : isDigit c = true -> matchSeasonAt (String c r) = None.
Proof. intros H. unfold matchSeasonAt. rewrite (digit_not_S c r H). reflexivity. Qed.

Lemma matchDiJiAt_digit c r : isDigit c = true -> matchDiJiAt (String c r) = None.
Proof. intros H. unfold matchDiJiAt. rewrite (digit_not_Di c r H). reflexivity. Qed.

Lemma Atoi_value ds :
  (digitsValue 0 ds <= maxInt)%Z -> Atoi ds = Some (digitsValue 0 ds).
Proof.
  intros H. unfold Atoi. apply Z.leb_le in H. rewrite H. reflexivity.
Qed.

(** The season number of the usual names of a season directory, for a
    numeral [ds]. *)
Lemma season_of_numeral ds :
  allDigits ds = true -> ds <> "" -> (digitsValue 0 ds <= maxInt)%Z ->
  (forall rest, startsWithDigit rest = false ->
     GetSeasonNumberFromDirName ("Season " ++ ds ++ rest)%string =
     digitsValue 0 ds) /\
  GetSeasonNumberFromDirName ("S" ++ ds)%string = digitsValue 0 ds /\
  GetSeasonNumberFromDirName ("第" ++ ds ++ "季")%string = digitsValue 0 ds.
Proof.
  intros Hds Hne Hv. split; [| split].
  - intros rest Hrest.
    unfold GetSeasonNumberFromDirName, regexPatterns.
    cbn [seasonFromPatterns].
    assert (H : findSubmatch matchSeasonAt ("Season " ++ ds ++ rest)%string
                = Some ds).
    { cbn [String.append findSubmatch].
      assert (Hm : matchSeasonAt (String "S" (String "e" (String "a"
                     (String "s" (String "o" (String "n" (String " "
                     (ds ++ rest)%string))))))) = Some ds).
      { change (matchSeasonAt (String "S" (String "e" (String "a"
                     (String "s" (String "o" (String "n" (String " "
                     (ds ++ rest)%string))))))))
          with (bind (digits1 (skipSpaces (ds ++ rest)%string))
                     (fun m => Some (fst m))).
        rewrite (skipSpaces_digits ds rest Hds Hne).
        rewrite (digits1_app ds rest Hds Hne Hrest). reflexivity. }
      rewrite Hm. reflexivity. }
    rewrite H, (Atoi_value ds Hv). reflexivity.
  - unfold GetSeasonNumberFromDirName, regexPatterns.
    cbn [seasonFromPatterns].
    destruct ds as [|c ds]; [contradiction |].
    pose proof Hds as Hds'.
    cbn in Hds'. apply andb_true_iff in Hds'. destruct Hds' as [Hc _].
    assert (Hnone : forall pattern,
               (forall c r, isDigit c = true -> pattern (String c r) = None) ->
               pattern "" = None ->
               findSubmatch pattern (String c ds) = None).
    { intros pattern Hp He.
      pose proof (findSubmatch_skip_digits pattern (String c ds) "" Hp Hds) as Hk.
      rewrite append_nil_r_string in Hk. rewrite Hk. cbn. rewrite He.
      reflexivity. }
    change ("S" ++ String c ds)%string with (String "S" (String c ds)).
    assert (H1 : findSubmatch matchSeasonAt (String "S" (String c ds)) = None).
    { rewrite findSubmatch_cons.
      assert (Hm : matchSeasonAt (String "S" (String c ds)) = None).
      { assert (E : eatS (String "S" (String c ds)) = Some (String c ds))
          by reflexivity.
        unfold matchSeasonAt. rewrite E. unfold bind at 1.
        rewrite (digit_not_letter "e" c ds Hc eq_refl). reflexivity. }
      rewrite Hm. exact (Hnone _ matchSeasonAt_digit eq_refl). }
    assert (H2 : findSubmatch matchDiJiAt (String "S" (String c ds)) = None).
    { rewrite findSubmatch_cons.
      assert (Hm : matchDiJiAt (String "S" (String c ds)) = None)
        by reflexivity.
      rewrite Hm. exact (Hnone _ matchDiJiAt_digit eq_refl). }
    assert (H3 : findSubmatch matchSAt (String "S" (String c ds))
                 = Some (String c ds)).
    { rewrite findSubmatch_cons.
      assert (Hm : matchSAt (String "S" (String c ds)) = Some (String c ds)).
      { assert (E : eatS (String "S" (String c ds)) = Some (String c ds))
          by reflexivity.
        unfold matchSAt. rewrite E. unfold bind at 1.
        pose proof (digits1_app (String c ds) "" Hds Hne eq_refl) as Hd1.
        rewrite append_nil_r_string in Hd1. rewrite Hd1. reflexivity. }
      rewrite Hm. reflexivity. }
    rewrite H1, H2, H3, (Atoi_value _ Hv). reflexivity.
  - unfold GetSeasonNumberFromDirName, regexPatterns.
    cbn [seasonFromPatterns].
    assert (H1 : findSubmatch matchSeasonAt ("第" ++ ds ++ "季")%string = None).
    { assert (E : forall t, findSubmatch matchSeasonAt ("第" ++ t)%string =
                              findSubmatch matchSeasonAt t)
        by (intros t; destruct t; reflexivity).
      rewrite E.
      rewrite (findSubmatch_skip_digits _ ds "季" matchSeasonAt_digit Hds).
      reflexivity. }
    assert (H2 : findSubmatch matchDiJiAt ("第" ++ ds ++ "季")%string = Some ds).
    { cbn [String.append findSubmatch].
      assert (Hm : matchDiJiAt ("第" ++ ds ++ "季")%string = Some ds).
      { assert (E : eatLiteral "第" ("第" ++ ds ++ "季")%string =
                    Some (ds ++ "季")%string) by reflexivity.
        unfold matchDiJiAt. rewrite E. unfold bind at 1.
        rewrite (digits1_app ds "季" Hds Hne eq_refl). reflexivity. }
      cbn [String.append] in Hm. rewrite Hm. reflexivity. }
    rewrite H1, H2, (Atoi_value ds Hv). reflexivity.
Qed.

Lemma digitsValue_uint d : forall acc,
  digitsValue (Z.of_nat acc) (NilEmpty.string_of_uint d) =
  Z.of_nat (Nat.of_uint_acc d acc).
Proof.
  induction d; intros acc; cbn [NilEmpty.string_of_uint digitsValue Nat.of_uint_acc];
    [reflexivity | ..];
    rewrite <- IHd; f_equal; rewrite Nat.tail_mul_spec;
    cbn [nat_of_ascii]; vm_compute (Z.of_nat (_ - 48)); lia.
Qed.

Lemma allDigits_uint d : allDigits (NilEmpty.string_of_uint d) = true.
Proof. induction d; cbn; auto. Qed.

Lemma decimal_numeral n :
  allDigits (decimal n) = true /\ decimal n <> "" /\
  digitsValue 0 (decimal n) = Z.of_nat n.
Proof.
  unfold decimal. split; [apply allDigits_uint |]. split.
  - intros H.
    assert (E : Nat.to_uint n = Decimal.Nil)
      by (destruct (Nat.to_uint n); try discriminate H; reflexivity).
    pose proof (Unsigned.to_of (Nat.to_uint n)) as Hn.
    rewrite Unsigned.of_to, E in Hn. discriminate Hn.
  - change 0%Z with (Z.of_nat 0). rewrite digitsValue_uint.
    f_equal. apply Unsigned.of_to.
Qed.

(** X7.  The usual names of a season directory give back their number:
    for every season number n that fits an int, Season n (whatever follows
    the number, unless a digit), Sn, S0n and 第n季 have the season
    number n. *)
Theorem season_number_round_trip (n : nat) :
  (Z.of_nat n <= maxInt)%Z ->
  (forall rest, startsWithDigit rest = false ->
     GetSeasonNumberFromDirName ("Season " ++ decimal n ++ rest)%string =
     Z.of_nat n) /\
  GetSeasonNumberFromDirName ("S" ++ decimal n)%string = Z.of_nat n /\
  GetSeasonNumberFromDirName ("S0" ++ decimal n)%string = Z.of_nat n /\
  GetSeasonNumberFromDirName ("第" ++ decimal n ++ "季")%string = Z.of_nat n.
Proof.
  intros Hn. destruct (decimal_numeral n) as (Hd & Hne & Hv).
  destruct (season_of_numeral (decimal n) Hd Hne) as (Ha & Hb & Hc);
    [rewrite Hv; exact Hn |].
  rewrite Hv in Ha, Hb, Hc.
  split; [exact Ha |]. split; [exact Hb |]. split; [| exact Hc].
  assert (Hd0 : allDigits ("0" ++ decimal n)%string = true) by exact Hd.
  assert (Hv0 : digitsValue 0 ("0" ++ decimal n)%string = Z.of_nat n)
    by exact Hv.
  destruct (season_of_numeral ("0" ++ decimal n)%string Hd0) as (_ & Hb0 & _);
    [discriminate | rewrite Hv0; exact Hn |].
  rewrite Hv0 in Hb0. exact Hb0.
Qed.

End SeasonNames.

Lemma GetSeasonNumberFromDirName_range_witness :
  (0 <= GetSeasonNumberFromDirName "Specials" <= Strconv.maxInt)%Z /\
  GetSeasonNumberFromDirName "Specials" = 0%Z.
Proof.
  split.
  - exact (proj1 (GetSeasonNumberFromDirName_range "Specials")).
  - apply (proj2 (GetSeasonNumberFromDirName_range "Specials")).
    vm_compute. reflexivity.
Defined.

Lemma season_number_round_trip_witness :
  (forall rest, startsWithDigit rest = false ->
     GetSeasonNumberFromDirName ("Season " ++ decimal 12 ++ rest)%string = 12%Z) /\
  GetSeasonNumberFromDirName "S12" = 12%Z /\
  GetSeasonNumberFromDirName "S012" = 12%Z /\
  GetSeasonNumberFromDirName "第12季" = 12%Z.
Proof.
  apply (season_number_round_trip 12). vm_compute. discriminate.
Defined.

(** * Seasons on disk and completeness *)

Lemma In_ReadDir_entry name es :
  In (name, true) (sortByName (map (fun e => (fst e, isDirNode (snd e))) es)) <->
  exists c, In (name, Dir c) es.
Proof.
  rewrite In_sortByName, in_map_iff. split.
  - intros ([n [d|c]] & E & Hin); cbn in E; [discriminate |].
    injection E as ->. exists c. exact Hin.
  - intros (c & Hin). exists (name, Dir c). split; [reflexivity | exact Hin].
Qed.

(** X8.  GetExistingSeasons: a destination that does not exist has no
    seasons, and that is not an error; one that cannot be listed is an
    error; for a directory the answer holds exactly the season numbers,
    above 0, of its subdirectories (a file never counts). *)
Theorem GetExistingSeasons_spec fs target :
  (Stat fs target = Err (ErrOs ENOENT) -> GetExistingSeasons fs target = Ok []) /\
  (forall data, Stat fs target = Ok (File data) ->
     GetExistingSeasons fs target = Err ErrReadTargetDir) /\
  (forall entries, Stat fs target = Ok (Dir entries) ->
     exists seasons,
       GetExistingSeasons fs target = Ok seasons /\
       forall n, In n seasons <->
                 (n > 0)%Z /\
                 exists name c, In (name, Dir c) entries /\
                                GetSeasonNumberFromDirName name = n).
Proof.
  unfold GetExistingSeasons, ReadDir. split; [| split].
  - intros H. rewrite H. reflexivity.
  - intros data H. rewrite H. reflexivity.
  - intros entries H. rewrite H. cbn. eexists. split; [reflexivity |].
    intros n. rewrite In_seasonsOfEntries. split.
    + intros (name & Hin & Hn & Hpos). split; [exact Hpos |].
      apply In_ReadDir_entry in Hin. destruct Hin as (c & Hin).
      exists name, c. tauto.
    + intros (Hpos & name & c & Hin & Hn). exists name.
      split; [apply In_ReadDir_entry; exists c; exact Hin | tauto].
Qed.

(** X9.  GetNewSeasons: the season numbers of the subdirectories of the
    source; when no subdirectory has one, the season number of the name of
    the source directory itself, if it has one; a source that cannot be
    listed is an error. *)
Theorem GetNewSeasons_spec fs mediaDir :
  (forall e, Stat fs mediaDir = Err e ->
     GetNewSeasons fs mediaDir = Err ErrReadSourceDir) /\
  (forall entries, Stat fs mediaDir = Ok (Dir entries) ->
     exists seasons,
       GetNewSeasons fs mediaDir = Ok seasons /\
       let own := GetSeasonNumberFromDirName (Base mediaDir) in
       let inside n :=
         (n > 0)%Z /\
         exists name c, In (name, Dir c) entries /\
                        GetSeasonNumberFromDirName name = n in
       ((exists n, inside n) -> forall n, In n seasons <-> inside n) /\
       (~ (exists n, inside n) ->
        seasons = if (own >? 0)%Z then [own] else [])).
Proof.
  unfold GetNewSeasons, ReadDir. split.
  - intros e H. rewrite H. reflexivity.
  - intros entries H. rewrite H.
    set (listed := sortByName (map (fun e => (fst e, isDirNode (snd e))) entries)).
    assert (Hin : forall n,
               In n (seasonsOfEntries listed) <->
               (n > 0)%Z /\
               exists name c, In (name, Dir c) entries /\
                              GetSeasonNumberFromDirName name = n).
    { intros n. rewrite In_seasonsOfEntries. split.
      - intros (name & Hl & Hn & Hpos). split; [exact Hpos |].
        apply In_ReadDir_entry in Hl. destruct Hl as (c & Hl).
        exists name, c. tauto.
      - intros (Hpos & name & c & Hl & Hn). exists name.
        split; [apply In_ReadDir_entry; exists c; exact Hl | tauto]. }
    destruct (seasonsOfEntries listed) as [|s rest] eqn:E.
    + destruct (GetSeasonNumberFromDirName (Base mediaDir) >? 0)%Z eqn:Eo;
        eexists; (split; [reflexivity |]); cbv zeta; rewrite ?Eo; split;
        try (intros (n & Hn); apply Hin in Hn; destruct Hn);
        intros _; reflexivity.
    + eexists. split; [reflexivity |]. cbv zeta. split.
      * intros _ n. apply Hin.
      * intros Hno. exfalso. apply Hno. exists s. apply Hin. left. reflexivity.
Qed.

Lemma seasonRange_sorted total : StronglySorted Z.lt (seasonRange total).
Proof.
  unfold seasonRange. generalize (Z.to_nat total) as k. generalize 1%nat as a.
  intros a k. revert a. induction k as [|k IH]; intros a; cbn; constructor.
  - apply IH.
  - apply Forall_forall. intros x Hx. apply in_map_iff in Hx.
    destruct Hx as (y & <- & Hy). apply in_seq in Hy. lia.
Qed.

Lemma filter_sorted {A} (R : A -> A -> Prop) f l :
  StronglySorted R l -> StronglySorted R (filter f l).
Proof.
  induction 1 as [|a l Hs IH Hall]; cbn; [constructor |].
  destruct (f a); [| exact IH]. constructor; [exact IH |].
  apply Forall_forall. intros x Hx. apply filter_In in Hx.
  rewrite Forall_forall in Hall. apply Hall. tauto.
Qed.

Lemma seasonRange_NoDup total : NoDup (seasonRange total).
Proof.
  unfold seasonRange. apply Injective_map_NoDup; [| apply seq_NoDup].
  intros x y. apply Nat2Z.inj.
Qed.

Lemma seasonRange_length total :
  (0 <= total)%Z -> Z.of_nat (List.length (seasonRange total)) = total.
Proof.
  intros H. unfold seasonRange. rewrite length_map, length_seq. lia.
Qed.

Section Completeness.

Variable env : Env.

(** X10.  checkSeasonCompleteness: an error of the Metadata Service is
    handed on; otherwise the missing seasons are exactly the numbers from 1
    to the total that are not among the existing ones, in ascending order,
    and the series is complete exactly when every number from 1 to the
    total is among them. *)
Theorem checkSeasonCompleteness_spec tmdbID existing st :
  (forall e, GetTVShowSeasons env (world st) tmdbID = Err e ->
     checkSeasonCompleteness env tmdbID existing st = (Err e, tick st)) /\
  (forall total, GetTVShowSeasons env (world st) tmdbID = Ok total ->
     exists complete missing,
       checkSeasonCompleteness env tmdbID existing st =
       (Ok (complete, missing, total), tick st) /\
       (forall i, In i missing <-> (1 <= i <= total)%Z /\ ~ In i existing) /\
       (complete = true <->
        forall i, (1 <= i <= total)%Z -> In i existing) /\
       StronglySorted Z.lt missing).
Proof.
  unfold checkSeasonCompleteness. split.
  - intros e H. rewrite H. reflexivity.
  - intros total H. rewrite H. eexists. eexists. split; [reflexivity |].
    assert (Hin : forall i,
               In i (filter (fun i => negb (containsSeason existing i))
                            (seasonRange total)) <->
               (1 <= i <= total)%Z /\ ~ In i existing).
    { intros i. rewrite filter_In, seasonRange_In, negb_true_iff.
      rewrite <- containsSeason_In.
      destruct (containsSeason existing i); intuition congruence. }
    split; [exact Hin |]. split.
    + rewrite Nat.eqb_eq, length_zero_iff_nil. split.
      * intros E i Hi. destruct (in_dec Z.eq_dec i existing) as [Hy|Hn];
          [exact Hy |].
        exfalso. assert (Hm : In i (filter (fun i => negb (containsSeason existing i))
                            (seasonRange total))) by (apply Hin; tauto).
        rewrite E in Hm. exact Hm.
      * intros Hall.
        destruct (filter (fun i => negb (containsSeason existing i))
                         (seasonRange total)) as [|i l] eqn:E; [reflexivity |].
        exfalso. assert (Hm : In i (i :: l)) by (left; reflexivity).
        apply Hin in Hm. destruct Hm as [Hi Hn].
        exact (Hn (Hall i Hi)).
    + apply filter_sorted. apply seasonRange_sorted.
Qed.

(** X11.  The flag that detection stores and the verdict of the report
    agree when the seasons on disk are distinct numbers up to the total:
    then the count of the seasons equals the total exactly when none from 1
    to the total is missing. *)
Theorem completeness_flags_agree mediaRecord st st' existing total :
  TMDbID mediaRecord <> "" ->
  GetTVShowSeasons env (world st) (TMDbID mediaRecord) = Ok total ->
  GetExistingSeasons (fs st) (TargetPath mediaRecord) = Ok existing ->
  GetTVShowSeasons env (world st') (TMDbID mediaRecord) = Ok total ->
  (0 <= total)%Z -> NoDup existing ->
  (forall i, In i existing -> (1 <= i <= total)%Z) ->
  exists flagged stD missing stC,
    DetectMissingSeasonsAndEpisodes env mediaRecord st = (Ok tt, flagged, stD) /\
    checkSeasonCompleteness env (TMDbID mediaRecord) existing st' =
    (Ok (IsComplete flagged, missing, total), stC).
Proof.
  intros Hid Hsvc Hdisk Hsvc' Htotal Hnd Hrange.
  assert (Hflag : (Z.of_nat (List.length existing) =? total)%Z =
                  Nat.eqb (List.length
                    (filter (fun i => negb (containsSeason existing i))
                            (seasonRange total))) 0).
  { destruct (Nat.eqb_spec (List.length
                    (filter (fun i => negb (containsSeason existing i))
                            (seasonRange total))) 0) as [E|E].
    - apply length_zero_iff_nil in E. apply Z.eqb_eq.
      assert (Hincl : incl (seasonRange total) existing).
      { intros i Hi. destruct (in_dec Z.eq_dec i existing) as [Hy|Hn];
          [exact Hy |].
        exfalso.
        assert (Hm : In i (filter (fun i => negb (containsSeason existing i))
                                  (seasonRange total))).
        { apply filter_In. split; [exact Hi |]. apply negb_true_iff.
          destruct (containsSeason existing i) eqn:C; [| reflexivity].
          apply containsSeason_In in C. contradiction. }
        rewrite E in Hm. exact Hm. }
      assert (Hincl' : incl existing (seasonRange total))
        by (intros i Hi; apply seasonRange_In; exact (Hrange i Hi)).
      pose proof (NoDup_incl_length (seasonRange_NoDup total) Hincl) as L1.
      pose proof (NoDup_incl_length Hnd Hincl') as L2.
      pose proof (seasonRange_length total Htotal) as L3. lia.
    - apply Z.eqb_neq. intros Hlen. apply E. apply length_zero_iff_nil.
      assert (Hincl' : incl existing (seasonRange total))
        by (intros i Hi; apply seasonRange_In; exact (Hrange i Hi)).
      assert (Hle : (List.length (seasonRange total) <= List.length existing)%nat).
      { pose proof (seasonRange_length total Htotal). lia. }
      pose proof (NoDup_length_incl Hnd Hle Hincl') as Hincl.
      destruct (filter (fun i => negb (containsSeason existing i))
                       (seasonRange total)) as [|i l] eqn:F; [reflexivity |].
      exfalso. assert (Hm : In i (i :: l)) by (left; reflexivity).
      rewrite <- F in Hm. apply filter_In in Hm. destruct Hm as [Hi Hc].
      apply negb_true_iff in Hc.
      assert (Hy : containsSeason existing i = true)
        by (apply containsSeason_In; exact (Hincl i Hi)).
      congruence. }
  unfold DetectMissingSeasonsAndEpisodes, checkSeasonCompleteness.
  apply String.eqb_neq in Hid. rewrite Hid, Hsvc, Hsvc'.
  change (fs (tick st)) with (fs st). rewrite Hdisk.
  destruct (InsertOrUpdateMediaRecord _ _ _) as [[u|e] d'];
    do 4 eexists; (split; [reflexivity |]); cbn; rewrite Hflag; reflexivity.
Qed.

End Completeness.

(** ** The properties on the sample series *)

Lemma GetExistingSeasons_spec_witness :
  GetExistingSeasons sampleSeriesTree ["Cloud"; "CnShow"; "沉默的真相"] = Ok [] /\
  GetExistingSeasons sampleSeriesTree ["Cloud"; "CnShow"; "繁花"; "tvshow.nfo"]
  = Err ErrReadTargetDir /\
  exists seasons,
    GetExistingSeasons sampleSeriesTree ["Cloud"; "CnShow"; "繁花"] = Ok seasons /\
    forall n, In n seasons <->
              (n > 0)%Z /\
              exists name c,
                In (name, Dir c)
                   [("Season 1", Dir [("E01.mkv", File "a")]);
                    ("Season 3", Dir [("E01.mkv", File "c")]);
                    ("tvshow.nfo", File "series")] /\
                GetSeasonNumberFromDirName name = n.
Proof.
  split; [| split].
  - apply (proj1 (GetExistingSeasons_spec sampleSeriesTree
                    ["Cloud"; "CnShow"; "沉默的真相"])).
    vm_compute. reflexivity.
  - apply (proj1 (proj2 (GetExistingSeasons_spec sampleSeriesTree
                           ["Cloud"; "CnShow"; "繁花"; "tvshow.nfo"])) "series").
    vm_compute. reflexivity.
  - apply (proj2 (proj2 (GetExistingSeasons_spec sampleSeriesTree
                           ["Cloud"; "CnShow"; "繁花"]))).
    vm_compute. reflexivity.
Defined.

Lemma GetNewSeasons_spec_witness :
  GetNewSeasons sampleTempTree ["Temp"; "沉默的真相"] = Err ErrReadSourceDir /\
  exists seasons,
    GetNewSeasons sampleTempTree ["Temp"; "繁花"] = Ok seasons /\
    let own := GetSeasonNumberFromDirName (Base ["Temp"; "繁花"]) in
    let inside n :=
      (n > 0)%Z /\
      exists name c,
        In (name, Dir c)
           [("tvshow.nfo", File "fanhua");
            ("Season 1", Dir [("E01.mkv", File "a")])] /\
        GetSeasonNumberFromDirName name = n in
    ((exists n, inside n) -> forall n, In n seasons <-> inside n) /\
    (~ (exists n, inside n) -> seasons = if (own >? 0)%Z then [own] else []).
Proof.
  split.
  - apply (proj1 (GetNewSeasons_spec sampleTempTree ["Temp"; "沉默的真相"])
             (ErrOs ENOENT)).
    vm_compute. reflexivity.
  - apply (proj2 (GetNewSeasons_spec sampleTempTree ["Temp"; "繁花"])).
    vm_compute. reflexivity.
Defined.

Lemma checkSeasonCompleteness_spec_witness :
  checkSeasonCompleteness offlineEnv "200001" [1%Z; 3%Z] sampleSeriesState
  = (Err ErrTMDB, tick sampleSeriesState) /\
  exists complete missing,
    checkSeasonCompleteness threeSeasonsEnv "200001" [1%Z; 3%Z] sampleSeriesState
    = (Ok (complete, missing, 3%Z), tick sampleSeriesState) /\
    (forall i, In i missing <-> (1 <= i <= 3)%Z /\ ~ In i [1%Z; 3%Z]) /\
    (complete = true <-> forall i, (1 <= i <= 3)%Z -> In i [1%Z; 3%Z]) /\
    StronglySorted Z.lt missing.
Proof.
  split.
  - apply (proj1 (checkSeasonCompleteness_spec offlineEnv "200001" [1%Z; 3%Z]
                    sampleSeriesState)).
    vm_compute. reflexivity.
  - apply (proj2 (checkSeasonCompleteness_spec threeSeasonsEnv "200001"
                    [1%Z; 3%Z] sampleSeriesState)).
    vm_compute. reflexivity.
Defined.

Lemma completeness_flags_agree_witness :
  exists flagged stD missing stC,
    DetectMissingSeasonsAndEpisodes threeSeasonsEnv sampleSeriesRecord
                                    sampleSeriesState = (Ok tt, flagged, stD) /\
    checkSeasonCompleteness threeSeasonsEnv (TMDbID sampleSeriesRecord)
                            [1%Z; 3%Z] sampleSeriesState =
    (Ok (IsComplete flagged, missing, 3%Z), stC).
Proof.
  apply (completeness_flags_agree threeSeasonsEnv sampleSeriesRecord
           sampleSeriesState sampleSeriesState [1%Z; 3%Z] 3%Z).
  - discriminate.
  - vm_compute. reflexivity.
  - vm_compute. reflexivity.
  - vm_compute. reflexivity.
  - lia.
  - repeat constructor; simpl; intuition discriminate.
  - intros i [<- | [<- | []]]; lia.
Defined.

(** * The catalog *)

Lemma upsert_twice_found_witness :
  let film := sampleRecord "无间道" "2002" "" CategoryCnMovie 0 in
  let d := snd (InsertOrUpdateMediaRecord 5 film emptyDB) in
  exists d1 d2 stored,
    InsertOrUpdateMediaRecord 10 film d = (Ok tt, d1) /\
    InsertOrUpdateMediaRecord 20 film d1 = (Ok tt, d2) /\
    map id (media_records d2) = map id (media_records d) /\
    lookupMediaRow film d2 = Some stored /\
    id stored = id (insertedRow 1 5 film) /\
    version stored = Some (1 + 2)%Z.
Proof.
  intros film d.
  apply (upsert_twice_found 10 20 film d (insertedRow 1 5 film) 1).
  - vm_compute. repeat constructor. simpl. tauto.
  - vm_compute. reflexivity.
  - vm_compute. reflexivity.
  - vm_compute. reflexivity.
  - lia.
Defined.

(** The rows of the catalog across an upsert. *)
Lemma InsertOrUpdateMediaRecord_keeps now record d :
  let d' := snd (InsertOrUpdateMediaRecord now record d) in
  (exists added,
      map rowIdentity (media_records d') =
      map rowIdentity (media_records d) ++ map rowIdentity added /\
      (List.length added <= 1)%nat) /\
  missing_seasons d' = missing_seasons d /\
  missing_episodes d' = missing_episodes d /\
  (forall e, fst (InsertOrUpdateMediaRecord now record d) = Err e -> d' = d).
Proof.
  cbv zeta. unfold InsertOrUpdateMediaRecord.
  destruct (lookupMediaRow record d) as [existing|].
  - destruct (version existing) as [v|]; cbn [fst snd].
    + split; [| split; [reflexivity | split; [reflexivity | discriminate]]].
      exists []. cbn [map List.length]. rewrite app_nil_r. split; [| lia].
      unfold setMediaRecords. cbn [media_records]. rewrite map_map.
      apply map_ext. intros row.
      destruct (id row =? id existing)%Z; reflexivity.
    + split; [| split; [reflexivity | split; [reflexivity | reflexivity]]].
      exists []. cbn [map List.length]. rewrite app_nil_r. split; [reflexivity | lia].
  - cbn [fst snd].
    split; [| split; [reflexivity | split; [reflexivity | discriminate]]].
    eexists [_]. unfold setMediaRecords. cbn [media_records].
    rewrite map_app. split; [reflexivity | cbn; lia].
Qed.


(** X13.  The upsert never deletes a row and never changes the key, title,
    year, season or processed time of a row: the rows after the call are
    those before it, with these columns as they were, followed by at most
    one new row; the tables of missing seasons and episodes are not
    touched; and a call that fails leaves the store as it was. *)
Theorem upsert_keeps_rows now record d :
  let d' := snd (InsertOrUpdateMediaRecord now record d) in
  (exists added,
      map rowIdentity (media_records d') =
      map rowIdentity (media_records d) ++ map rowIdentity added /\
      (List.length added <= 1)%nat) /\
  missing_seasons d' = missing_seasons d /\
  missing_episodes d' = missing_episodes d /\
  (forall e, fst (InsertOrUpdateMediaRecord now record d) = Err e -> d' = d).
Proof. exact (InsertOrUpdateMediaRecord_keeps now record d). Qed.

Section Reading.

Variable env : Env.

Lemma scanMediaRows_spec rows : forall w,
  (exists row, In row rows /\ processed_at row = None) /\
  fst (scanMediaRows env w rows) = Err ErrScanNull
  \/
  (forall row, In row rows -> processed_at row <> None) /\
  exists records w',
    scanMediaRows env w rows = (Ok records, w') /\
    map ID records = map id rows /\
    map Version records =
      map (fun row => match version row with Some v => v | None => 1%Z end) rows /\
    map IsComplete records =
      map (fun row => match is_complete row with Some v => v | None => false end)
          rows.
Proof.
  induction rows as [|row rows IH]; intros w.
  - right. split; [intros row []|]. exists [], w. repeat split.
  - cbn [scanMediaRows]. unfold scanMediaRow.
    destruct (processed_at row) as [p|] eqn:Ep.
    + set (w1 := match updated_at row with Some _ => w | None => S w end).
      destruct (IH w1) as [((bad & Hin & Hbad) & Herr) | (Hall & records & w' & Hrun & H1 & H2 & H3)].
      * left. split; [exists bad; split; [right; exact Hin | exact Hbad] |].
        destruct (scanMediaRows env w1 rows) as [[r|e] w2]; cbn in *;
          [discriminate | exact Herr].
      * right. split.
        -- intros r [<- | Hin]; [rewrite Ep; discriminate | exact (Hall r Hin)].
        -- rewrite Hrun. eexists. eexists. split; [reflexivity |].
           cbn [map ID Version IsComplete]. rewrite H1, H2, H3. repeat split.
    + left. split; [exists row; split; [left; reflexivity | exact Ep] |].
      reflexivity.
Qed.

(** X14.  GetMediaRecords returns one record for each row that passes the
    filter, in the order of the table, with the key of the row, version 1
    for a NULL version and false for a NULL completeness flag; it fails,
    with the error of the scan, exactly when a row that passes the filter
    has no processed time. *)
Theorem GetMediaRecords_reads_selected_rows w filter d :
  let selected := List.filter (mediaRowPasses env filter) (media_records d) in
  ((exists row, In row selected /\ processed_at row = None) <->
   fst (GetMediaRecords env w filter d) = Err ErrScanNull) /\
  ((forall row, In row selected -> processed_at row <> None) <->
   exists records w',
     GetMediaRecords env w filter d = (Ok records, w') /\
     map ID records = map id selected /\
     map Version records =
       map (fun row => match version row with Some v => v | None => 1%Z end)
           selected /\
     map IsComplete records =
       map (fun row => match is_complete row with Some v => v | None => false end)
           selected).
Proof.
  cbv zeta. unfold GetMediaRecords.
  set (selected := List.filter (mediaRowPasses env filter) (media_records d)).
  destruct (scanMediaRows_spec selected w)
    as [((bad & Hin & Hbad) & Herr) | (Hall & records & w' & Hrun & Hr)].
  - split; split.
    + intros _. exact Herr.
    + intros _. exists bad. tauto.
    + intros Hall. exfalso. exact (Hall bad Hin Hbad).
    + intros (records & w' & Hrun & _). rewrite Hrun in Herr. discriminate.
  - split; split.
    + intros (bad & Hin & Hbad). exfalso. exact (Hall bad Hin Hbad).
    + intros Herr. rewrite Hrun in Herr. discriminate.
    + intros _. exists records, w'. split; [exact Hrun | exact Hr].
    + intros _. exact Hall.
Qed.

(** X15.  The filter on completeness: every record GetMediaRecords returns
    under the filter is_complete = b has that flag, and a row whose flag is
    NULL is returned under neither value of the filter, though it reads as
    not complete without one. *)
Theorem GetMediaRecords_completeness_filter w b d records w' :
  GetMediaRecords env w
    {| fTitle := None; fIsComplete := Some b; fCategory := None;
       fTMDbID := None; fSeason := None |} d = (Ok records, w') ->
  (forall record, In record records -> IsComplete record = b) /\
  map ID records =
  map id (List.filter (fun row => match is_complete row with
                                  | Some v => Bool.eqb v b
                                  | None => false
                                  end) (media_records d)).
Proof.
  intros Hrun.
  set (f := {| fTitle := None; fIsComplete := Some b; fCategory := None;
               fTMDbID := None; fSeason := None |}) in *.
  assert (Hpass : forall row, mediaRowPasses env f row =
                              match is_complete row with
                              | Some v => Bool.eqb v b
                              | None => false
                              end).
  { intros row. unfold mediaRowPasses, f. cbn.
    destruct (is_complete row); [rewrite andb_true_r |]; reflexivity. }
  destruct (scanMediaRows_spec (List.filter (mediaRowPasses env f) (media_records d)) w)
    as [(_ & Herr) | (Hall & records0 & w0 & Hrun0 & H1 & H2 & H3)].
  - unfold GetMediaRecords in Hrun. rewrite Hrun in Herr. discriminate.
  - unfold GetMediaRecords in Hrun. rewrite Hrun in Hrun0.
    injection Hrun0 as <- <-. split.
    + intros record Hin.
      apply (in_map IsComplete) in Hin. rewrite H3 in Hin.
      apply in_map_iff in Hin. destruct Hin as (row & Hrow & Hsel).
      apply filter_In in Hsel. destruct Hsel as [_ Hp]. rewrite Hpass in Hp.
      destruct (is_complete row) as [v|]; [| discriminate].
      apply Bool.eqb_prop in Hp. congruence.
    + rewrite H1. f_equal. apply filter_ext. exact Hpass.
Qed.

(** X16.  A row whose version is NULL can be read, as version 1, and can
    not be updated: the upsert of a record whose lookup finds it fails with
    the error of the scan and leaves the store as it was. *)
Theorem null_version_row_is_read_only now record d existing w processedAt :
  lookupMediaRow record d = Some existing ->
  version existing = None ->
  processed_at existing = Some processedAt ->
  InsertOrUpdateMediaRecord now record d = (Err ErrScanNull, d) /\
  exists stored,
    scanMediaRow (Now env w) existing = Ok stored /\
    ID stored = id existing /\ Version stored = 1%Z.
Proof.
  intros Hl Hv Hp. split.
  - unfold InsertOrUpdateMediaRecord. rewrite Hl, Hv. reflexivity.
  - unfold scanMediaRow. rewrite Hp, Hv. eexists. repeat split.
Qed.

End Reading.

(** ** The properties on a sample store *)

Lemma GetMediaRecords_completeness_filter_witness :
  exists records,
    GetMediaRecords offlineEnv 0
      {| fTitle := None; fIsComplete := Some false; fCategory := None;
         fTMDbID := None; fSeason := None |} sampleCatalog = (Ok records, 0) /\
    (forall record, In record records -> IsComplete record = false) /\
    map ID records = [3%Z].
Proof.
  eexists. split; [vm_compute; reflexivity |].
  apply (GetMediaRecords_completeness_filter offlineEnv 0 false sampleCatalog
           _ 0).
  vm_compute. reflexivity.
Defined.

Lemma null_version_row_is_read_only_witness :
  let film := sampleRecord "无间道" "2002" "" CategoryCnMovie 0 in
  InsertOrUpdateMediaRecord 9 film sampleCatalog = (Err ErrScanNull, sampleCatalog) /\
  exists stored,
    scanMediaRow (Now offlineEnv 0) (rowWithoutFlags 2 6 film) = Ok stored /\
    ID stored = 2%Z /\ Version stored = 1%Z.
Proof.
  intros film.
  apply (null_version_row_is_read_only offlineEnv 9 film sampleCatalog
           (rowWithoutFlags 2 6 film) 0 6);
    vm_compute; reflexivity.
Defined.

(** * Classification and the guards of a run *)

(** X17.  The categories of DetermineCategory: one of the ten; a series
    always gets a category that ends in Show, a film gets one exactly when
    a genre makes it a documentary or a variety programme, which the
    catalog then takes for a series. *)
Theorem DetermineCategory_categories ToLower countries isTVShow genres category :
  DetermineCategory ToLower countries isTVShow genres = Ok category ->
  In category [CategoryCnMovie; CategoryCnShow; CategoryEnMovie; CategoryEnShow;
               CategoryJpKrShow; CategoryJpKrMovie; CategoryDmMovie;
               CategoryDmShow; CategoryJlShow; CategoryXSShow] /\
  likeShow category =
  (isTVShow || existsb (isDocumentaryGenre ToLower) genres
            || existsb (isVarietyGenre ToLower) genres).
Proof.
  unfold DetermineCategory.
  destruct (existsb (isDocumentaryGenre ToLower) genres);
    [intros [= <-]; rewrite orb_true_r; split; [simpl; tauto | reflexivity] |].
  destruct (existsb (isVarietyGenre ToLower) genres);
    [intros [= <-]; rewrite orb_true_r; split; [simpl; tauto | reflexivity] |].
  rewrite !orb_false_r.
  destruct (existsb (isAnimeGenre ToLower) genres).
  - destruct isTVShow; intros [= <-]; split; simpl; tauto.
  - destruct countries as [|country rest]; [discriminate |].
    destruct (isJpKrCountry ToLower country);
      [destruct isTVShow; intros [= <-]; split; simpl; tauto |].
    destruct (isCnCountry ToLower country);
      destruct isTVShow; intros [= <-]; split; simpl; tauto.
Qed.

Lemma DetermineCategory_categories_witness :
  In CategoryJlShow
     [CategoryCnMovie; CategoryCnShow; CategoryEnMovie; CategoryEnShow;
      CategoryJpKrShow; CategoryJpKrMovie; CategoryDmMovie;
      CategoryDmShow; CategoryJlShow; CategoryXSShow] /\
  likeShow CategoryJlShow =
  (false || existsb (isDocumentaryGenre Strings.ToLowerASCII) ["纪录片"]
         || existsb (isVarietyGenre Strings.ToLowerASCII) ["纪录片"]).
Proof.
  apply (DetermineCategory_categories Strings.ToLowerASCII ["英国"] false
           ["纪录片"] CategoryJlShow).
  vm_compute. reflexivity.
Defined.

Section Guards.

Variable env : Env.

Lemma classifyResolved_project nfoPath nfo isTVShow countries st :
  isProjectDirectory (fs st) (DirOf nfoPath) = true ->
  fs (snd (classifyResolved env nfoPath nfo isTVShow countries st)) = fs st /\
  db (snd (classifyResolved env nfoPath nfo isTVShow countries st)) = db st.
Proof.
  intros H. unfold classifyResolved.
  destruct countries as [|country rest]; [split; reflexivity |].
  destruct (DetermineCategory (ToLower env) (country :: rest) isTVShow
                              (nGenres nfo)); [| split; reflexivity].
  rewrite H. split; reflexivity.
Qed.

(** X18.  A directory that holds a project file (go.mod, Makefile, .git and
    the like) is never moved and never recorded: whatever the metadata
    file says and whatever ClassifyAndMove returns, tree and store are
    those before the call. *)
Theorem project_directory_is_left_alone nfoPath st :
  isProjectDirectory (fs st) (DirOf nfoPath) = true ->
  fs (snd (ClassifyAndMove env nfoPath st)) = fs st /\
  db (snd (ClassifyAndMove env nfoPath st)) = db st.
Proof.
  intros H. unfold ClassifyAndMove.
  destruct (ParseNFO env (fs st) nfoPath) as [nfo|e]; [| split; reflexivity].
  destruct (ReadDir (fs st) (DirOf nfoPath)) as [entries|e];
    [| split; reflexivity].
  destruct (countNFO env entries >? 1)%Z; [split; reflexivity |].
  destruct (isNFOResolved env nfo); [| split; reflexivity]. cbn [negb].
  pose proof (resolveCountries_state env nfo (IsTVShow nfo) st) as [Hfs Hdb].
  destruct (resolveCountries env nfo (IsTVShow nfo) st) as [countries st1].
  cbn [snd] in Hfs, Hdb.
  rewrite <- Hfs in H.
  destruct (classifyResolved_project nfoPath nfo (IsTVShow nfo) countries st1 H)
    as [Gfs Gdb].
  rewrite Gfs, Gdb. tauto.
Qed.

(** X19.  An answer of the Metadata Service replaces the countries of the
    metadata file even when it names no country: the title is then passed
    over as one without country information, with a warning, and nothing
    is moved or recorded, whatever countries the file names. *)
Theorem empty_service_answer_overrides_file nfoPath st nfo entries :
  ParseNFO env (fs st) nfoPath = Ok nfo ->
  ReadDir (fs st) (DirOf nfoPath) = Ok entries ->
  (countNFO env entries >? 1)%Z = false ->
  isNFOResolved env nfo = true ->
  nTMDbID nfo <> "" ->
  TMDBApiKey (cfg env) <> "" ->
  GetProductionCountries env (world st) (nTMDbID nfo) (IsTVShow nfo) = Ok [] ->
  exists st',
    ClassifyAndMove env nfoPath st = (Ok tt, st') /\
    fs st' = fs st /\ db st' = db st /\
    In LogNoCountry (log st').
Proof.
  intros Hparse Hdir Hcount Hres Hid Hkey Hsvc.
  unfold ClassifyAndMove. rewrite Hparse, Hdir, Hcount, Hres. cbn [negb].
  unfold resolveCountries.
  apply String.eqb_neq in Hid, Hkey. rewrite Hid, Hkey, Hsvc. cbn [negb].
  rewrite classifyResolved_no_country.
  eexists. split; [reflexivity |]. cbn.
  repeat split. apply in_or_app. right. left. reflexivity.
Qed.

Lemma filter_two {A} (f : A -> bool) (l : list A) a b :
  In a l -> In b l -> a <> b -> f a = true -> f b = true ->
  (2 <= List.length (filter f l))%nat.
Proof.
  intros Ha Hb Hab Hfa Hfb.
  assert (Hia : In a (filter f l)) by (apply filter_In; tauto).
  assert (Hib : In b (filter f l)) by (apply filter_In; tauto).
  destruct (filter f l) as [|x [|y rest]]; cbn in *; try lia; try tauto.
  destruct Hia as [<- | []], Hib as [<- | []]. contradiction.
Qed.

(** X20.  A media directory with two metadata files (extension .nfo, in
    any case) is passed over: for a file that parses, ClassifyAndMove
    returns nil, logs the count and changes neither tree nor store, before
    any request to the Metadata Service. *)
Theorem two_metadata_files_are_passed_over nfoPath st nfo entries name1 name2 :
  ParseNFO env (fs st) nfoPath = Ok nfo ->
  Stat (fs st) (DirOf nfoPath) = Ok (Dir entries) ->
  name1 <> name2 ->
  (exists data, In (name1, File data) entries) ->
  (exists data, In (name2, File data) entries) ->
  ToLower env (Ext name1) = ".nfo" -> ToLower env (Ext name2) = ".nfo" ->
  exists count,
    (2 <= count)%Z /\
    ClassifyAndMove env nfoPath st = (Ok tt, logf (LogMultipleNFO count) st).
Proof.
  intros Hparse Hdir Hne (d1 & H1) (d2 & H2) He1 He2.
  unfold ClassifyAndMove. rewrite Hparse, (ReadDir_of_dir _ _ _ Hdir).
  set (listed := sortByName (map (fun e => (fst e, isDirNode (snd e))) entries)).
  assert (Hcount : (2 <= countNFO env listed)%Z).
  { unfold countNFO.
    assert (Hl : (2 <= List.length
                   (filter (fun entry => negb (snd entry) &&
                              String.eqb (ToLower env (Ext (fst entry))) ".nfo")
                           listed))%nat).
    { apply (filter_two _ listed (name1, false) (name2, false)).
      - apply In_sortByName. apply in_map_iff. exists (name1, File d1). tauto.
      - apply In_sortByName. apply in_map_iff. exists (name2, File d2). tauto.
      - congruence.
      - cbn. rewrite He1. reflexivity.
      - cbn. rewrite He2. reflexivity. }
    lia. }
  exists (countNFO env listed). split; [exact Hcount |].
  assert (Hgt : (countNFO env listed >? 1)%Z = true) by (apply Z.gtb_lt; lia).
  rewrite Hgt. reflexivity.
Qed.

End Guards.

(** ** The guards on sample trees *)

Lemma project_directory_is_left_alone_witness :
  fs (snd (ClassifyAndMove offlineEnv ["Temp"; "繁花"; "tvshow.nfo"]
                           (stateOf projectTree))) = projectTree /\
  db (snd (ClassifyAndMove offlineEnv ["Temp"; "繁花"; "tvshow.nfo"]
                           (stateOf projectTree))) = emptyDB.
Proof.
  apply (project_directory_is_left_alone offlineEnv
           ["Temp"; "繁花"; "tvshow.nfo"] (stateOf projectTree)).
  vm_compute. reflexivity.
Defined.

Lemma empty_service_answer_overrides_file_witness :
  nCountry (sampleNFO "tvshow" "繁花" ["中国大陆"] ["剧情"] "200001" "")
  = ["中国大陆"] /\
  exists st',
    ClassifyAndMove noCountryEnv ["Temp"; "繁花"; "tvshow.nfo"]
                    (stateOf sampleTempTree) = (Ok tt, st') /\
    fs st' = sampleTempTree /\ db st' = emptyDB /\
    In LogNoCountry (log st').
Proof.
  split; [reflexivity |].
  apply (empty_service_answer_overrides_file noCountryEnv
           ["Temp"; "繁花"; "tvshow.nfo"] (stateOf sampleTempTree)
           (sampleNFO "tvshow" "繁花" ["中国大陆"] ["剧情"] "200001" "")
           [("Season 1", true); ("tvshow.nfo", false)]).
  - vm_compute. reflexivity.
  - vm_compute. reflexivity.
  - vm_compute. reflexivity.
  - vm_compute. reflexivity.
  - discriminate.
  - discriminate.
  - vm_compute. reflexivity.
Defined.

Lemma two_metadata_files_are_passed_over_witness :
  exists count,
    (2 <= count)%Z /\
    ClassifyAndMove offlineEnv ["Temp"; "繁花"; "tvshow.nfo"]
                    (stateOf twoFilesTree) =
    (Ok tt, logf (LogMultipleNFO count) (stateOf twoFilesTree)).
Proof.
  apply (two_metadata_files_are_passed_over offlineEnv
           ["Temp"; "繁花"; "tvshow.nfo"] (stateOf twoFilesTree)
           (sampleNFO "tvshow" "繁花" ["中国大陆"] ["剧情"] "200001" "")
           [("tvshow.nfo", File "fanhua"); ("Movie.NFO", File "inception");
            ("Season 1", Dir [("E01.mkv", File "a")])]
           "tvshow.nfo" "Movie.NFO").
  - vm_compute. reflexivity.
  - vm_compute. reflexivity.
  - discriminate.
  - exists "fanhua". left. reflexivity.
  - exists "inception". right. left. reflexivity.
  - vm_compute. reflexivity.
  - vm_compute. reflexivity.
Defined.

(** * Detection and the list of missing seasons *)

Section DetectionListing.

Variable env : Env.

(** X22.  Detection, when the Metadata Service answers and the destination
    can be listed, followed by GetMissingSeasons for the series: detection
    returns nil and leaves the tree alone; the list then holds a row of
    the title for every season from 1 to the total that is not on disk, and
    holds no row that was not in the table before other than rows of the
    title for such seasons; the keys of the rows that are missing stay
    distinct. *)
Theorem detection_lists_missing_seasons mediaRecord st total existing :
  TMDbID mediaRecord <> "" ->
  GetTVShowSeasons env (world st) (TMDbID mediaRecord) = Ok total ->
  GetExistingSeasons (fs st) (TargetPath mediaRecord) = Ok existing ->
  exists flagged st' listed,
    DetectMissingSeasonsAndEpisodes env mediaRecord st = (Ok tt, flagged, st') /\
    fs st' = fs st /\
    GetMissingSeasons env (byTMDbID (TMDbID mediaRecord)) (db st') = Ok listed /\
    (forall i, (1 <= i <= total)%Z -> ~ In i existing ->
       exists row, In row listed /\ sTitle row = Title mediaRecord /\
                   sSeason row = i) /\
    (forall row, In row listed ->
       In row (missing_seasons (db st)) \/
       (sTitle row = Title mediaRecord /\ (1 <= sSeason row <= total)%Z /\
        ~ In (sSeason row) existing)) /\
    (uniqueMissing (db st) -> uniqueMissing (db st')).
Proof.
  intros Hid Hsvc Hdisk.
  destruct (DetectMissingSeasonsAndEpisodes_spec env mediaRecord st total
              existing Hid Hsvc Hdisk)
    as (st' & loop & Hrun & Hfs & _ & _ & Hall & Hrows & Huniq).
  cbv zeta in Hrun.
  eexists. exists st'. eexists.
  split; [exact Hrun |]. split; [exact Hfs |]. split; [reflexivity |].
  split; [| split; [| exact Huniq]].
  - intros i Hi Hno.
    assert (Hc : containsSeason existing i = false).
    { destruct (containsSeason existing i) eqn:C; [| reflexivity].
      apply containsSeason_In in C. contradiction. }
    pose proof (Hall i Hi Hc) as Hex. apply existsb_exists in Hex.
    destruct Hex as (row & Hin & Hsel).
    unfold selectsMissingSeason in Hsel. cbn in Hsel.
    apply andb_true_iff in Hsel. destruct Hsel as [Hsel Hst].
    apply andb_true_iff in Hsel. destruct Hsel as [Hsel Hse].
    apply andb_true_iff in Hsel. destruct Hsel as [Hti Htm].
    apply String.eqb_eq in Hti, Htm. apply Z.eqb_eq in Hse.
    exists row. split; [| split; [exact Hti | exact Hse]].
    apply filter_In. split; [exact Hin |].
    unfold missingSeasonPasses, byTMDbID. cbn.
    rewrite Hst. apply String.eqb_neq in Hid. rewrite Hid.
    rewrite Htm, String.eqb_refl. reflexivity.
  - intros row Hin. apply filter_In in Hin. destruct Hin as [Hin _].
    destruct (Hrows row Hin) as [Hold | (H1 & H2 & H3 & H4 & H5)];
      [left; exact Hold |].
    right. split; [exact H1 |]. split; [exact H3 |].
    intros C. apply containsSeason_In in C. congruence.
Qed.

End DetectionListing.

(** The sample series lacks season 2 of three. *)
Lemma detection_lists_missing_seasons_witness :
  exists flagged st' listed,
    DetectMissingSeasonsAndEpisodes threeSeasonsEnv sampleSeriesRecord
                                    sampleSeriesState = (Ok tt, flagged, st') /\
    fs st' = fs sampleSeriesState /\
    GetMissingSeasons threeSeasonsEnv (byTMDbID (TMDbID sampleSeriesRecord))
                      (db st') = Ok listed /\
    (forall i, (1 <= i <= 3)%Z -> ~ In i [1%Z; 3%Z] ->
       exists row, In row listed /\ sTitle row = Title sampleSeriesRecord /\
                   sSeason row = i) /\
    (forall row, In row listed ->
       In row (missing_seasons (db sampleSeriesState)) \/
       (sTitle row = Title sampleSeriesRecord /\ (1 <= sSeason row <= 3)%Z /\
        ~ In (sSeason row) [1%Z; 3%Z])) /\
    (uniqueMissing (db sampleSeriesState) -> uniqueMissing (db st')).
Proof.
  apply (detection_lists_missing_seasons threeSeasonsEnv sampleSeriesRecord
           sampleSeriesState 3%Z [1%Z; 3%Z]).
  - discriminate.
  - vm_compute. reflexivity.
  - vm_compute. reflexivity.
Defined.

(** * What a run does to the store *)

Lemma extendsStore_refl d : extendsStore d d.
Proof.
  split; [exists []; rewrite app_nil_r; reflexivity |].
  split; [exists []; rewrite app_nil_r; reflexivity |].
  split; [reflexivity | tauto].
Qed.

Lemma extendsStore_trans d1 d2 d3 :
  extendsStore d1 d2 -> extendsStore d2 d3 -> extendsStore d1 d3.
Proof.
  intros ((a1 & H1) & (b1 & H2) & H3 & H4) ((a2 & G1) & (b2 & G2) & G3 & G4).
  split; [exists (a1 ++ a2); rewrite G1, H1, app_assoc; reflexivity |].
  split; [exists (b1 ++ b2); rewrite G2, H2, app_assoc; reflexivity |].
  split; [congruence | tauto].
Qed.

Lemma InsertOrUpdateMediaRecord_extends now record d :
  extendsStore d (snd (InsertOrUpdateMediaRecord now record d)).
Proof.
  destruct (InsertOrUpdateMediaRecord_keeps now record d)
    as ((added & Hrows & _) & Hs & He & _).
  split; [exists (map rowIdentity added); exact Hrows |].
  split; [exists []; rewrite app_nil_r; exact Hs |].
  split; [exact He |].
  unfold uniqueMissing, missingSeasonRows, missingEpisodeRows.
  rewrite Hs, He. tauto.
Qed.

Lemma InsertMissingSeason_extends now1 now2 record d :
  extendsStore d (snd (InsertMissingSeason now1 now2 record d)).
Proof.
  split; [| split; [| split]].
  - exists []. rewrite app_nil_r. unfold InsertMissingSeason.
    destruct (find _ _); reflexivity.
  - unfold InsertMissingSeason. destruct (find _ _); cbn.
    + exists []. rewrite app_nil_r. reflexivity.
    + eexists. reflexivity.
  - unfold InsertMissingSeason. destruct (find _ _); reflexivity.
  - apply InsertMissingSeason_unique.
Qed.

Lemma extendsStore_row d d' row :
  extendsStore d d' -> In row (media_records d) ->
  exists row', In row' (media_records d') /\ rowIdentity row' = rowIdentity row.
Proof.
  intros ((added & H) & _) Hin.
  assert (Hid : In (rowIdentity row) (map rowIdentity (media_records d'))).
  { rewrite H. apply in_or_app. left. apply in_map. exact Hin. }
  apply in_map_iff in Hid. destruct Hid as (row' & E & Hin').
  exists row'. tauto.
Qed.

(** After an upsert, failed or not, the catalog has a row of the title and
    year of the record. *)
Lemma InsertOrUpdateMediaRecord_row now record d :
  exists row,
    In row (media_records (snd (InsertOrUpdateMediaRecord now record d))) /\
    title row = Some (Title record) /\ year row = Some (Year record).
Proof.
  unfold InsertOrUpdateMediaRecord.
  destruct (lookupMediaRow record d) as [existing|] eqn:El.
  - assert (Hex : In existing (media_records d) /\
                  title existing = Some (Title record) /\
                  year existing = Some (Year record)).
    { unfold lookupMediaRow in El.
      assert (Hs : forall v s, sqlEq v s = true -> v = Some s).
      { intros [v|] s Hv; cbn in Hv; [| discriminate].
        apply String.eqb_eq in Hv. congruence. }
      destruct (String.eqb (Season record) "");
        apply find_some in El; destruct El as [Hin Hsel];
        [unfold selectsMovie in Hsel | unfold selectsShow in Hsel];
        repeat (apply andb_true_iff in Hsel; destruct Hsel as [Hsel ?]);
        repeat split; auto. }
    destruct Hex as (Hin & Ht & Hy).
    destruct (version existing) as [v|]; cbn [snd].
    + exists (updatedRow now v record existing). split; [| split; assumption].
      unfold setMediaRecords. cbn [media_records].
      apply in_map_iff. exists existing. rewrite Z.eqb_refl. tauto.
    + exists existing. tauto.
  - cbn [snd]. eexists. split.
    + unfold setMediaRecords. cbn [media_records]. apply in_or_app. right.
      left. reflexivity.
    + split; reflexivity.
Qed.

Section RunStore.

Variable env : Env.

Lemma recordIfMissing_extends mr existing i st :
  extendsStore (db st) (db (recordIfMissing env mr existing i st)).
Proof.
  rewrite recordIfMissing_db. destruct (containsSeason existing i).
  - apply extendsStore_refl.
  - apply InsertMissingSeason_extends.
Qed.

Lemma fold_recordIfMissing_extends mr existing l st :
  extendsStore (db st)
    (db (fold_left (fun st i => recordIfMissing env mr existing i st) l st)).
Proof.
  revert st. induction l as [|i l IH]; intros st; simpl.
  - apply extendsStore_refl.
  - eapply extendsStore_trans; [apply recordIfMissing_extends | apply IH].
Qed.

Lemma DetectMissingSeasonsAndEpisodes_extends mediaRecord st :
  extendsStore (db st)
    (db (snd (DetectMissingSeasonsAndEpisodes env mediaRecord st))).
Proof.
  unfold DetectMissingSeasonsAndEpisodes.
  destruct (String.eqb (TMDbID mediaRecord) ""); [apply extendsStore_refl |].
  destruct (GetTVShowSeasons env (world st) (TMDbID mediaRecord)) as [total|e];
    [| apply extendsStore_refl].
  destruct (GetExistingSeasons (fs (tick st)) (TargetPath mediaRecord))
    as [existing|e]; [| apply extendsStore_refl].
  set (loop := fold_left _ _ (tick st)).
  pose proof (fold_recordIfMissing_extends mediaRecord existing
                (seasonRange total) (tick st)) as H1.
  fold loop in H1. change (db (tick st)) with (db st) in H1.
  set (flagged := setIsComplete _ mediaRecord).
  pose proof (InsertOrUpdateMediaRecord_extends (Now env (world loop)) flagged
                (db loop)) as H2.
  destruct (InsertOrUpdateMediaRecord (Now env (world loop)) flagged (db loop))
    as [[u|e] d']; cbn in *; exact (extendsStore_trans _ _ _ H1 H2).
Qed.

Lemma recordAndDetect_extends nfo isTVShow target mediaRecord st :
  extendsStore (db st)
    (db (snd (recordAndDetect env nfo isTVShow target mediaRecord st))).
Proof.
  unfold recordAndDetect. cbn [snd].
  set (st1 := match InsertOrUpdateMediaRecord _ _ _ with
              | (Ok _, d') => _ | (Err _, d') => _ end).
  assert (H1 : extendsStore (db st) (db st1)).
  { unfold st1.
    pose proof (InsertOrUpdateMediaRecord_extends (Now env (world st))
                  mediaRecord (db st)) as H.
    destruct (InsertOrUpdateMediaRecord _ _ _) as [[u|e] d']; exact H. }
  destruct (isTVShow && negb (String.eqb (nTMDbID nfo) "")); [| exact H1].
  set (st2 := match DetectMissingSeasonsAndEpisodes env mediaRecord st1 with
              | (Ok _, _, st') => st' | (Err e, _, st') => _ end).
  assert (H2 : extendsStore (db st1) (db st2)).
  { unfold st2.
    pose proof (DetectMissingSeasonsAndEpisodes_extends mediaRecord st1) as H.
    destruct (DetectMissingSeasonsAndEpisodes env mediaRecord st1)
      as [[[u|e] r] st']; exact H. }
  destruct (ReportSeasonStatus_state env (nTitle nfo) (nTMDbID nfo) target st2)
    as (_ & H3 & _).
  destruct (ReportSeasonStatus env (nTitle nfo) (nTMDbID nfo) target st2)
    as [[u|e] st3]; cbn in *; rewrite H3;
    exact (extendsStore_trans _ _ _ H1 H2).
Qed.

(** After the record is written and detection has run, the catalog has a
    row of the title and year of the record. *)
Lemma recordAndDetect_row nfo isTVShow target mediaRecord st :
  exists row,
    In row (media_records
              (db (snd (recordAndDetect env nfo isTVShow target mediaRecord st))))
    /\ title row = Some (Title mediaRecord) /\ year row = Some (Year mediaRecord).
Proof.
  unfold recordAndDetect. cbn [snd].
  set (st1 := match InsertOrUpdateMediaRecord _ _ _ with
              | (Ok _, d') => _ | (Err _, d') => _ end).
  assert (H1 : exists row, In row (media_records (db st1)) /\
                           title row = Some (Title mediaRecord) /\
                           year row = Some (Year mediaRecord)).
  { unfold st1.
    pose proof (InsertOrUpdateMediaRecord_row (Now env (world st)) mediaRecord
                  (db st)) as H.
    destruct (InsertOrUpdateMediaRecord _ _ _) as [[u|e] d']; exact H. }
  destruct (isTVShow && negb (String.eqb (nTMDbID nfo) "")); [| exact H1].
  set (st2 := match DetectMissingSeasonsAndEpisodes env mediaRecord st1 with
              | (Ok _, _, st') => st' | (Err e, _, st') => _ end).
  assert (H2 : extendsStore (db st1) (db st2)).
  { unfold st2.
    pose proof (DetectMissingSeasonsAndEpisodes_extends mediaRecord st1) as H.
    destruct (DetectMissingSeasonsAndEpisodes env mediaRecord st1)
      as [[[u|e] r] st']; exact H. }
  destruct H1 as (row & Hin & Ht & Hy).
  destruct (extendsStore_row _ _ row H2 Hin) as (row' & Hin' & Hid).
  unfold rowIdentity in Hid. injection Hid as _ Ht' Hy' _ _.
  destruct (ReportSeasonStatus_state env (nTitle nfo) (nTMDbID nfo) target st2)
    as (_ & H3 & _).
  destruct (ReportSeasonStatus env (nTitle nfo) (nTMDbID nfo) target st2)
    as [[u|e] st3]; cbn in *; rewrite H3;
    exists row'; (split; [exact Hin' | split; congruence]).
Qed.

(** The record prepared for a metadata file has its title and year. *)
Lemma prepareMediaRecord_key nfoPath nfo isTVShow countries category
    mediaDir target st :
  Title (fst (prepareMediaRecord env nfoPath nfo isTVShow countries category
                                 mediaDir target st)) = nTitle nfo /\
  Year (fst (prepareMediaRecord env nfoPath nfo isTVShow countries category
                                mediaDir target st)) = nYear nfo.
Proof.
  unfold prepareMediaRecord.
  destruct isTVShow; [| split; reflexivity].
  unfold getExistingTVShowRecord.
  destruct (GetMediaRecords env (world st) noFilter (db st)) as [[records|e] w];
    [| split; reflexivity].
  destruct (find _ records) as [old|] eqn:Ef; [| split; reflexivity].
  apply find_some in Ef. destruct Ef as [_ Hsel].
  apply andb_true_iff in Hsel. destruct Hsel as [Hsel _].
  apply andb_true_iff in Hsel. destruct Hsel as [_ Ht].
  apply String.eqb_eq in Ht. split; [exact Ht | reflexivity].
Qed.

Lemma mergeEntry_db mediaDir target entry st :
  db (mergeEntry env mediaDir target entry st) = db st.
Proof.
  unfold mergeEntry. destruct entry as [name isDir].
  destruct (match Stat (fs st) (Join target name) with
            | Ok _ => false | Err e => IsNotExist e end).
  - destruct isDir.
    + destruct (MoveDirectory _ _ _ _) as [[u|e] fs']; reflexivity.
    + destruct (Rename _ _ _ _); reflexivity.
  - destruct (GetSeasonNumberFromDirName name >? 0)%Z; [| reflexivity].
    destruct (negb _); [| reflexivity].
    destruct (MoveDirectory _ _ _ _) as [[u|e] fs']; reflexivity.
Qed.

Lemma mergeIntoTarget_db mediaDir target seasonsToAdd st :
  db (snd (mergeIntoTarget env mediaDir target seasonsToAdd st)) = db st.
Proof.
  unfold mergeIntoTarget.
  destruct (ReadDir _ mediaDir) as [entries|e]; [| reflexivity].
  cbn [snd].
  set (st1 := logf (LogMergeNewSeasons seasonsToAdd) st).
  assert (H : forall l s, db (fold_left (fun st entry =>
                 mergeEntry env mediaDir target entry st) l s) = db s).
  { induction l as [|x l IH]; intros s; simpl; [reflexivity |].
    rewrite IH. apply mergeEntry_db. }
  destruct (RemoveAll _ mediaDir); cbn; rewrite H; reflexivity.
Qed.

Lemma placeMedia_extends nfoPath nfo isTVShow countries category st :
  extendsStore (db st)
    (db (snd (placeMedia env nfoPath nfo isTVShow countries category st))).
Proof.
  unfold placeMedia.
  destruct (MkdirAll (fs st) _) as [fs1|e]; [| apply extendsStore_refl].
  destruct (prepareMediaRecord_state env nfoPath nfo isTVShow countries category
              (DirOf nfoPath)
              (Join (Join (CloudDir (cfg env)) category) (Base (DirOf nfoPath)))
              (setFS fs1 st)) as (_ & Pdb & _).
  destruct (prepareMediaRecord env nfoPath nfo isTVShow countries category _ _ _)
    as [mediaRecord st2].
  cbn [snd db setFS] in Pdb. rewrite <- Pdb.
  destruct (Stat (fs st2) _) as [node|e1].
  - destruct isTVShow; [| apply extendsStore_refl].
    destruct (HasNewSeasons (fs st2) _ _) as [[hasNew seasonsToAdd]|e1];
      [| apply extendsStore_refl].
    destruct hasNew; [| apply extendsStore_refl].
    pose proof (mergeIntoTarget_db (DirOf nfoPath)
                  (Join (Join (CloudDir (cfg env)) category)
                        (Base (DirOf nfoPath))) seasonsToAdd st2) as Hm.
    destruct (mergeIntoTarget env _ _ seasonsToAdd st2) as [[u|e] st3];
      cbn [snd] in *; rewrite <- Hm;
      [apply recordAndDetect_extends | apply extendsStore_refl].
  - destruct (MoveDirectory _ _ _ _) as [[u|e] fs']; cbn [snd];
      [| apply extendsStore_refl].
    apply (recordAndDetect_extends nfo isTVShow _ mediaRecord
             (logf LogMoved (setFS fs' st2))).
Qed.

(** X23.  What a run does to the store, whatever it moves and whatever it
    returns: no row of the catalog is deleted and none changes its key,
    title, year, season or processed time; no row of the missing seasons is
    deleted or changed; the missing episodes are untouched; and when the
    rows that are missing had distinct keys before the run, they have
    distinct keys after it. *)
Theorem run_extends_the_store nfoPath st :
  extendsStore (db st) (db (snd (ClassifyAndMove env nfoPath st))).
Proof.
  unfold ClassifyAndMove.
  destruct (ParseNFO env (fs st) nfoPath) as [nfo|e]; [| apply extendsStore_refl].
  destruct (ReadDir (fs st) (DirOf nfoPath)) as [entries|e];
    [| apply extendsStore_refl].
  destruct (countNFO env entries >? 1)%Z; [apply extendsStore_refl |].
  destruct (isNFOResolved env nfo); [| apply extendsStore_refl]. cbn [negb].
  pose proof (resolveCountries_state env nfo (IsTVShow nfo) st) as [_ Hdb].
  destruct (resolveCountries env nfo (IsTVShow nfo) st) as [countries st1].
  cbn [snd] in Hdb. rewrite <- Hdb.
  unfold classifyResolved.
  destruct countries as [|country rest]; [apply extendsStore_refl |].
  destruct (DetermineCategory _ _ _ _) as [category|e];
    [| apply extendsStore_refl].
  destruct (isProjectDirectory _ _); [apply extendsStore_refl |].
  destruct (negb (IsSimplifiedChinese env (nTitle nfo)));
    [apply extendsStore_refl |].
  destruct (find _ (nGenres nfo)); [apply extendsStore_refl |].
  apply placeMedia_extends.
Qed.

End RunStore.

(** * Placement of a new title *)

Section NewTitle.

Variable env : Env.

Lemma placeMedia_moves nfoPath nfo isTVShow countries category st
    S m eS eD eM fs1 :
  DirOf nfoPath = S ++ [m] -> m <> "" ->
  MkdirAll (fs st) (Join (CloudDir (cfg env)) category) = Ok fs1 ->
  disjointPaths S (Join (CloudDir (cfg env)) category) = true ->
  Stat fs1 S = Ok (Dir eS) -> lookupEntry m eS = Some (Dir eM) ->
  Stat fs1 (Join (CloudDir (cfg env)) category) = Ok (Dir eD) ->
  lookupEntry m eD = None ->
  canonical (Dir eM) = true ->
  exists st',
    placeMedia env nfoPath nfo isTVShow countries category st = (Ok tt, st') /\
    fs st' =
      setDir (Join (CloudDir (cfg env)) category) (setEntry m (Dir eM) eD)
             (setDir S (removeEntry m eS) fs1) /\
    In LogMoved (log st') /\
    exists row, In row (media_records (db st')) /\
                title row = Some (nTitle nfo) /\ year row = Some (nYear nfo).
Proof.
  intros Hdir Hm Hmk Hd HS Hs HD Ht Hcan.
  unfold placeMedia. rewrite Hdir, (Base_snoc S m).
  set (D := Join (CloudDir (cfg env)) category) in *.
  rewrite Hmk, (Join_snoc D m Hm).
  destruct (prepareMediaRecord_state env nfoPath nfo isTVShow countries category
              (S ++ [m]) (D ++ [m]) (setFS fs1 st)) as (Pfs & _ & _).
  destruct (prepareMediaRecord_key env nfoPath nfo isTVShow countries category
              (S ++ [m]) (D ++ [m]) (setFS fs1 st)) as (Pt & Py).
  destruct (prepareMediaRecord env nfoPath nfo isTVShow countries category
              (S ++ [m]) (D ++ [m]) (setFS fs1 st)) as [mediaRecord st2].
  cbn [fst snd fs setFS] in Pfs, Pt, Py. rewrite Pfs.
  rewrite (Stat_snoc fs1 D m eD HD), Ht.
  rewrite (MoveDirectory_fresh (xdev env) fs1 S D m m (Dir eM) eS eD
             Hd HS HD Hs Ht eq_refl Hcan).
  set (st3 := logf LogMoved (setFS _ st2)).
  pose proof (recordAndDetect_ok env nfo isTVShow (D ++ [m]) mediaRecord st3) as Rok.
  pose proof (recordAndDetect_fs env nfo isTVShow (D ++ [m]) mediaRecord st3) as Rfs.
  destruct (recordAndDetect_log env nfo isTVShow (D ++ [m]) mediaRecord st3)
    as (l & Rlog).
  destruct (recordAndDetect_row env nfo isTVShow (D ++ [m]) mediaRecord st3)
    as (row & Rin & Rt & Ry).
  destruct (recordAndDetect env nfo isTVShow (D ++ [m]) mediaRecord st3)
    as [r st4]. cbn [fst snd] in *. subst r.
  exists st4. split; [reflexivity |]. split; [rewrite Rfs; reflexivity |].
  split.
  - rewrite Rlog. apply in_or_app. left. unfold st3. cbn [log logf].
    apply in_or_app. right. left. reflexivity.
  - exists row. rewrite Rt, Ry, Pt, Py. tauto.
Qed.

(** X21.  Placement of a title whose destination does not exist yet, the
    library and the delivery being on different branches of the tree: the
    category directory is made if need be, the whole media directory is
    moved under it by its name, on one device or across devices, and
    placement returns nil.  The directory is then at the destination as it
    was at the source, the source path is gone, paths outside the library
    and beside the source's parent are as before, and the catalog has a
    row of the title and year of the metadata file. *)
Theorem placement_moves_a_new_title
    nfoPath nfo isTVShow countries category st eM eC :
  let mediaDir := DirOf nfoPath in
  let targetDir := Join (CloudDir (cfg env)) category in
  let target := Join targetDir (Base mediaDir) in
  Base mediaDir <> "" -> category <> "" ->
  disjointPaths (DirOf mediaDir) (CloudDir (cfg env)) = true ->
  Stat (fs st) mediaDir = Ok (Dir eM) ->
  canonical (Dir eM) = true ->
  Stat (fs st) (CloudDir (cfg env)) = Ok (Dir eC) ->
  Stat (fs st) target = Err (ErrOs ENOENT) ->
  exists st',
    placeMedia env nfoPath nfo isTVShow countries category st = (Ok tt, st') /\
    Stat (fs st') target = Ok (Dir eM) /\
    Stat (fs st') mediaDir = Err (ErrOs ENOENT) /\
    (forall q, disjointPaths (DirOf mediaDir) q = true ->
               disjointPaths (CloudDir (cfg env)) q = true ->
               Stat (fs st') q = Stat (fs st) q) /\
    In LogMoved (log st') /\
    exists row, In row (media_records (db st')) /\
                title row = Some (nTitle nfo) /\ year row = Some (nYear nfo).
Proof.
  intros mediaDir targetDir target Hm Hcat Hd HM Hcan HC Hnone.
  subst target targetDir.
  assert (Hne : mediaDir <> []).
  { intros E. rewrite E in Hd. discriminate. }
  destruct (Stat_parent (fs st) mediaDir (Dir eM) Hne HM) as (eS & HS & Hs).
  pose proof (path_split mediaDir Hne) as Hsplit.
  rewrite (Join_snoc (CloudDir (cfg env)) category Hcat) in *.
  rewrite (Join_snoc _ _ Hm) in *.
  assert (Hmd : DirOf nfoPath = mediaDir) by reflexivity.
  clearbody mediaDir.
  set (S := DirOf mediaDir) in *. set (m := Base mediaDir) in *.
  clearbody S m. subst mediaDir.
  set (C := CloudDir (cfg env)) in *.
  assert (HdD : disjointPaths S (C ++ [category]) = true)
    by exact (disjointPaths_snoc_r S C category Hd).
  assert (HdC : disjointPaths C S = true) by (rewrite disjointPaths_sym; exact Hd).
  assert (Hfs1 : exists fs1 eD,
             MkdirAll (fs st) (C ++ [category]) = Ok fs1 /\
             Stat fs1 S = Ok (Dir eS) /\
             Stat fs1 (C ++ [category]) = Ok (Dir eD) /\
             lookupEntry m eD = None /\
             forall q, disjointPaths C q = true -> Stat fs1 q = Stat (fs st) q).
  { destruct (lookupEntry category eC) as [[data|eD]|] eqn:Ecat.
    - exfalso.
      assert (HF : Stat (fs st) (C ++ [category]) = Ok (File data))
        by (rewrite (Stat_snoc _ C category eC HC), Ecat; reflexivity).
      rewrite (Stat_prefix_file _ _ m _ HF) in Hnone. discriminate.
    - assert (HD : Stat (fs st) (C ++ [category]) = Ok (Dir eD))
        by (rewrite (Stat_snoc _ C category eC HC), Ecat; reflexivity).
      exists (fs st), eD.
      split; [exact (MkdirAll_existing _ _ _ HD) |].
      split; [exact HS |]. split; [exact HD |]. split; [| reflexivity].
      rewrite (Stat_snoc _ _ m eD HD) in Hnone.
      destruct (lookupEntry m eD); [discriminate | reflexivity].
    - exists (setDir C (setEntry category (Dir []) eC) (fs st)), [].
      split; [exact (MkdirAll_snoc _ C category eC HC Ecat) |].
      split; [rewrite (Stat_setDir_disjoint _ C S _ HdC); exact HS |].
      split; [rewrite (Stat_snoc _ C category _ (Stat_setDir _ C _ eC HC)),
                lookupEntry_setEntry_eq; reflexivity |].
      split; [reflexivity |].
      intros q Hq. exact (Stat_setDir_disjoint _ C q _ Hq). }
  destruct Hfs1 as (fs1 & eD & Hmk & HS1 & HD1 & Ht & Hframe).
  assert (HdDS : disjointPaths (C ++ [category]) S = true)
    by (rewrite disjointPaths_sym; exact HdD).
  destruct (placeMedia_moves nfoPath nfo isTVShow countries category st
              S m eS eD eM fs1 Hmd Hm) as (st' & Hrun & Hfs & Hlog & Hrow).
  { fold C. rewrite (Join_snoc C category Hcat). exact Hmk. }
  { fold C. rewrite (Join_snoc C category Hcat). exact HdD. }
  { exact HS1. } { exact Hs. }
  { fold C. rewrite (Join_snoc C category Hcat). exact HD1. }
  { exact Ht. } { exact Hcan. }
  fold C in Hfs, Hrun. rewrite (Join_snoc C category Hcat) in Hfs.
  exists st'. split; [exact Hrun |]. rewrite Hfs.
  assert (HD2 : Stat (setDir S (removeEntry m eS) fs1) (C ++ [category])
                = Ok (Dir eD))
    by (rewrite (Stat_setDir_disjoint _ S _ _ HdD); exact HD1).
  split; [| split; [| split; [| exact (conj Hlog Hrow)]]].
  - rewrite (Stat_snoc _ _ m _ (Stat_setDir _ (C ++ [category]) _ eD HD2)).
    rewrite lookupEntry_setEntry_eq. reflexivity.
  - rewrite (Stat_setDir_disjoint _ (C ++ [category]) (S ++ [m]) _
               (disjointPaths_snoc_r _ _ m HdDS)).
    rewrite (Stat_snoc _ S m _ (Stat_setDir fs1 S _ eS HS1)).
    rewrite lookupEntry_removeEntry_eq. reflexivity.
  - intros q HSq HCq.
    rewrite (Stat_setDir_disjoint _ (C ++ [category]) q _
               (disjointPaths_snoc_l C q category HCq)).
    rewrite (Stat_setDir_disjoint fs1 S q _ HSq).
    exact (Hframe q HCq).
Qed.

End NewTitle.

(** The first delivery of the sample series, across devices. *)
Lemma placement_moves_a_new_title_witness :
  exists st',
    placeMedia (onlineEnv true) ["Temp"; "繁花"; "tvshow.nfo"]
               (sampleNFO "tvshow" "繁花" ["中国大陆"] ["剧情"] "200001" "")
               true ["中国大陆"] CategoryCnShow (stateOf firstDeliveryTree)
    = (Ok tt, st') /\
    Stat (fs st') ["Cloud"; "CnShow"; "繁花"] =
      Ok (Dir [("Season 1", Dir [("E01.mkv", File "a")]);
               ("tvshow.nfo", File "fanhua")]) /\
    Stat (fs st') ["Temp"; "繁花"] = Err (ErrOs ENOENT) /\
    (forall q, disjointPaths ["Temp"] q = true ->
               disjointPaths ["Cloud"] q = true ->
               Stat (fs st') q = Stat firstDeliveryTree q) /\
    In LogMoved (log st') /\
    exists row, In row (media_records (db st')) /\
                title row = Some "繁花" /\ year row = Some "2023".
Proof.
  apply (placement_moves_a_new_title (onlineEnv true)
           ["Temp"; "繁花"; "tvshow.nfo"]
           (sampleNFO "tvshow" "繁花" ["中国大陆"] ["剧情"] "200001" "")
           true ["中国大陆"] CategoryCnShow (stateOf firstDeliveryTree)
           [("Season 1", Dir [("E01.mkv", File "a")]);
            ("tvshow.nfo", File "fanhua")] []).
  - vm_compute. discriminate.
  - discriminate.
  - vm_compute. reflexivity.
  - vm_compute. reflexivity.
  - vm_compute. reflexivity.
  - vm_compute. reflexivity.
  - vm_compute. reflexivity.
Defined.
